(** * django-async: the job queue of [async/models.py] and [async/api.py]

    A shallow embedding of the Job / Group / Error models and of the
    schedule / deschedule / health facade, with the properties of the
    specification stated over it.

    Conventions of the embedding.
    - Text is [string]; the characters are ASCII code points, on which the
      implicit ascii encoding of [sha1(unicode(self))] is the identity.
    - A [datetime] is a number of microseconds since the epoch and a
      [timedelta] a number of microseconds ([Z]); the calendar's upper bound
      (year 9999) is not modelled.
    - Python floats are IEEE binary64 ([PrimFloat]).
    - The database is a record of three tables (lists of rows in insertion
      order).  The [final] job of a stored group stands for the key in its
      [final] column, so a final job without a key is not stored in the
      row; an error needs the key of its job (its [job] column is not
      nullable).
      The other column constraints of the storage backend (the NOT NULL of
      [Job.priority], max_length, the targets of foreign keys) are not
      modelled: the embedding covers the saves the backend accepts, and the
      properties of newly saved jobs are stated for jobs with a priority.
    - A method [Class.method] of the source is [Class_method] here; it runs
      on the pair of its instance and the world, so that what it assigns to
      [self] survives an exception, as in Python.
    - Calls to [_logger] have no effect on the queue and are left out. *)

From Stdlib Require Import ZArith List String Ascii Bool Lia.
From Stdlib Require Import DecimalString Floats Uint63.
Import ListNotations.

Local Open Scope string_scope.
Local Open Scope Z_scope.

(* ================================================================== *)
(** ** Text helpers *)

Definition chr (n : Z) : ascii := ascii_of_N (Z.to_N n).
Definition ord (c : ascii) : Z := Z.of_N (N_of_ascii c).

Definition str (c : ascii) : string := String c EmptyString.

Fixpoint chars (s : string) : list ascii :=
  match s with
  | EmptyString => []
  | String c r => c :: chars r
  end.

(** [sep.join(l)] *)
Definition join (sep : string) (l : list string) : string := String.concat sep l.

(** One lowercase hexadecimal digit, as [hexdigest] and [repr] print it. *)
Definition hex_digit (n : Z) : ascii :=
  match n mod 16 with
  | 0 => "0" | 1 => "1" | 2 => "2" | 3 => "3" | 4 => "4" | 5 => "5"
  | 6 => "6" | 7 => "7" | 8 => "8" | 9 => "9" | 10 => "a" | 11 => "b"
  | 12 => "c" | 13 => "d" | 14 => "e" | _ => "f"
  end%char.

Definition is_hex_digit (c : ascii) : bool :=
  let n := ord c in
  ((48 <=? n) && (n <=? 57)) || ((97 <=? n) && (n <=? 102)).

Fixpoint all_hex (s : string) : bool :=
  match s with
  | EmptyString => true
  | String c r => is_hex_digit c && all_hex r
  end.

(** Decimal text of an integer, as [str(int)] prints it. *)
Definition decimal (z : Z) : string := NilZero.string_of_int (Z.to_int z).

(* ================================================================== *)
(** ** hashlib.sha1

    [from hashlib import sha1]: FIPS 180-1 over the bytes of the text,
    32-bit words as [Z] with the wrap-around written out. *)

Module SHA1.

Definition mask32 : Z := 0xFFFFFFFF.
Definition add32 (a b : Z) : Z := Z.land (a + b) mask32.
Definition rotl32 (n x : Z) : Z :=
  Z.land (Z.lor (Z.shiftl x n) (Z.shiftr x (32 - n))) mask32.
Definition not32 (x : Z) : Z := Z.lxor x mask32.

(** message ++ 0x80 ++ zeros ++ 64-bit big-endian bit length *)
Definition be_bytes (n : nat) (x : Z) : list Z :=
  map (fun i => Z.land (Z.shiftr x (8 * Z.of_nat i)) 0xFF) (rev (seq 0 n)).

Definition pad (msg : list Z) : list Z :=
  let len := Z.of_nat (List.length msg) in
  let k := (55 - len) mod 64 in
  msg ++ [0x80] ++ repeat 0 (Z.to_nat k) ++ be_bytes 8 (8 * len).

Fixpoint be_words (bytes : list Z) : list Z :=
  match bytes with
  | a :: b :: c :: d :: r =>
      Z.lor (Z.shiftl a 24) (Z.lor (Z.shiftl b 16) (Z.lor (Z.shiftl c 8) d))
      :: be_words r
  | _ => []
  end.

Fixpoint blocks (fuel : nat) (words : list Z) : list (list Z) :=
  match fuel, words with
  | S f, _ :: _ => firstn 16 words :: blocks f (skipn 16 words)
  | _, _ => []
  end.

(** The message schedule, most recent word first. *)
Fixpoint schedule (n : nat) (rev_w : list Z) : list Z :=
  match n with
  | O => rev_w
  | S n' =>
      let w i := nth i rev_w 0 in
      let x := Z.lxor (Z.lxor (w 2%nat) (w 7%nat)) (Z.lxor (w 13%nat) (w 15%nat)) in
      schedule n' (rotl32 1 x :: rev_w)
  end.

Definition f (t : nat) (b c d : Z) : Z :=
  if (t <? 20)%nat then Z.lor (Z.land b c) (Z.land (not32 b) d)
  else if (t <? 40)%nat then Z.lxor (Z.lxor b c) d
  else if (t <? 60)%nat then
    Z.lor (Z.lor (Z.land b c) (Z.land b d)) (Z.land c d)
  else Z.lxor (Z.lxor b c) d.

Definition K (t : nat) : Z :=
  if (t <? 20)%nat then 0x5A827999
  else if (t <? 40)%nat then 0x6ED9EBA1
  else if (t <? 60)%nat then 0x8F1BBCDC
  else 0xCA62C1D6.

Definition state : Type := Z * Z * Z * Z * Z.

Definition round (s : state) (tw : nat * Z) : state :=
  let '(a, b, c, d, e) := s in
  let '(t, w) := tw in
  let temp := add32 (add32 (add32 (add32 (rotl32 5 a) (f t b c d)) e) (K t)) w in
  (temp, a, rotl32 30 b, c, d).

Definition compress (h : state) (block : list Z) : state :=
  let w := rev (schedule 64 (rev block)) in
  let '(a, b, c, d, e) := fold_left round (combine (seq 0 80) w) h in
  let '(h0, h1, h2, h3, h4) := h in
  (add32 h0 a, add32 h1 b, add32 h2 c, add32 h3 d, add32 h4 e).

Definition init : state :=
  (0x67452301, 0xEFCDAB89, 0x98BADCFE, 0x10325476, 0xC3D2E1F0).

Definition digest (msg : list Z) : state :=
  let words := be_words (pad msg) in
  fold_left compress (blocks (List.length words) words) init.

(** Eight hexadecimal digits of a word, most significant first. *)
Definition hex32 (x : Z) : list ascii :=
  map (fun i => hex_digit (Z.shiftr x (4 * Z.of_nat i))) (rev (seq 0 8)).

Definition hexdigest (msg : string) : string :=
  let '(h0, h1, h2, h3, h4) := digest (map ord (chars msg)) in
  string_of_list_ascii (hex32 h0 ++ hex32 h1 ++ hex32 h2 ++ hex32 h3 ++ hex32 h4).

End SHA1.

(** [sha1(text).hexdigest()] *)
Definition sha1_hexdigest (text : string) : string := SHA1.hexdigest text.

(* ================================================================== *)
(** ** Python values and [repr]

    The values [simplejson.loads] returns: [None], booleans, integers,
    unicode strings, lists and dicts.  A dict is the list of its items in
    iteration order, which is the interpreter's and is fixed by nothing in
    this repository.  Floats are outside the value domain. *)

Inductive json : Type :=
| JNull
| JBool (b : bool)
| JInt (n : Z)
| JString (s : string)
| JList (l : list json)
| JObject (d : list (string * json)).

Definition dict : Type := list (string * json).

(** [repr] of an [int], or of a [long] past [sys.maxint] (64-bit). *)
Definition repr_int (n : Z) : string :=
  if (- 2 ^ 63 <=? n) && (n <? 2 ^ 63) then decimal n else decimal n ++ "L".

Fixpoint contains (c : ascii) (s : string) : bool :=
  match s with
  | EmptyString => false
  | String x r => Ascii.eqb x c || contains c r
  end.

Definition escape_char (quote c : ascii) : string :=
  let n := ord c in
  if Ascii.eqb c quote || Ascii.eqb c "\" then String "\" (str c)
  else if n =? 9 then "\t"
  else if n =? 10 then "\n"
  else if n =? 13 then "\r"
  else if (n <? 32) || (127 <=? n) then
    "\x" ++ String (hex_digit (n / 16)) (str (hex_digit n))
  else str c.

Fixpoint escape (quote : ascii) (s : string) : string :=
  match s with
  | EmptyString => ""
  | String c r => escape_char quote c ++ escape quote r
  end.

Definition double_quote : ascii := chr 34.

(** [repr(u'...')]: single quotes unless the text holds a single quote and
    no double quote. *)
Definition repr_unicode (s : string) : string :=
  let quote : ascii :=
    if contains "'" s && negb (contains double_quote s) then double_quote
    else "'"%char in
  "u" ++ str quote ++ escape quote s ++ str quote.

Fixpoint repr (v : json) : string :=
  match v with
  | JNull => "None"
  | JBool true => "True"
  | JBool false => "False"
  | JInt n => repr_int n
  | JString s => repr_unicode s
  | JList l => "[" ++ join ", " (map repr l) ++ "]"
  | JObject d =>
      "{" ++ join ", "
               (map (fun kv => let '(k, x) := kv in repr_unicode k ++ ": " ++ repr x) d)
          ++ "}"
  end.

(** [d[k] = v] on a dict: the value is replaced in place, a new key goes
    last. *)
Fixpoint dict_set (k : string) (v : json) (d : dict) : dict :=
  match d with
  | [] => [(k, v)]
  | (k', v') :: r =>
      if String.eqb k' k then (k, v) :: r else (k', v') :: dict_set k v r
  end.

(** simplejson is outside the repository.  A serialized column is
    represented by the document it holds: [dumps v] is the text of [v] and
    [loads] reads it back, so [loads (dumps v) = v] by computation. *)
Inductive Text (A : Type) : Type := dumps (v : A).
Arguments dumps {A} v.

Definition loads {A : Type} (t : Text A) : A := let 'dumps v := t in v.

(** [x or default] on an optional argument that is a list or a dict. *)
Definition or_else {A : Type} (x : option (list A)) (default : list A) : list A :=
  match x with
  | Some (a :: r) => a :: r
  | _ => default
  end.

(* ================================================================== *)
(** ** Exceptions and results *)

Inductive Exception : Type :=
| ValidationError (message : string)
| AttributeError (message : string)
| TypeError (message : string)
| ValueError (message : string)
| OverflowError (message : string)
| DoesNotExist (message : string)
| PyException (type_name message : string).

Inductive Result (A : Type) : Type :=
| Return (a : A)
| Raise (e : Exception).
Arguments Return {A} a.
Arguments Raise {A} e.

(* ================================================================== *)
(** ** datetime, timedelta and float arithmetic *)

Definition datetime : Type := Z.
Definition timedelta : Type := Z.

Definition us_per_second : Z := 1000000.

(** [timedelta.seconds]: the seconds field of the normalised
    (days, seconds, microseconds) triple, between 0 and 86399. *)
Definition timedelta_seconds (d : timedelta) : Z := (d / us_per_second) mod 86400.

(** [timedelta.days] *)
Definition timedelta_days (d : timedelta) : Z := d / (86400 * us_per_second).

(** [float(n)] *)
Definition float_of_int (n : Z) : float :=
  SF2Prim (binary_normalize prec emax n 0 false).

(** C's [modf]: the integral part (towards zero) and the fractional part.
    Infinities and NaN have no integral part. *)
Definition float_trunc (x : float) : option Z :=
  match Prim2SF x with
  | S754_zero _ => Some 0
  | S754_finite s m e =>
      let mag := if 0 <=? e then Z.pos m * 2 ^ e else Z.pos m / 2 ^ (- e) in
      Some (if s then - mag else mag)
  | S754_infinity _ => None
  | S754_nan => None
  end.

Definition modf (x : float) : option (float * Z) :=
  match float_trunc x with
  | Some i => Some (PrimFloat.sub x (float_of_int i), i)
  | None => None
  end.

Definition float_is_zero (x : float) : bool := PrimFloat.eqb x PrimFloat.zero.

(** [round_to_long] of CPython's datetime module. *)
Definition round_to_long (x : float) : option Z :=
  if PrimFloat.leb PrimFloat.zero x
  then float_trunc (PrimFloat.add x 0.5%float)
  else float_trunc (PrimFloat.sub x 0.5%float).

(** [timedelta(seconds=x)] for a float [x], as CPython 2.7 builds it: whole
    seconds exactly, the fraction scaled to microseconds in float
    arithmetic, the rest rounded; out of range above 999999999 days. *)
Definition timedelta_of_seconds (x : float) : Result timedelta :=
  let cannot := Raise (OverflowError "cannot convert float to integer") in
  let check (us : Z) : Result timedelta :=
    if (Z.abs (timedelta_days us) <=? 999999999) then Return us
    else Raise (OverflowError "days must have magnitude <= 999999999") in
  match modf x with
  | None => cannot
  | Some (fracpart, intpart) =>
      let sum := intpart * us_per_second in
      if float_is_zero fracpart then check sum
      else
        match modf (PrimFloat.mul (float_of_int us_per_second) fracpart) with
        | None => cannot
        | Some (leftover, whole) =>
            if float_is_zero leftover then check (sum + whole)
            else
              match round_to_long leftover with
              | None => cannot
              | Some r => check (sum + whole + r)
              end
        end
  end.


(* ================================================================== *)
(** ** The models: rows and in-memory instances

    One record per model serves both as the Python instance and as the
    stored row.  [id] is Django's implicit primary key, [None] until the
    first save.  A foreign key holds the primary key of its target. *)

Module Job.

Record t : Type := mk {
  id : option Z;
  name : string;
  args : Text (list json);
  kwargs : Text dict;
  meta : option (Text dict);        (* [None]: the empty text *)
  result : option (Text json);      (* [None]: the empty text *)
  priority : option Z;
  identity : string;
  added : option datetime;
  scheduled : option datetime;
  started : option datetime;
  executed : option datetime;
  cancelled : option datetime;
  group : option Z;
  fairness : option Z
}.

(** [Job(name=..., args=..., kwargs=..., meta=..., scheduled=...)]: the
    other fields take their defaults. *)
Definition new (name : string) (args : Text (list json)) (kwargs : Text dict)
    (meta : option (Text dict)) (scheduled : option datetime) : t :=
  mk None name args kwargs meta None None "" None scheduled None None None
     None (Some (-1)).

Definition set_id v (j : t) : t :=
  mk v (name j) (args j) (kwargs j) (meta j) (result j) (priority j)
     (identity j) (added j) (scheduled j) (started j) (executed j)
     (cancelled j) (group j) (fairness j).
Definition set_result v (j : t) : t :=
  mk (id j) (name j) (args j) (kwargs j) (meta j) v (priority j)
     (identity j) (added j) (scheduled j) (started j) (executed j)
     (cancelled j) (group j) (fairness j).
Definition set_priority v (j : t) : t :=
  mk (id j) (name j) (args j) (kwargs j) (meta j) (result j) v
     (identity j) (added j) (scheduled j) (started j) (executed j)
     (cancelled j) (group j) (fairness j).
Definition set_identity v (j : t) : t :=
  mk (id j) (name j) (args j) (kwargs j) (meta j) (result j) (priority j)
     v (added j) (scheduled j) (started j) (executed j)
     (cancelled j) (group j) (fairness j).
Definition set_added v (j : t) : t :=
  mk (id j) (name j) (args j) (kwargs j) (meta j) (result j) (priority j)
     (identity j) v (scheduled j) (started j) (executed j)
     (cancelled j) (group j) (fairness j).
Definition set_scheduled v (j : t) : t :=
  mk (id j) (name j) (args j) (kwargs j) (meta j) (result j) (priority j)
     (identity j) (added j) v (started j) (executed j)
     (cancelled j) (group j) (fairness j).
Definition set_started v (j : t) : t :=
  mk (id j) (name j) (args j) (kwargs j) (meta j) (result j) (priority j)
     (identity j) (added j) (scheduled j) v (executed j)
     (cancelled j) (group j) (fairness j).
Definition set_executed v (j : t) : t :=
  mk (id j) (name j) (args j) (kwargs j) (meta j) (result j) (priority j)
     (identity j) (added j) (scheduled j) (started j) v
     (cancelled j) (group j) (fairness j).
Definition set_group v (j : t) : t :=
  mk (id j) (name j) (args j) (kwargs j) (meta j) (result j) (priority j)
     (identity j) (added j) (scheduled j) (started j) (executed j)
     (cancelled j) v (fairness j).

End Job.

Module Error.

Record t : Type := mk {
  id : option Z;
  job : option Z;
  executed : option datetime;
  exception : string;
  traceback : string
}.

End Error.

Module Group.

Record t : Type := mk {
  id : option Z;
  reference : string;
  description : option string;
  created : option datetime;
  final : option Job.t     (* the instance behind the [final] key *)
}.

(** [Group(reference=..., description=...)] *)
Definition new (reference : string) (description : option string) : t :=
  mk None reference description None None.

Definition set_id v (g : t) : t :=
  mk v (reference g) (description g) (created g) (final g).
Definition set_created v (g : t) : t :=
  mk (id g) (reference g) (description g) v (final g).
Definition set_final v (g : t) : t :=
  mk (id g) (reference g) (description g) (created g) v.

End Group.

(** The database: the three tables. *)
Record Store : Type := mkStore {
  jobs : list Job.t;
  errors : list Error.t;
  groups : list Group.t
}.

Definition empty_store : Store := mkStore [] [] [].

(** What a call can read and change: the working state of the database,
    the states committed so far (latest first), whether a
    [commit_on_success] block is open, how many times the clock was read,
    and the telemetry sent ([command], [success]). *)
Record World : Type := mkWorld {
  db : Store;
  committed : list Store;
  managed : bool;
  ticks : nat;
  stats : list (string * bool)
}.

Definition initial_world : World := mkWorld empty_store [empty_store] false 0 [].

(* ================================================================== *)
(** ** State and exceptions *)

Definition M (S A : Type) : Type := S -> Result A * S.

Definition ret {S A : Type} (a : A) : M S A := fun s => (Return a, s).

Definition raise {S A : Type} (e : Exception) : M S A := fun s => (Raise e, s).

Definition bind {S A B : Type} (m : M S A) (k : A -> M S B) : M S B :=
  fun s =>
    match m s with
    | (Return a, s') => k a s'
    | (Raise e, s') => (Raise e, s')
    end.

Notation "x <- m ;; k" := (bind m (fun x => k))
  (at level 61, m at next level, right associativity).
Notation "m ;; k" := (bind m (fun _ => k))
  (at level 61, right associativity).

(** [try: body except Exception, e: handler] *)
Definition try_except {S A : Type} (body : M S A) (handler : Exception -> M S A)
    : M S A :=
  fun s =>
    match body s with
    | (Return a, s') => (Return a, s')
    | (Raise e, s') => handler e s'
    end.

Definition lift {S A : Type} (r : Result A) : M S A := fun s => (r, s).

(** A method runs on its instance and the world. *)
Definition Method (T A : Type) : Type := M (T * World) A.

Definition self {T : Type} : Method T T := fun s => (Return (fst s), s).

Definition setattr {T : Type} (update : T -> T) : Method T unit :=
  fun s => (Return tt, (update (fst s), snd s)).

Definition world {T A : Type} (m : M World A) : Method T A :=
  fun s => let '(r, w) := m (snd s) in (r, (fst s, w)).

(** A query reads the working state of the database. *)
Definition query {A : Type} (q : Store -> A) : M World A :=
  fun w => (Return (q (db w)), w).

(** A write changes the working state; outside a transaction block Django
    commits it at once. *)
Definition write (f : Store -> Store) : M World unit :=
  fun w =>
    let s := f (db w) in
    (Return tt,
     mkWorld s (if managed w then committed w else s :: committed w)
             (managed w) (ticks w) (stats w)).

(** [transaction.commit_on_success(body)()] around a method body: the
    writes of [body] are committed together when it returns and undone when
    it raises; the instance keeps what was assigned to it either way. *)
Definition commit_on_success {T A : Type} (body : Method T A) : Method T A :=
  fun s =>
    let '(obj, w) := s in
    match body (obj, mkWorld (db w) (committed w) true (ticks w) (stats w)) with
    | (Return a, (obj', w')) =>
        (Return a,
         (obj', mkWorld (db w')
                        (if managed w then committed w' else db w' :: committed w')
                        (managed w) (ticks w') (stats w')))
    | (Raise e, (obj', w')) =>
        (Raise e,
         (obj', mkWorld (db w) (committed w') (managed w) (ticks w') (stats w')))
    end.

(* ================================================================== *)
(** ** Queries *)

(** Python's [==] on primary keys, as [Model.__eq__] and the ORM's exact
    lookups compare them ([None] matches a NULL key). *)
Definition pk_eqb (a b : option Z) : bool :=
  match a, b with
  | Some x, Some y => x =? y
  | None, None => true
  | _, _ => false
  end.

Definition isnull {A : Type} (x : option A) : bool :=
  match x with
  | None => true
  | Some _ => false
  end.

(** [queryset.count()] *)
Definition count {A : Type} (rows : list A) : Z := Z.of_nat (List.length rows).

(** [Count('column')]: the rows whose column is not NULL. *)
Definition Count {A B : Type} (column : A -> option B) (rows : list A) : Z :=
  count (filter (fun r => negb (isnull (column r))) rows).

(** The key an INSERT without a key receives. *)
Definition fresh_id {A : Type} (pk : A -> option Z) (rows : list A) : Z :=
  1 + fold_right (fun r m => match pk r with Some i => Z.max i m | None => m end)
                 0 rows.

(** UPDATE of the row with the key of [row]. *)
Definition replace_row {A : Type} (pk : A -> option Z) (row : A) (rows : list A)
    : list A :=
  map (fun r => if pk_eqb (pk r) (pk row) then row else r) rows.

(** [group.jobs.all()], also [Job.objects.filter(group=group)] *)
Definition group_jobs (g : option Z) (s : Store) : list Job.t :=
  filter (fun j => pk_eqb (Job.group j) g) (jobs s).

(** [Q(executed__isnull=True) & Q(cancelled__isnull=True)] *)
Definition unexecuted (j : Job.t) : bool :=
  isnull (Job.executed j) && isnull (Job.cancelled j).

(** [Q(executed__isnull=False) | Q(cancelled__isnull=False)] *)
Definition terminal (j : Job.t) : bool :=
  negb (isnull (Job.executed j)) || negb (isnull (Job.cancelled j)).

(** [group__reference=reference]: the join of a job with its group's row. *)
Definition group__reference (s : Store) (reference : string) (j : Job.t) : bool :=
  match Job.group j with
  | Some g =>
      existsb (fun r => pk_eqb (Group.id r) (Some g)
                        && String.eqb (Group.reference r) reference)
              (groups s)
  | None => false
  end.

(** [job.group.reference], read for a message (empty when the row is gone). *)
Definition reference_of (s : Store) (g : Z) : string :=
  match find (fun r => pk_eqb (Group.id r) (Some g)) (groups s) with
  | Some r => Group.reference r
  | None => ""
  end.

(** [job.errors.all()] *)
Definition job_errors (j : Job.t) (s : Store) : list Error.t :=
  filter (fun e => pk_eqb (Error.job e) (Job.id j)) (errors s).

(** [queryset.latest(field)]: the first row holding the greatest value. *)
Fixpoint latest {A : Type} (field : A -> option datetime) (rows : list A)
    : option A :=
  match rows with
  | [] => None
  | r :: rest =>
      match latest field rest with
      | None => Some r
      | Some r' =>
          match field r, field r' with
          | Some a, Some b => if b <=? a then Some r else Some r'
          | None, Some _ => Some r'
          | _, None => Some r
          end
      end
  end.

(* ================================================================== *)
(** ** Job.__unicode__ *)

(** [u'%s(%s)' % (self.name, args)]: the positional arguments by [repr],
    then the keyword arguments as [key=repr(value)] in the dict's iteration
    order, joined by a comma and a space. *)
Definition Job_unicode (j : Job.t) : string :=
  let args :=
    join ", "
      (map repr (loads (Job.args j))
       ++ map (fun kv => let '(k, v) := kv in k ++ "=" ++ repr v)
              (loads (Job.kwargs j))) in
  Job.name j ++ "(" ++ args ++ ")".

(** The float literal [1.6], the binary64 nearest to it. *)
Definition one_point_six : float := 0x1.999999999999ap+0%float.

Definition json_of_int (x : option Z) : json :=
  match x with
  | Some n => JInt n
  | None => JNull
  end.

Section Async.

(** *** The collaborators outside [models.py] and [api.py] *)

(** Successive readings of [timezone.now()] / [datetime.now()]. *)
Variable clock : nat -> datetime.
(** The C library's [pow] behind Python's [pow(int, float)]. *)
Variable pow : float -> float -> float.
(** [repr(exception)] and [traceback.format_exc()] while handling it. *)
Variable repr_exception : Exception -> string.
Variable format_exc : Exception -> string.
(** Python callables, [async.utils.full_name], the resolver
    [async.utils.object_at_end_of_path], [async.utils.non_unicode_kwarg_keys]
    and the call of a function on [args] and [kwargs].  The effects of an
    invoked operation lie outside the queue's tables. *)
Variable Function : Type.
Variable full_name : Function -> string.
Variable object_at_end_of_path : string -> Result Function.
Variable non_unicode_kwarg_keys : dict -> dict.
Variable call : Function -> list json -> dict -> Result json.

Definition now : M World datetime :=
  fun w =>
    (Return (clock (ticks w)),
     mkWorld (db w) (committed w) (managed w) (S (ticks w)) (stats w)).

(** [sbc._stats(success=..., stats_type="execute")] with
    [sbc.command = command] *)
Definition _stats (command : string) (success : bool) : M World unit :=
  fun w =>
    (Return tt,
     mkWorld (db w) (committed w) (managed w) (ticks w)
             (stats w ++ [(command, success)])).

(** *** Job *)

(** [super(Job, self).save()]: UPDATE when the key is set and its row
    exists, else INSERT ([added] is [auto_now_add]).  The row is written as
    the instance stands; the check of the columns by the database (the
    [priority] column is not nullable) is not part of this model, which
    covers the saves the database accepts. *)
Definition Model_save_Job : Method Job.t unit :=
  j <- self ;;
  record_exists <- world (query (fun s =>
    negb (isnull (Job.id j))
    && existsb (fun r => pk_eqb (Job.id r) (Job.id j)) (jobs s))) ;;
  if record_exists : bool then
    world (write (fun s =>
      mkStore (replace_row Job.id j (jobs s)) (errors s) (groups s)))
  else
    t <- world now ;;
    setattr (Job.set_added (Some t)) ;;
    pk <- match Job.id j with
          | Some i => ret i
          | None => world (query (fun s => fresh_id Job.id (jobs s)))
          end ;;
    setattr (Job.set_id (Some pk)) ;;
    j <- self ;;
    world (write (fun s => mkStore (jobs s ++ [j]) (errors s) (groups s))).

Definition Job_save : Method Job.t unit :=
  j <- self ;;
  match Job.group j with
  | Some g =>
      member <- world (query (fun s =>
        existsb (fun r => pk_eqb (Job.id r) (Job.id j)) (group_jobs (Some g) s))) ;;
      if negb member then
        n <- world (query (fun s =>
          count (filter terminal (group_jobs (Some g) s)))) ;;
        if 0 <? n then
          reference <- world (query (fun s => reference_of s g)) ;;
          raise (ValidationError
                   ("Cannot add job [" ++ Job.name j ++ "] to group ["
                    ++ reference ++ "] because this group has executed jobs."))
        else ret tt
      else ret tt
  | None => ret tt
  end ;;
  setattr (Job.set_identity (sha1_hexdigest (Job_unicode j))) ;;
  Model_save_Job.

(** [Error.objects.create(job=job, exception=..., traceback=...)];
    [executed] is [auto_now_add], set before the INSERT.  The [job] column
    is not nullable: for a job without a key the INSERT fails. *)
Definition Error_objects_create (job : Job.t) (exception traceback : string)
    : M World Error.t :=
  t <- now ;;
  match Job.id job with
  | None =>
      raise (PyException "IntegrityError" "async_error.job_id may not be NULL")
  | Some _ =>
      pk <- query (fun s => fresh_id Error.id (errors s)) ;;
      let e := Error.mk (Some pk) (Job.id job) (Some t) exception traceback in
      write (fun s => mkStore (jobs s) (errors s ++ [e]) (groups s)) ;;
      ret e
  end.

(** The inner [execute()] of [Job.execute]: the updates of a successful
    run, made in one transaction. *)
Definition execute_transaction (command : string) (function : Function)
    (args : list json) (kwargs : dict) : Method Job.t json :=
  t <- world now ;;
  setattr (Job.set_started (Some t)) ;;
  result <- lift (call function args kwargs) ;;
  t <- world now ;;
  setattr (Job.set_executed (Some t)) ;;
  setattr (Job.set_result (Some (dumps result))) ;;
  Job_save ;;
  world (_stats command true) ;;
  ret result.

(** The inner [record()] of [Job.execute]: the error row and the job, made
    in one transaction. *)
Definition record (exception : Exception) : Method Job.t unit :=
  j <- self ;;
  world (Error_objects_create j (repr_exception exception)
                              (format_exc exception)) ;;
  Job_save.

(** The [except Exception, exception:] block of [Job.execute]. *)
Definition execute_except (command : string) (exception : Exception)
    : Method Job.t json :=
  setattr (Job.set_started None) ;;
  j <- self ;;
  n <- world (query (fun s => count (job_errors j s))) ;;
  let errors := 1 + n in
  t <- world now ;;
  delay <- lift (timedelta_of_seconds
                   (PrimFloat.mul (float_of_int 60)
                                  (pow (float_of_int errors) one_point_six))) ;;
  setattr (Job.set_scheduled (Some (t + delay))) ;;
  priority <- match Job.priority j with
              | Some p => ret (p - 1)
              | None =>
                  raise (TypeError
                    "unsupported operand type(s) for -: 'NoneType' and 'int'")
              end ;;
  setattr (Job.set_priority (Some priority)) ;;
  commit_on_success (record exception) ;;
  world (_stats command false) ;;
  raise exception.

Definition Job_execute : Method Job.t json :=
  j <- self ;;
  let command := Job.name j in
  try_except
    (let args := loads (Job.args j) in
     let kwargs := non_unicode_kwarg_keys (loads (Job.kwargs j)) in
     let kwargs := dict_set "priority" (json_of_int (Job.priority j)) kwargs in
     let kwargs := dict_set "fairness" (json_of_int (Job.fairness j)) kwargs in
     function <- lift (object_at_end_of_path (Job.name j)) ;;
     commit_on_success (execute_transaction command function args kwargs))
    (execute_except command).

(** *** Group *)

(** The row of a group instance.  The [final] column holds the key of the
    final job, the one it had when it was assigned: a final job without a
    key leaves the column null, also when the job is saved afterwards. *)
Definition Group_row (g : Group.t) : Group.t :=
  match Group.final g with
  | Some f => if isnull (Job.id f) then Group.set_final None g else g
  | None => g
  end.

(** [super(Group, self).save()]; [created] is [auto_now_add]. *)
Definition Model_save_Group : Method Group.t unit :=
  g <- self ;;
  record_exists <- world (query (fun s =>
    negb (isnull (Group.id g))
    && existsb (fun r => pk_eqb (Group.id r) (Group.id g)) (groups s))) ;;
  if record_exists : bool then
    world (write (fun s =>
      mkStore (jobs s) (errors s)
              (replace_row Group.id (Group_row g) (groups s))))
  else
    t <- world now ;;
    setattr (Group.set_created (Some t)) ;;
    pk <- match Group.id g with
          | Some i => ret i
          | None => world (query (fun s => fresh_id Group.id (groups s)))
          end ;;
    setattr (Group.set_id (Some pk)) ;;
    g <- self ;;
    world (write (fun s =>
      mkStore (jobs s) (errors s) (groups s ++ [Group_row g]))).

(** [self.final.group = self; self.final.save()] *)
Definition save_final (f : Job.t) : Method Group.t unit :=
  fun s =>
    let '(g, w) := s in
    let '(r, (f', w')) := Job_save (Job.set_group (Group.id g) f, w) in
    (r, (Group.set_final (Some f') g, w')).

Definition Group_save : Method Group.t unit :=
  g <- self ;;
  n <- world (query (fun s =>
    count
      (filter (fun j => negb (pk_eqb (Job.group j) (Group.id g)))
         (filter unexecuted
            (filter (group__reference s (Group.reference g)) (jobs s)))))) ;;
  if 0 <? n then
    raise (ValidationError
             ("Group reference [" ++ Group.reference g
              ++ "] still has unexecuted jobs."))
  else
    Model_save_Group ;;
    g <- self ;;
    match Group.final g with
    | Some f =>
        if negb (pk_eqb (Job.group f) (Group.id g)) then save_final f else ret tt
    | None => ret tt
    end.

Definition Group_on_completion (job : Job.t) : Method Group.t unit :=
  setattr (Group.set_final (Some job)) ;;
  Group_save.

Definition Group_has_completed (g : Group.t) (exclude : option Job.t) (s : Store)
    : bool :=
  let job_query :=
    match exclude with
    | Some x =>
        filter (fun j => negb (pk_eqb (Job.id j) (Job.id x)))
               (group_jobs (Group.id g) s)
    | None => group_jobs (Group.id g) s
    end in
  (0 <? count (group_jobs (Group.id g) s))
  && (count (filter unexecuted job_query) =? 0).

Definition Group_latest_executed_job (g : Group.t) (s : Store) : option Job.t :=
  let executed := filter (fun j => negb (isnull (Job.executed j)))
                         (group_jobs (Group.id g) s) in
  if count executed =? 0 then None else latest Job.executed executed.

(** [a - b] on datetimes, either of which may be [None]. *)
Definition datetime_sub (a b : option datetime) : Result timedelta :=
  match a, b with
  | Some x, Some y => Return (x - y)
  | _, _ =>
      Raise (TypeError "unsupported operand type(s) for -: 'NoneType'")
  end.

Definition Group_estimate_execution_duration (g : Group.t)
    : M World (option timedelta * option timedelta * option timedelta) :=
  s <- query (fun s => s) ;;
  let members := group_jobs (Group.id g) s in
  (* Count('id'): a row always has its key *)
  let total_jobs := count members in
  let total_executed_jobs := Count Job.executed members in
  let total_cancelled_jobs := Count Job.cancelled members in
  let total_done := total_executed_jobs + total_cancelled_jobs in
  if 0 <? total_jobs then
    if total_done =? 0 then ret (None, None, None)
    else if negb (Group_has_completed g None s) then
      t <- now ;;
      time_consumed <- lift (datetime_sub (Some t) (Group.created g)) ;;
      estimated_time <- lift (timedelta_of_seconds
        (PrimFloat.mul
           (PrimFloat.div (float_of_int (timedelta_seconds time_consumed))
                          (float_of_int total_done))
           (float_of_int total_jobs))) ;;
      let remaining := estimated_time - time_consumed in
      ret (Some estimated_time, Some remaining, Some time_consumed)
    else
      match Group_latest_executed_job g s with
      | None =>
          raise (AttributeError "'NoneType' object has no attribute 'executed'")
      | Some j =>
          estimated_time <- lift (datetime_sub (Job.executed j) (Group.created g)) ;;
          let time_consumed := estimated_time in
          let remaining := 0 in
          ret (Some estimated_time, Some remaining, Some time_consumed)
      end
  else ret (None, None, None).

(** [Group.objects.create(...)] *)
Definition Group_objects_create (g : Group.t) : M World Group.t :=
  fun w =>
    match Group_save (g, w) with
    | (Return _, (g', w')) => (Return g', w')
    | (Raise e, (_, w')) => (Raise e, w')
    end.

Definition Group_latest_group_by_reference (reference : string)
    : M World Group.t :=
  try_except
    (found <- query (fun s =>
       latest Group.created
         (filter (fun r => String.eqb (Group.reference r) reference) (groups s))) ;;
     match found with
     | None => raise (DoesNotExist "Group matching query does not exist.")
     | Some group =>
         completed <- query (Group_has_completed group None) ;;
         if completed : bool then
           Group_objects_create (Group.new reference (Group.description group))
         else ret group
     end)
    (fun e =>
       match e with
       | DoesNotExist _ => Group_objects_create (Group.new reference None)
       | _ => raise e
       end).

(** *** The facade of [api.py] *)

(** The job is built without a priority and without a group. *)
Definition schedule (function : Function) (args : option (list json))
    (kwargs : option dict) (run_after : option datetime) (meta : option dict)
    : M World Job.t :=
  let job := Job.new (full_name function)
                     (dumps (or_else args [])) (dumps (or_else kwargs []))
                     (Some (dumps (or_else meta []))) run_after in
  fun w =>
    match Job_save (job, w) with
    | (Return _, (job', w')) => (Return job', w')
    | (Raise e, (_, w')) => (Raise e, w')
    end.

Definition deschedule (function : Function) (args : option (list json))
    (kwargs : option dict) : M World unit :=
  let job := Job.new (full_name function)
                     (dumps (or_else args [])) (dumps (or_else kwargs []))
                     None None in
  let mark_executed (r : Job.t) : bool :=
    String.eqb (Job.identity r) (Job_unicode job) in
  t <- now ;;
  write (fun s =>
    mkStore (map (fun r => if mark_executed r
                           then Job.set_executed (Some t) r else r) (jobs s))
            (errors s) (groups s)).

Definition health : M World json :=
  length <- query (fun s => count (jobs s)) ;;
  executed <- query (fun s =>
    count (filter (fun j => isnull (Job.executed j)) (jobs s))) ;;
  number <- query (fun s => count (errors s)) ;;
  ret (JObject [("queue", JObject [("length", JInt length);
                                   ("executed", JInt executed)]);
                ("errors", JObject [("number", JInt number)])]).

(** *** Stores the operations can reach *)

(** Every world a caller of the models and the facade can bring about,
    whatever each call returned or raised. *)
Inductive reachable : World -> Prop :=
| reach_initial : reachable initial_world
| reach_Group_save g w :
    reachable w -> reachable (snd (snd (Group_save (g, w))))
| reach_Group_on_completion g job w :
    reachable w -> reachable (snd (snd (Group_on_completion job (g, w))))
| reach_latest_group_by_reference reference w :
    reachable w -> reachable (snd (Group_latest_group_by_reference reference w))
| reach_Job_save j w :
    reachable w -> reachable (snd (snd (Job_save (j, w))))
| reach_Job_execute j w :
    reachable w -> reachable (snd (snd (Job_execute (j, w))))
| reach_schedule function args kwargs run_after meta w :
    reachable w ->
    reachable (snd (schedule function args kwargs run_after meta w))
| reach_deschedule function args kwargs w :
    reachable w -> reachable (snd (deschedule function args kwargs w)).

End Async.

(** A job is a member of group [g] in the store: [job in group.jobs.all()]. *)
Definition is_member (j : Job.t) (g : Z) (s : Store) : bool :=
  existsb (fun r => pk_eqb (Job.id r) (Job.id j)) (group_jobs (Some g) s).

(** The group has a member that is executed or cancelled. *)
Definition has_terminal_member (g : Z) (s : Store) : bool :=
  existsb terminal (group_jobs (Some g) s).

(** A group is open while one of its members is neither executed nor
    cancelled. *)
Definition open_group (s : Store) (g : Group.t) : bool :=
  existsb unexecuted (group_jobs (Group.id g) s).

Definition one_open_group_per_reference (s : Store) : Prop :=
  forall g1 g2 : Group.t,
    In g1 (groups s) -> In g2 (groups s) ->
    open_group s g1 = true -> open_group s g2 = true ->
    Group.reference g1 = Group.reference g2 ->
    Group.id g1 = Group.id g2.

(* ================================================================== *)
(** ** A concrete environment and concrete runs *)

Module Demo.

(** The clock starts at [start] and advances one second per reading. *)
Definition start : datetime := 1400000000 * us_per_second.
Definition clock (n : nat) : datetime := start + Z.of_nat n * us_per_second.

(** A clock read once a day. *)
Definition daily_clock (n : nat) : datetime :=
  start + Z.of_nat n * (86400 * us_per_second).

(** The one entry of the C library's [pow] the runs below use:
    [pow(1.0, y)] is [1.0] for every [y] (C99, F.9.4.4). *)
Definition pow (x y : float) : float :=
  if PrimFloat.eqb x 1%float then 1%float else PrimFloat.nan.

Definition repr_exception (e : Exception) : string :=
  match e with
  | ValidationError m => "ValidationError([u'" ++ m ++ "'])"
  | AttributeError m => "AttributeError(" ++ repr_unicode m ++ ",)"
  | TypeError m => "TypeError(" ++ repr_unicode m ++ ",)"
  | ValueError m => "ValueError(" ++ repr_unicode m ++ ",)"
  | OverflowError m => "OverflowError(" ++ repr_unicode m ++ ",)"
  | DoesNotExist m => "DoesNotExist(" ++ repr_unicode m ++ ",)"
  | PyException t m => t ++ "(" ++ repr_unicode m ++ ",)"
  end.

Definition format_exc (e : Exception) : string :=
  "Traceback (most recent call last): " ++ repr_exception e.

(** Two operations, known by their dotted names: [tasks.echo] returns its
    positional arguments, [tasks.fail] raises. *)
Definition Function : Type := string.
Definition full_name (f : Function) : string := f.
Definition object_at_end_of_path (name : string) : Result Function :=
  if String.eqb name "tasks.echo" || String.eqb name "tasks.fail"
  then Return name
  else Raise (PyException "ImportError" "No module named tasks").
Definition non_unicode_kwarg_keys (d : dict) : dict := d.
Definition call (f : Function) (args : list json) (kwargs : dict) : Result json :=
  if String.eqb f "tasks.echo" then Return (JList args)
  else Raise (PyException "ValueError" "boom").

Definition Job_save := Job_save clock.
Definition Group_save := Group_save clock.
Definition Job_execute :=
  Job_execute clock pow repr_exception format_exc Function
              object_at_end_of_path non_unicode_kwarg_keys call.
Definition schedule := schedule clock Function full_name.
Definition deschedule := deschedule clock Function full_name.
Definition estimate_execution_duration := Group_estimate_execution_duration clock.
Definition reachable :=
  reachable clock pow repr_exception format_exc Function full_name
            object_at_end_of_path non_unicode_kwarg_keys call.

(** The world and the instance a method leaves. *)
Definition world_after {T A : Type} (m : Method T A) (obj : T) (w : World)
    : World := snd (snd (m (obj, w))).
Definition self_after {T A : Type} (m : Method T A) (obj : T) (w : World)
    : T := fst (snd (m (obj, w))).

(** A job of the queue, as [Job(name=..., args=..., kwargs=..., priority=...,
    group=...)] builds it. *)
Definition job (name : string) (args : list json) (kwargs : dict)
    (priority : Z) (group : option Z) : Job.t :=
  Job.set_group group
    (Job.set_priority (Some priority)
       (Job.new name (dumps args) (dumps kwargs) (Some (dumps [])) None)).

(** One job of [tasks.fail] and one of [tasks.echo] saved on the empty
    queue, and the rows as a worker loads them. *)
Definition failing_world : World :=
  world_after Job_save (job "tasks.fail" [] [] 5 None) initial_world.
Definition failing_job : Job.t :=
  self_after Job_save (job "tasks.fail" [] [] 5 None) initial_world.

Definition echo_world : World :=
  world_after Job_save (job "tasks.echo" [JInt 1] [("b", JInt 2)] 5 None)
              initial_world.
Definition echo_job : Job.t :=
  self_after Job_save (job "tasks.echo" [JInt 1] [("b", JInt 2)] 5 None)
             initial_world.

(** Two groups saved empty under the reference R, then one job saved into
    each. *)
Definition two_groups_1 : World :=
  world_after Group_save (Group.new "R" None) initial_world.
Definition two_groups_2 : World :=
  world_after Group_save (Group.new "R" None) two_groups_1.
Definition two_groups_3 : World :=
  world_after Job_save (job "tasks.echo" [JInt 1] [] 0 (Some 1)) two_groups_2.
Definition two_groups_4 : World :=
  world_after Job_save (job "tasks.echo" [JInt 2] [] 0 (Some 2)) two_groups_3.

(** A group of four jobs created at [start], two of them executed ten
    seconds later, the other two pending. *)
Definition member (pk : Z) (executed cancelled : option datetime) : Job.t :=
  Job.mk (Some pk) "tasks.echo" (dumps [JInt pk]) (dumps []) (Some (dumps []))
         None (Some 0) (sha1_hexdigest ("tasks.echo(" ++ decimal pk ++ ")"))
         (Some start) None None executed cancelled (Some 1) (Some (-1)).
Definition the_group : Group.t := Group.mk (Some 1) "R" None (Some start) None.
Definition half_done : Store :=
  mkStore [member 1 (Some (start + 10 * us_per_second)) None;
           member 2 (Some (start + 10 * us_per_second)) None;
           member 3 None None; member 4 None None]
          [] [the_group].
(** The same group with every member cancelled and none executed. *)
Definition all_cancelled : Store :=
  mkStore [member 1 None (Some (start + 10 * us_per_second));
           member 2 None (Some (start + 20 * us_per_second))]
          [] [the_group].
(** The world holding store [s] when the clock has been read [n] times. *)
Definition at_tick (s : Store) (n : nat) : World := mkWorld s [s] false n [].

(** A group with one executed member, and a job that is a member of it. *)
Definition one_done : Store :=
  mkStore [member 1 (Some (start + 10 * us_per_second)) None; member 2 None None]
          [] [the_group].

End Demo.

(* ================================================================== *)
(** ** Vocabulary of the properties *)

(** [Job.save] refuses the job: it has a group, is not yet a member of it,
    and the group has a terminal member. *)
Definition refused (j : Job.t) (s : Store) : bool :=
  match Job.group j with
  | Some g => negb (is_member j g s) && has_terminal_member g s
  | None => false
  end.

(** [j'] is [j] as a save leaves the instance: the identity recomputed, the
    key and [added] possibly assigned, every other field as it was. *)
Definition saved_as (j j' : Job.t) : Prop :=
  j' = Job.set_id (Job.id j')
         (Job.set_added (Job.added j')
            (Job.set_identity (sha1_hexdigest (Job_unicode j)) j)).

(** A call that committed nothing: the database and the committed states
    are as before. *)
Definition nothing_committed (w w' : World) : Prop :=
  db w' = db w /\ committed w' = committed w.

(** A call that committed the failure of job [j], left as [j']: exactly one
    state was committed, and it holds both the new error of the job and the
    row of the job with [started] cleared, its priority one less and a
    [scheduled] time. *)
Definition failure_committed (j j' : Job.t) (w w' : World) : Prop :=
  exists (error : Error.t) (p : Z) (t : datetime),
    committed w' = db w' :: committed w
    /\ errors (db w') = (errors (db w) ++ [error])%list
    /\ Error.job error = Job.id j
    /\ In j' (jobs (db w'))
    /\ Job.started j' = None
    /\ Job.scheduled j' = Some t
    /\ Job.priority j = Some p
    /\ Job.priority j' = Some (p - 1).

(** The delay after the [errors]-th failure:
    [timedelta(seconds=60 * pow(errors, 1.6))]. *)
Definition backoff (pow : float -> float -> float) (errors : Z) : Result timedelta :=
  timedelta_of_seconds
    (PrimFloat.mul (float_of_int 60) (pow (float_of_int errors) one_point_six)).

(** The keyword arguments [Job.execute] passes to the operation: the job's
    own, then [priority] and [fairness]. *)
Definition call_kwargs (non_unicode_kwarg_keys : dict -> dict) (j : Job.t) : dict :=
  dict_set "fairness" (json_of_int (Job.fairness j))
    (dict_set "priority" (json_of_int (Job.priority j))
       (non_unicode_kwarg_keys (loads (Job.kwargs j)))).

(** What a successful save of a job does to the world: the row is stored,
    the other tables are untouched, and the write is committed at once
    unless a transaction block is open. *)
Record job_written (j' : Job.t) (w w' : World) : Prop := {
  row_stored : In j' (jobs (db w'));
  errors_kept : errors (db w') = errors (db w);
  groups_kept : groups (db w') = groups (db w);
  commit_rule :
    committed w' = if managed w then committed w else db w' :: committed w;
  managed_kept : managed w' = managed w;
  stats_kept : stats w' = stats w
}.

(* ================================================================== *)
(** ** Vocabulary of the further properties *)

Section Operations.

Variable clock : nat -> datetime.
Variable pow : float -> float -> float.
Variable repr_exception : Exception -> string.
Variable format_exc : Exception -> string.
Variable Function : Type.
Variable full_name : Function -> string.
Variable object_at_end_of_path : string -> Result Function.
Variable non_unicode_kwarg_keys : dict -> dict.
Variable call : Function -> list json -> dict -> Result json.

(** One call of a method of the models or of a function of the facade,
    taking the world [w] to the world [w'], whatever it returned or raised. *)
Inductive operation : World -> World -> Prop :=
| call_Group_save g w :
    operation w (snd (snd (Group_save clock (g, w))))
| call_Group_on_completion g job w :
    operation w (snd (snd (Group_on_completion clock job (g, w))))
| call_latest_group_by_reference reference w :
    operation w (snd (Group_latest_group_by_reference clock reference w))
| call_Job_save j w :
    operation w (snd (snd (Job_save clock (j, w))))
| call_Job_execute j w :
    operation w
      (snd (snd (Job_execute clock pow repr_exception format_exc Function
                             object_at_end_of_path non_unicode_kwarg_keys call
                             (j, w))))
| call_schedule function args kwargs run_after meta w :
    operation w
      (snd (schedule clock Function full_name function args kwargs run_after
                     meta w))
| call_deschedule function args kwargs w :
    operation w (snd (deschedule clock Function full_name function args kwargs w)).

End Operations.

(** A computation on the world, or a method, takes every world to one that
    [R] relates it to. *)
Definition keeps_world {A : Type} (R : World -> World -> Prop) (m : M World A)
    : Prop :=
  forall w, R w (snd (m w)).

Definition keeps_method {T A : Type} (R : World -> World -> Prop)
    (m : Method T A) : Prop :=
  forall obj w, R w (snd (snd (m (obj, w)))).

(** The error log grew at its end, if at all. *)
Definition errors_appended (w w' : World) : Prop :=
  exists new, errors (db w') = (errors (db w) ++ new)%list.

(** Every stored job carries the digest of its own rendering. *)
Definition identities_match (s : Store) : Prop :=
  forall r, In r (jobs s) -> Job.identity r = sha1_hexdigest (Job_unicode r).

(** Every row of a table has a key, and no two rows share one. *)
Definition keyed {A : Type} (pk : A -> option Z) (rows : list A) : Prop :=
  NoDup (map pk rows) /\ ~ In None (map pk rows).

Definition well_keyed (s : Store) : Prop :=
  keyed Job.id (jobs s) /\ keyed Error.id (errors s) /\ keyed Group.id (groups s).

(** No job and no group was deleted or given another key, and a group
    kept its time of creation. *)
Definition rows_kept (w w' : World) : Prop :=
  (forall k, In k (map Job.id (jobs (db w))) -> In k (map Job.id (jobs (db w'))))
  /\ (forall k, In k (map Group.id (groups (db w)))
                -> In k (map Group.id (groups (db w')))).

(** No transaction block is open and the database is the state committed
    last. *)
Definition settled (w : World) : Prop :=
  managed w = false /\ exists history, committed w = db w :: history.

(** What every call respects: it leaves the block flag as it found it,
    commits nothing inside a block, and outside a block leaves the database
    committed if it found it so. *)
Definition transactional (w w' : World) : Prop :=
  managed w' = managed w
  /\ (managed w = true -> committed w' = committed w)
  /\ (settled w -> settled w').

(** A relation between worlds that looks at the database only. *)
Definition on_db (Q : Store -> Store -> Prop) (w w' : World) : Prop :=
  Q (db w) (db w').

(** What the base [save()] does to a table: the row replaces the row of its
    key, or it is added at the end under a key the table did not hold. *)
Inductive row_written {A : Type} (pk : A -> option Z) (rows : list A) (row : A)
    : list A -> Prop :=
| row_updated :
    existsb (fun r => pk_eqb (pk r) (pk row)) rows = true ->
    pk row <> None ->
    row_written pk rows row (replace_row pk row rows)
| row_inserted (k : Z) :
    pk row = Some k ->
    ~ In (Some k) (map pk rows) ->
    row_written pk rows row (rows ++ [row]).

(** [d.get(k)] *)
Fixpoint dict_get (k : string) (d : dict) : option json :=
  match d with
  | [] => None
  | (k', v) :: r => if String.eqb k' k then Some v else dict_get k r
  end.

(** The [final] column of a group: the key of its final job. *)
Definition final_id (g : Group.t) : option Z :=
  match Group.final g with
  | Some f => Job.id f
  | None => None
  end.

(** Runs of [on_completion]: a group with one pending member, or with one
    executed member, and a job saved outside the group. *)
Module Runs.

Definition outsider : Job.t := Demo.job "tasks.echo" [JInt 9] [] 0 None.

Definition pending_group : World :=
  Demo.at_tick (mkStore [Demo.member 1 None None] [] [Demo.the_group]) 5.
Definition started_group : World := Demo.at_tick Demo.one_done 5.

(** The world after the outsider was saved in [w], and the saved job. *)
Definition with_outsider (w : World) : World :=
  Demo.world_after Demo.Job_save outsider w.
Definition stored_outsider (w : World) : Job.t :=
  Demo.self_after Demo.Job_save outsider w.

End Runs.

(* ================================================================== *)
(** * Properties *)

(** ** Known answers of the embedded library functions *)

Example sha1_abc :
  sha1_hexdigest "abc" = "a9993e364706816aba3e25717850c26c9cd0d89d".
Proof. vm_compute. reflexivity. Qed.

Example sha1_empty :
  sha1_hexdigest "" = "da39a3ee5e6b4b0d3255bfef95601890afd80709".
Proof. vm_compute. reflexivity. Qed.

Example sha1_two_blocks :
  sha1_hexdigest "abcdbcdecdefdefgefghfghighijhijkijkljklmklmnlmnomnopnopq"
  = "84983e441c3bd26ebaae4aa1f95129e5e54670f1".
Proof. vm_compute. reflexivity. Qed.

Example decimal_examples :
  decimal 0 = "0" /\ decimal 42 = "42" /\ decimal (-7) = "-7".
Proof. vm_compute. repeat split. Qed.

Example repr_examples :
  repr (JList [JInt 1; JString "a'b"; JObject [("k", JNull)]; JBool true])
  = "[1, u" ++ str double_quote ++ "a'b" ++ str double_quote
    ++ ", {u'k': None}, True]".
Proof. vm_compute. reflexivity. Qed.

Example timedelta_examples :
  timedelta_of_seconds 60%float = Return (60 * us_per_second)
  /\ timedelta_of_seconds 0.5%float = Return 500000
  /\ timedelta_of_seconds (-1.5)%float = Return (-1500000).
Proof. vm_compute. repeat split. Qed.

(** ** Hexadecimal digests never look like a rendered job *)

Lemma hex_digit_is_hex (n : Z) : is_hex_digit (hex_digit n) = true.
Proof.
  unfold hex_digit.
  destruct (n mod 16) as [|p|p]; try reflexivity.
  repeat match goal with
         | |- context [match ?q with xI _ => _ | xO _ => _ | xH => _ end] =>
             destruct q
         end; reflexivity.
Qed.

Lemma all_hex_of_list (l : list ascii) :
  all_hex (string_of_list_ascii l) = forallb is_hex_digit l.
Proof. induction l as [|c l IH]; simpl; [reflexivity | now rewrite IH]. Qed.

Lemma hex32_all_hex (x : Z) : forallb is_hex_digit (SHA1.hex32 x) = true.
Proof.
  unfold SHA1.hex32. apply forallb_forall. intros c Hc.
  apply in_map_iff in Hc. destruct Hc as [i [<- _]]. apply hex_digit_is_hex.
Qed.

Lemma sha1_hexdigest_all_hex (text : string) : all_hex (sha1_hexdigest text) = true.
Proof.
  unfold sha1_hexdigest, SHA1.hexdigest.
  destruct (SHA1.digest _) as [[[[h0 h1] h2] h3] h4].
  rewrite all_hex_of_list, !forallb_app, !hex32_all_hex. reflexivity.
Qed.

Lemma all_hex_app (a b : string) : all_hex (a ++ b) = all_hex a && all_hex b.
Proof.
  induction a as [|c a IH]; simpl; [reflexivity|].
  rewrite IH. now rewrite andb_assoc.
Qed.

Lemma Job_unicode_not_hex (j : Job.t) : all_hex (Job_unicode j) = false.
Proof.
  unfold Job_unicode. rewrite all_hex_app. simpl.
  apply andb_false_r.
Qed.

(** The digest stored by [Job.save] is never the text [deschedule] looks
    up. *)
Lemma identity_is_not_unicode (text : string) (j : Job.t) :
  String.eqb (sha1_hexdigest text) (Job_unicode j) = false.
Proof.
  apply String.eqb_neq. intros H.
  pose proof (sha1_hexdigest_all_hex text) as Hh.
  rewrite H, Job_unicode_not_hex in Hh. discriminate.
Qed.

(** ** Saving a job *)

Lemma count_filter_pos {A : Type} (p : A -> bool) (l : list A) :
  (0 <? count (filter p l)) = existsb p l.
Proof.
  unfold count. induction l as [|a l IH]; simpl; [reflexivity|].
  destruct (p a); simpl; [|exact IH].
  apply Z.ltb_lt. lia.
Qed.

Lemma In_replace_row {A : Type} (pk : A -> option Z) (row : A) (rows : list A) :
  existsb (fun r => pk_eqb (pk r) (pk row)) rows = true ->
  In row (replace_row pk row rows).
Proof.
  unfold replace_row. induction rows as [|r rows IH]; simpl; [discriminate|].
  destruct (pk_eqb (pk r) (pk row)); simpl; [now left|].
  intros H. right. now apply IH.
Qed.

Section SaveProperties.

Variable clock : nat -> datetime.

Lemma Model_save_Job_writes (j : Job.t) (w : World) :
  exists j' w',
    Model_save_Job clock (j, w) = (Return tt, (j', w'))
    /\ j' = Job.set_id (Job.id j') (Job.set_added (Job.added j') j)
    /\ job_written j' w w'.
Proof.
  unfold Model_save_Job, bind, self, world, query. simpl.
  destruct (negb (isnull (Job.id j))
            && existsb (fun r => pk_eqb (Job.id r) (Job.id j)) (jobs (db w)))
    eqn:Hex; simpl.
  - eexists _, _. split; [reflexivity|]. split; [now destruct j|].
    apply andb_prop in Hex. destruct Hex as [_ Hex].
    constructor; simpl; try reflexivity.
    now apply In_replace_row.
  - destruct (Job.id j) as [i|] eqn:Hid; simpl;
      (eexists _, _; split; [reflexivity|]; split; [now destruct j|];
       constructor; simpl; try reflexivity; apply in_or_app; right; now left).
Qed.

Lemma Job_save_accepts (j : Job.t) (w : World) :
  refused j (db w) = false ->
  exists j' w',
    Job_save clock (j, w) = (Return tt, (j', w'))
    /\ saved_as j j' /\ job_written j' w w'.
Proof.
  intros Hok.
  destruct (Model_save_Job_writes
              (Job.set_identity (sha1_hexdigest (Job_unicode j)) j) w)
    as (j' & w' & Hsave & Hj' & Hw).
  exists j', w'. split; [|split; [exact Hj' | exact Hw]].
  unfold Job_save, refused, is_member, has_terminal_member in *.
  unfold bind at 1. unfold self at 1. simpl.
  destruct (Job.group j) as [g|]; simpl.
  - unfold bind, world, query. simpl.
    destruct (existsb (fun r => pk_eqb (Job.id r) (Job.id j))
                      (group_jobs (Some g) (db w))); simpl.
    + exact Hsave.
    + rewrite count_filter_pos. simpl in Hok. rewrite Hok. simpl. exact Hsave.
  - exact Hsave.
Qed.

Lemma Job_save_refuses (j : Job.t) (w : World) :
  refused j (db w) = true ->
  exists message,
    Job_save clock (j, w) = (Raise (ValidationError message), (j, w)).
Proof.
  unfold Job_save, refused, is_member, has_terminal_member.
  unfold bind at 1. unfold self at 1. simpl.
  destruct (Job.group j) as [g|]; [|discriminate].
  intros H. apply andb_prop in H. destruct H as [Hm Ht].
  apply negb_true_iff in Hm.
  unfold bind, world, query, raise. simpl. rewrite Hm. simpl.
  rewrite count_filter_pos, Ht. simpl.
  eexists. destruct w; reflexivity.
Qed.

End SaveProperties.

(** C6.  A job saved with a group it is not yet a member of is refused with
    a validation failure, and nothing is written, when the group has a
    member that is executed or cancelled; a job that is already a member of
    its group is saved whatever the state of the other members. *)
Theorem Job_save_group_join_rule
    (clock : nat -> datetime) (j : Job.t) (g : Z) (w : World) :
  Job.group j = Some g ->
  (is_member j g (db w) = false ->
   has_terminal_member g (db w) = true ->
   exists message,
     Job_save clock (j, w) = (Raise (ValidationError message), (j, w)))
  /\ (is_member j g (db w) = true ->
      exists j' w',
        Job_save clock (j, w) = (Return tt, (j', w'))
        /\ saved_as j j' /\ job_written j' w w').
Proof.
  intros Hg. split.
  - intros Hm Ht. apply Job_save_refuses.
    unfold refused. now rewrite Hg, Hm, Ht.
  - intros Hm. apply Job_save_accepts.
    unfold refused. now rewrite Hg, Hm.
Qed.

Lemma Job_save_group_join_rule_witness :
  (exists message,
     Demo.Job_save (Demo.job "tasks.echo" [JInt 3] [] 0 (Some 1),
                    Demo.at_tick Demo.one_done 5)
     = (Raise (ValidationError message),
        (Demo.job "tasks.echo" [JInt 3] [] 0 (Some 1),
         Demo.at_tick Demo.one_done 5)))
  /\ (exists j' w',
        Demo.Job_save (Demo.member 2 None None, Demo.at_tick Demo.one_done 5)
        = (Return tt, (j', w'))
        /\ saved_as (Demo.member 2 None None) j'
        /\ job_written j' (Demo.at_tick Demo.one_done 5) w').
Proof.
  split.
  - apply (proj1 (Job_save_group_join_rule Demo.clock
                    (Demo.job "tasks.echo" [JInt 3] [] 0 (Some 1)) 1
                    (Demo.at_tick Demo.one_done 5) eq_refl));
      vm_compute; reflexivity.
  - apply (proj2 (Job_save_group_join_rule Demo.clock
                    (Demo.member 2 None None) 1
                    (Demo.at_tick Demo.one_done 5) eq_refl));
      vm_compute; reflexivity.
Defined.

(** C9.  [health()] changes nothing and returns the number of jobs, the
    number of jobs whose [executed] is null and the number of errors; on an
    empty queue all three are zero. *)
Theorem health_is_a_read_only_count (w : World) :
  health w
  = (Return
       (JObject
          [("queue",
            JObject [("length", JInt (count (jobs (db w))));
                     ("executed",
                      JInt (count (filter (fun j => isnull (Job.executed j))
                                          (jobs (db w)))))]);
           ("errors", JObject [("number", JInt (count (errors (db w))))])]),
     w)
  /\ forall history in_block readings telemetry,
       let empty := mkWorld empty_store history in_block readings telemetry in
       health empty
       = (Return
            (JObject
               [("queue", JObject [("length", JInt 0); ("executed", JInt 0)]);
                ("errors", JObject [("number", JInt 0)])]),
          empty).
Proof. split; reflexivity. Qed.

Lemma In_map_fixed {A : Type} (f : A -> A) (x : A) (l : list A) :
  In x l -> f x = x -> In x (map f l).
Proof. intros Hin Hf. apply in_map_iff. now exists x. Qed.

(** C1.  [Job.save] stores the SHA-1 digest of the rendered job as its
    identity, while [deschedule] looks up the rendered text itself.  The
    job that [schedule] builds for a function and its arguments, saved with
    a priority, is therefore not matched by [deschedule] of the same
    function and arguments: it stays in the table with [executed] null. *)
Theorem deschedule_misses_the_saved_job
    (clock : nat -> datetime) (Function : Type) (full_name : Function -> string)
    (function : Function) (args : option (list json)) (kwargs : option dict)
    (run_after : option datetime) (meta : option dict) (priority : Z)
    (w : World) :
  let scheduled :=
    Job.set_priority (Some priority)
      (Job.new (full_name function) (dumps (or_else args []))
               (dumps (or_else kwargs [])) (Some (dumps (or_else meta [])))
               run_after) in
  exists job w1 w2,
    Job_save clock (scheduled, w) = (Return tt, (job, w1))
    /\ In job (jobs (db w1))
    /\ Job.identity job = sha1_hexdigest (Job_unicode scheduled)
    /\ Job.priority job = Some priority
    /\ Job.executed job = None
    /\ deschedule clock Function full_name function args kwargs w1
       = (Return tt, w2)
    /\ In job (jobs (db w2)).
Proof.
  intros scheduled.
  destruct (Job_save_accepts clock scheduled w eq_refl)
    as (job & w1 & Hsave & Hsaved & Hw).
  exists job, w1. eexists. split; [exact Hsave|].
  split; [apply (row_stored _ _ _ Hw)|].
  split; [now apply (f_equal Job.identity) in Hsaved|].
  split; [now apply (f_equal Job.priority) in Hsaved|].
  split; [now apply (f_equal Job.executed) in Hsaved|].
  split; [reflexivity|].
  simpl. apply In_map_fixed; [apply (row_stored _ _ _ Hw)|].
  apply (f_equal Job.identity) in Hsaved. simpl in Hsaved.
  rewrite Hsaved.
  change (Job_unicode scheduled)
    with (Job_unicode (Job.new (full_name function) (dumps (or_else args []))
                               (dumps (or_else kwargs [])) None None)).
  rewrite identity_is_not_unicode. reflexivity.
Qed.

(** ** Progress of a group *)

Lemma filter_none {A : Type} (p : A -> bool) (l : list A) :
  (forall x, In x l -> p x = false) -> filter p l = [].
Proof.
  induction l as [|a l IH]; simpl; intros H; [reflexivity|].
  rewrite (H a (or_introl eq_refl)). apply IH. intros x Hx. apply H. now right.
Qed.

Lemma filter_all {A : Type} (p : A -> bool) (l : list A) :
  (forall x, In x l -> p x = true) -> filter p l = l.
Proof.
  induction l as [|a l IH]; simpl; intros H; [reflexivity|].
  rewrite (H a (or_introl eq_refl)). f_equal. apply IH. intros x Hx. apply H. now right.
Qed.

(** C10.  When a group has members and all of them are cancelled and none
    executed, [latest_executed_job()] returns nothing and
    [estimate_execution_duration()] fails on reading its [executed] field
    instead of returning a triple. *)
Theorem estimate_fails_when_no_member_was_executed
    (clock : nat -> datetime) (g : Group.t) (w : World) :
  group_jobs (Group.id g) (db w) <> [] ->
  (forall j, In j (group_jobs (Group.id g) (db w)) ->
             Job.executed j = None /\ Job.cancelled j <> None) ->
  Group_latest_executed_job g (db w) = None
  /\ Group_estimate_execution_duration clock g w
     = (Raise (AttributeError "'NoneType' object has no attribute 'executed'"), w).
Proof.
  intros Hne Hall.
  assert (Hlatest : Group_latest_executed_job g (db w) = None).
  { unfold Group_latest_executed_job. rewrite filter_none; [reflexivity|].
    intros j Hj. destruct (Hall j Hj) as [-> _]. reflexivity. }
  split; [exact Hlatest|].
  unfold Group_estimate_execution_duration, bind, query.
  cbv beta iota zeta. rewrite Hlatest.
  unfold Group_has_completed, Count. cbv beta iota zeta.
  cbn [db].
  set (members := group_jobs (Group.id g) (db w)) in *.
  rewrite (filter_none (fun r => negb (isnull (Job.executed r))) members).
  2:{ intros j Hj. destruct (Hall j Hj) as [-> _]. reflexivity. }
  rewrite (filter_all (fun r => negb (isnull (Job.cancelled r))) members).
  2:{ intros j Hj. destruct (Hall j Hj) as [_ Hc].
      destruct (Job.cancelled j); [reflexivity | contradiction]. }
  rewrite (filter_none unexecuted members).
  2:{ intros j Hj. destruct (Hall j Hj) as [_ Hc]. unfold unexecuted.
      destruct (Job.cancelled j); [apply andb_false_r | contradiction]. }
  assert (Hpos : 0 < count members).
  { unfold count. destruct members; [contradiction | simpl; lia]. }
  replace (0 <? count members) with true by (symmetry; apply Z.ltb_lt; exact Hpos).
  replace (count [] + count members =? 0) with false
    by (symmetry; apply Z.eqb_neq; unfold count at 1; simpl; lia).
  reflexivity.
Qed.

Lemma estimate_fails_when_no_member_was_executed_witness :
  Group_latest_executed_job Demo.the_group Demo.all_cancelled = None
  /\ Demo.estimate_execution_duration Demo.the_group
       (Demo.at_tick Demo.all_cancelled 30)
     = (Raise (AttributeError "'NoneType' object has no attribute 'executed'"),
        Demo.at_tick Demo.all_cancelled 30).
Proof.
  apply (estimate_fails_when_no_member_was_executed Demo.clock Demo.the_group
           (Demo.at_tick Demo.all_cancelled 30)).
  - vm_compute. discriminate.
  - intros j Hj. vm_compute in Hj.
    destruct Hj as [<-|[<-|[]]]; (split; [reflexivity | discriminate]).
Defined.

(** C7.  With two of four members executed, the estimate after 100 seconds
    is 200 seconds in all and 100 seconds remaining; after exactly one day
    the code takes the seconds field of the elapsed time, which is 0, so the
    estimate is 0 in all and minus one day remaining, where the elapsed time
    scaled by 4/2 is two days. *)
Theorem estimate_uses_the_seconds_field_only :
  Group_estimate_execution_duration Demo.clock Demo.the_group
    (Demo.at_tick Demo.half_done 100)
  = (Return (Some (200 * us_per_second), Some (100 * us_per_second),
             Some (100 * us_per_second)),
     Demo.at_tick Demo.half_done 101)
  /\ Group_estimate_execution_duration Demo.daily_clock Demo.the_group
       (Demo.at_tick Demo.half_done 1)
     = (Return (Some 0, Some (- (86400 * us_per_second)),
                Some (86400 * us_per_second)),
        Demo.at_tick Demo.half_done 2).
Proof. split; vm_compute; reflexivity. Qed.

(** ** Saving a group *)

(** C5, as amended.  A group is not saved, and nothing is written, when a
    group with another key and the same reference has a member that is
    neither executed nor cancelled. *)
Theorem Group_save_rejects_the_reference_of_an_open_group
    (clock : nat -> datetime) (g other : Group.t) (i : Z) (j : Job.t) (w : World) :
  In other (groups (db w)) ->
  Group.reference other = Group.reference g ->
  Group.id other = Some i ->
  Group.id g <> Some i ->
  In j (jobs (db w)) ->
  Job.group j = Some i ->
  Job.executed j = None ->
  Job.cancelled j = None ->
  Group_save clock (g, w)
  = (Raise (ValidationError ("Group reference [" ++ Group.reference g
                             ++ "] still has unexecuted jobs.")),
     (g, w)).
Proof.
  intros Hother Href Hid Hne Hj Hgroup Hexecuted Hcancelled.
  unfold Group_save, bind, self, world, query, raise. simpl.
  rewrite count_filter_pos.
  replace (existsb _ _) with true; [destruct w; reflexivity|].
  symmetry. apply existsb_exists. exists j. split.
  - apply filter_In. split.
    + apply filter_In. split; [exact Hj|].
      unfold group__reference. rewrite Hgroup.
      apply existsb_exists. exists other. split; [exact Hother|].
      rewrite Hid, Href. simpl. now rewrite Z.eqb_refl, String.eqb_refl.
    + unfold unexecuted. now rewrite Hexecuted, Hcancelled.
  - rewrite Hgroup. destruct (Group.id g) as [k|]; simpl; [|reflexivity].
    apply negb_true_iff, Z.eqb_neq. intros ->. now apply Hne.
Qed.

Lemma Group_save_rejects_the_reference_of_an_open_group_witness :
  Group_save Demo.clock (Group.new "R" None, Demo.two_groups_3)
  = (Raise (ValidationError "Group reference [R] still has unexecuted jobs."),
     (Group.new "R" None, Demo.two_groups_3)).
Proof.
  apply (Group_save_rejects_the_reference_of_an_open_group Demo.clock
           (Group.new "R" None)
           (Group.mk (Some 1) "R" None (Some Demo.start) None) 1
           (Demo.self_after Demo.Job_save
              (Demo.job "tasks.echo" [JInt 1] [] 0 (Some 1)) Demo.two_groups_2)
           Demo.two_groups_3).
  - vm_compute. left. reflexivity.
  - reflexivity.
  - reflexivity.
  - discriminate.
  - vm_compute. left. reflexivity.
  - reflexivity.
  - reflexivity.
  - reflexivity.
Defined.

Lemma two_groups_reachable : Demo.reachable Demo.two_groups_4.
Proof.
  unfold Demo.reachable, Demo.two_groups_4, Demo.two_groups_3,
    Demo.two_groups_2, Demo.two_groups_1, Demo.world_after,
    Demo.Job_save, Demo.Group_save.
  do 2 apply reach_Job_save. do 2 apply reach_Group_save. apply reach_initial.
Qed.

(** C5, the counterexample.  Saving two groups under one reference while
    both are empty, and then a job into each, reaches a store with two
    open groups of that reference. *)
Lemma two_open_groups_share_a_reference :
  ~ (forall w, Demo.reachable w -> one_open_group_per_reference (db w)).
Proof.
  intros H. specialize (H _ two_groups_reachable).
  specialize (H (Group.mk (Some 1) "R" None (Some Demo.start) None)
                (Group.mk (Some 2) "R" None
                          (Some (Demo.start + us_per_second)) None)).
  assert (Some 1 = Some 2) as Heq; [|discriminate Heq].
  apply H.
  - vm_compute. left. reflexivity.
  - vm_compute. right. left. reflexivity.
  - vm_compute. reflexivity.
  - vm_compute. reflexivity.
  - reflexivity.
Qed.

(** ** The identity of a job *)

Lemma Job_save_returns (clock : nat -> datetime) (j j' : Job.t) (w w' : World) :
  Job_save clock (j, w) = (Return tt, (j', w')) ->
  saved_as j j' /\ job_written j' w w'.
Proof.
  intros H. destruct (refused j (db w)) eqn:Hr.
  - destruct (Job_save_refuses clock j w Hr) as [m Hm]. congruence.
  - destruct (Job_save_accepts clock j w Hr) as (j1 & w1 & H1 & Hs & Hw).
    rewrite H1 in H. injection H as <- <-. now split.
Qed.

Lemma Job_unicode_ext (j1 j2 : Job.t) :
  Job.name j1 = Job.name j2 ->
  Job.args j1 = Job.args j2 ->
  Job.kwargs j1 = Job.kwargs j2 ->
  Job_unicode j1 = Job_unicode j2.
Proof. unfold Job_unicode. now intros -> -> ->. Qed.

(** C4, as amended.  The identity a save stores is the SHA-1 digest of the
    rendering of the job's name, positional arguments and keyword arguments
    (the latter in the iteration order of the mapping): two saves of jobs
    that agree on the three store the same identity, whatever their other
    fields, the state of the queue and the clock. *)
Theorem identity_is_a_function_of_name_args_kwargs
    (clock1 clock2 : nat -> datetime) (j1 j2 j1' j2' : Job.t)
    (w1 w2 w1' w2' : World) :
  Job.name j1 = Job.name j2 ->
  Job.args j1 = Job.args j2 ->
  Job.kwargs j1 = Job.kwargs j2 ->
  Job_save clock1 (j1, w1) = (Return tt, (j1', w1')) ->
  Job_save clock2 (j2, w2) = (Return tt, (j2', w2')) ->
  Job.identity j1' = sha1_hexdigest (Job_unicode j1)
  /\ Job.identity j1' = Job.identity j2'.
Proof.
  intros Hn Ha Hk H1 H2.
  apply Job_save_returns in H1. destruct H1 as [H1 _].
  apply Job_save_returns in H2. destruct H2 as [H2 _].
  apply (f_equal Job.identity) in H1. apply (f_equal Job.identity) in H2.
  simpl in H1, H2. rewrite H1, H2.
  split; [reflexivity|]. now rewrite (Job_unicode_ext j1 j2).
Qed.

Lemma identity_is_a_function_of_name_args_kwargs_witness :
  Job.identity Demo.echo_job
  = sha1_hexdigest (Job_unicode (Demo.job "tasks.echo" [JInt 1] [("b", JInt 2)] 5 None))
  /\ Job.identity Demo.echo_job
     = Job.identity
         (Demo.self_after (Job_save Demo.daily_clock)
            (Job.set_scheduled (Some Demo.start)
               (Demo.job "tasks.echo" [JInt 1] [("b", JInt 2)] (-3) None))
            Demo.failing_world).
Proof.
  apply (identity_is_a_function_of_name_args_kwargs Demo.clock Demo.daily_clock
           (Demo.job "tasks.echo" [JInt 1] [("b", JInt 2)] 5 None)
           (Job.set_scheduled (Some Demo.start)
              (Demo.job "tasks.echo" [JInt 1] [("b", JInt 2)] (-3) None))
           Demo.echo_job _ initial_world Demo.failing_world
           Demo.echo_world
           (Demo.world_after (Job_save Demo.daily_clock)
              (Job.set_scheduled (Some Demo.start)
                 (Demo.job "tasks.echo" [JInt 1] [("b", JInt 2)] (-3) None))
              Demo.failing_world));
    vm_compute; reflexivity.
Defined.

(** C4, the counterexample.  One positional argument and one keyword
    argument render as [tasks.echo(1, b=2)], and so does the single
    keyword argument whose key is [1, b]: the two jobs differ in their
    arguments and are stored with the same identity. *)
Lemma distinct_arguments_share_an_identity :
  let j1 := Demo.job "tasks.echo" [JInt 1] [("b", JInt 2)] 0 None in
  let j2 := Demo.job "tasks.echo" [] [("1, b", JInt 2)] 0 None in
  (Job.name j1, Job.args j1, Job.kwargs j1) <> (Job.name j2, Job.args j2, Job.kwargs j2)
  /\ Job_unicode j1 = "tasks.echo(1, b=2)"
  /\ Job_unicode j2 = "tasks.echo(1, b=2)"
  /\ Job.identity (Demo.self_after Demo.Job_save j1 initial_world)
     = Job.identity (Demo.self_after Demo.Job_save j2 initial_world).
Proof.
  cbv zeta. split; [|split; [|split]].
  - intros H. discriminate H.
  - vm_compute. reflexivity.
  - vm_compute. reflexivity.
  - vm_compute. reflexivity.
Qed.

(** The keyword arguments are rendered in the order the mapping yields
    them: the same two items in the other order give another identity. *)
Example identity_follows_the_iteration_order :
  Job.identity (Demo.self_after Demo.Job_save
                  (Demo.job "tasks.echo" [] [("a", JInt 1); ("b", JInt 2)] 0 None)
                  initial_world)
  <> Job.identity (Demo.self_after Demo.Job_save
                     (Demo.job "tasks.echo" [] [("b", JInt 2); ("a", JInt 1)] 0 None)
                     initial_world).
Proof. vm_compute. discriminate. Qed.

(** ** Executing a job *)

Lemma pk_eqb_refl (a : option Z) : pk_eqb a a = true.
Proof. destruct a; simpl; [apply Z.eqb_refl | reflexivity]. Qed.

(** A job that is a row of the table is never refused, whatever was
    assigned to its other fields. *)
Lemma stored_job_is_not_refused (j j1 : Job.t) (s : Store) :
  In j (jobs s) ->
  Job.id j1 = Job.id j ->
  Job.group j1 = Job.group j ->
  refused j1 s = false.
Proof.
  intros Hin Hid Hg. unfold refused. rewrite Hg.
  destruct (Job.group j) as [g|] eqn:Hgroup; [|reflexivity].
  replace (is_member j1 g s) with true; [reflexivity|].
  symmetry. unfold is_member, group_jobs. apply existsb_exists. exists j. split.
  - apply filter_In. split; [exact Hin|]. rewrite Hgroup. apply pk_eqb_refl.
  - rewrite Hid. apply pk_eqb_refl.
Qed.

Lemma stored_job_exists (j j1 : Job.t) (rows : list Job.t) :
  In j rows ->
  Job.id j1 = Job.id j ->
  existsb (fun r => pk_eqb (Job.id r) (Job.id j1)) rows = true.
Proof.
  intros Hin Hid. apply existsb_exists. exists j. split; [exact Hin|].
  rewrite Hid. apply pk_eqb_refl.
Qed.

Section ExecuteProperties.

Variable clock : nat -> datetime.
Variable pow : float -> float -> float.
Variable repr_exception : Exception -> string.
Variable format_exc : Exception -> string.
Variable Function : Type.
Variable object_at_end_of_path : string -> Result Function.
Variable non_unicode_kwarg_keys : dict -> dict.
Variable call : Function -> list json -> dict -> Result json.

(** Saving a job that has its key and its row is an UPDATE of that row. *)
Lemma Job_save_updates (j : Job.t) (i : Z) (w : World) :
  refused j (db w) = false ->
  Job.id j = Some i ->
  existsb (fun r => pk_eqb (Job.id r) (Job.id j)) (jobs (db w)) = true ->
  let j' := Job.set_identity (sha1_hexdigest (Job_unicode j)) j in
  let s' := mkStore (replace_row Job.id j' (jobs (db w)))
                    (errors (db w)) (groups (db w)) in
  Job_save clock (j, w)
  = (Return tt,
     (j', mkWorld s' (if managed w then committed w else s' :: committed w)
                  (managed w) (ticks w) (stats w))).
Proof.
  intros Hok Hid Hex. cbv zeta.
  unfold Job_save, refused, is_member, has_terminal_member in *.
  unfold bind at 1. unfold self at 1. cbn [fst snd].
  assert (Hsave :
    Model_save_Job clock
      (Job.set_identity (sha1_hexdigest (Job_unicode j)) j, w)
    = (Return tt,
       (Job.set_identity (sha1_hexdigest (Job_unicode j)) j,
        mkWorld (mkStore (replace_row Job.id
                            (Job.set_identity (sha1_hexdigest (Job_unicode j)) j)
                            (jobs (db w)))
                         (errors (db w)) (groups (db w)))
                (if managed w then committed w
                 else mkStore (replace_row Job.id
                            (Job.set_identity (sha1_hexdigest (Job_unicode j)) j)
                            (jobs (db w)))
                         (errors (db w)) (groups (db w)) :: committed w)
                (managed w) (ticks w) (stats w)))).
  { unfold Model_save_Job, bind, self, world, query. simpl.
    rewrite Hid in *. simpl. simpl in Hex. rewrite Hex. reflexivity. }
  destruct (Job.group j) as [g|]; simpl.
  - unfold bind, world, query. simpl.
    destruct (existsb (fun r => pk_eqb (Job.id r) (Job.id j))
                      (group_jobs (Some g) (db w))); simpl.
    + exact Hsave.
    + rewrite count_filter_pos. simpl in Hok. rewrite Hok. simpl. exact Hsave.
  - exact Hsave.
Qed.


(** C8.  When the operation of a stored job returns [V], [execute()]
    returns [V] and leaves the job with [started] and [executed] set to
    the two clock readings and [result] to the serialized [V]; the row is
    written, the errors are untouched, and the one state committed holds
    all three fields. *)
Theorem execute_commits_a_successful_run
    (j : Job.t) (i : Z) (w : World) (function : Function) (V : json) :
  In j (jobs (db w)) ->
  Job.id j = Some i ->
  managed w = false ->
  object_at_end_of_path (Job.name j) = Return function ->
  call function (loads (Job.args j)) (call_kwargs non_unicode_kwarg_keys j)
  = Return V ->
  exists j' w',
    Job_execute clock pow repr_exception format_exc Function
                object_at_end_of_path non_unicode_kwarg_keys call (j, w)
    = (Return V, (j', w'))
    /\ Job.started j' = Some (clock (ticks w))
    /\ Job.executed j' = Some (clock (S (ticks w)))
    /\ Job.result j' = Some (dumps V)
    /\ Job.id j' = Job.id j
    /\ In j' (jobs (db w'))
    /\ errors (db w') = errors (db w)
    /\ count (job_errors j' (db w')) = count (job_errors j (db w))
    /\ committed w' = db w' :: committed w.
Proof.
  intros Hin Hid Hmanaged Hresolve Hcall.
  destruct w as [s history m t telemetry]. simpl in Hin, Hmanaged. subst m.
  unfold Job_execute, try_except.
  unfold bind at 1. unfold self at 1. cbn [fst snd].
  unfold bind at 1. unfold lift at 1. rewrite Hresolve.
  unfold commit_on_success, execute_transaction.
  unfold call_kwargs in Hcall.
  cbn [bind world now setattr lift fst snd db committed managed ticks stats].
  rewrite Hcall. cbv beta iota delta [bind].
  erewrite Job_save_updates;
    [ | eapply stored_job_is_not_refused; [exact Hin | reflexivity | reflexivity]
      | exact Hid
      | eapply stored_job_exists; [exact Hin | reflexivity] ].
  cbn [bind world _stats ret fst snd db committed managed ticks stats].
  eexists _, _. split; [reflexivity|].
  cbn [db committed jobs errors ticks].
  repeat split.
  apply In_replace_row. eapply stored_job_exists; [exact Hin | reflexivity].
Qed.

(** C2.  When the operation of a stored job raises [E], [execute()]
    raises [E] again and leaves the job, in memory and in its row, with
    [started] null, [priority] one less, and [scheduled] at the clock
    reading plus [timedelta(seconds=60 * pow(errors, 1.6))], where
    [errors] is one more than the errors recorded for the job before; one
    error is appended, holding [repr(E)] and the traceback. *)
Theorem execute_reschedules_a_failed_run
    (j : Job.t) (i p : Z) (w : World) (function : Function) (E : Exception)
    (delay : timedelta) :
  In j (jobs (db w)) ->
  Job.id j = Some i ->
  Job.priority j = Some p ->
  object_at_end_of_path (Job.name j) = Return function ->
  call function (loads (Job.args j)) (call_kwargs non_unicode_kwarg_keys j)
  = Raise E ->
  backoff pow (1 + count (job_errors j (db w))) = Return delay ->
  exists j' w' error,
    Job_execute clock pow repr_exception format_exc Function
                object_at_end_of_path non_unicode_kwarg_keys call (j, w)
    = (Raise E, (j', w'))
    /\ Job.started j' = None
    /\ Job.priority j' = Some (p - 1)
    /\ Job.scheduled j' = Some (clock (S (ticks w)) + delay)
    /\ Job.id j' = Job.id j
    /\ In j' (jobs (db w'))
    /\ errors (db w') = (errors (db w) ++ [error])%list
    /\ Error.job error = Job.id j
    /\ Error.exception error = repr_exception E
    /\ Error.traceback error = format_exc E.
Proof.
  intros Hin Hid Hpriority Hresolve Hcall Hdelay.
  destruct w as [s history m t telemetry]. simpl in Hin. cbn [db] in Hdelay.
  unfold Job_execute, try_except.
  unfold bind at 1. unfold self at 1. cbn [fst snd].
  unfold bind at 1. unfold lift at 1. rewrite Hresolve.
  unfold commit_on_success at 1. unfold execute_transaction.
  unfold call_kwargs in Hcall. unfold backoff in Hdelay.
  cbn [bind world now setattr lift fst snd db committed managed ticks stats].
  rewrite Hcall. cbv beta iota.
  unfold execute_except, commit_on_success, record, Error_objects_create.
  cbn [bind world now setattr lift query self fst snd db committed managed ticks
       stats].
  replace (job_errors (Job.set_started None (Job.set_started (Some (clock t)) j)) s)
    with (job_errors j s) by reflexivity.
  rewrite Hdelay. cbv beta iota.
  replace (Job.priority (Job.set_started None (Job.set_started (Some (clock t)) j)))
    with (Job.priority j) by reflexivity.
  rewrite Hpriority.
  cbv beta iota delta [bind ret write world query now setattr self lift].
  cbn [fst snd db committed managed ticks stats jobs errors groups].
  cbn [Job.id Job.set_priority Job.set_scheduled Job.set_started]. rewrite Hid.
  cbv beta iota delta [bind ret write world query now setattr self lift].
  cbn [fst snd db committed managed ticks stats jobs errors groups].
  erewrite Job_save_updates;
    [ | eapply stored_job_is_not_refused; [exact Hin | reflexivity | reflexivity]
      | exact Hid
      | eapply stored_job_exists; [exact Hin | reflexivity] ].
  cbn [_stats raise fst snd db committed managed ticks stats jobs errors groups].
  eexists _, _, _. split; [reflexivity|].
  cbn [db committed jobs errors ticks].
  repeat split; try exact Hid.
  apply In_replace_row. eapply stored_job_exists; [exact Hin | reflexivity].
Qed.

Lemma Job_save_cases (j j' : Job.t) (w w' : World) (r : Result unit) :
  Job_save clock (j, w) = (r, (j', w')) ->
  (exists message, r = Raise (ValidationError message) /\ j' = j /\ w' = w)
  \/ (r = Return tt /\ saved_as j j' /\ job_written j' w w').
Proof.
  intros H. destruct (refused j (db w)) eqn:Hr.
  - destruct (Job_save_refuses clock j w Hr) as [m Hm].
    rewrite Hm in H. injection H as <- <- <-. left. now exists m.
  - destruct (Job_save_accepts clock j w Hr) as (j1 & w1 & H1 & Hs & Hw).
    rewrite H1 in H. injection H as <- <- <-. right.
    split; [reflexivity | split; assumption].
Qed.

(** Inside a transaction block the inner [execute()] commits nothing, and
    when it raises the job keeps its key and its priority. *)
Lemma execute_transaction_in_block
    (command : string) (function : Function) (args : list json) (kwargs : dict)
    (j j' : Job.t) (w w' : World) (r : Result json) :
  managed w = true ->
  execute_transaction clock Function call command function args kwargs (j, w)
  = (r, (j', w')) ->
  committed w' = committed w
  /\ forall e, r = Raise e ->
               Job.id j' = Job.id j /\ Job.priority j' = Job.priority j.
Proof.
  intros Hm. destruct w as [s history m t telemetry]. simpl in Hm. subst m.
  unfold execute_transaction.
  cbv beta iota delta [bind world now setattr lift].
  cbn [fst snd db committed managed ticks stats].
  destruct (call function args kwargs) as [v|e0].
  - cbv beta iota.
    match goal with
    | |- context [Job_save clock (?x, ?y)] =>
        destruct (Job_save clock (x, y)) as [r1 [j1 w1]] eqn:Hsave
    end.
    apply Job_save_cases in Hsave.
    destruct Hsave as [(msg & -> & -> & ->) | (-> & Hs & Hw)].
    + intros H. injection H as <- <- <-. split; [reflexivity|].
      intros e _. split; reflexivity.
    + cbn [_stats ret fst snd]. intros H. injection H as <- <- <-.
      split; [|intros e He; discriminate He].
      cbn [committed]. rewrite (commit_rule _ _ _ Hw). reflexivity.
  - intros H. injection H as <- <- <-. split; [reflexivity|].
    intros e _. split; reflexivity.
Qed.

(** The inner [record()] inside its transaction block: either it raises,
    or it has appended the error and stored the job; it commits nothing
    by itself. *)
Lemma record_in_block (exception : Exception) (j j' : Job.t) (w w' : World)
    (r : Result unit) :
  managed w = true ->
  record clock repr_exception format_exc exception (j, w) = (r, (j', w')) ->
  committed w' = committed w
  /\ (r = Return tt ->
      saved_as j j'
      /\ In j' (jobs (db w'))
      /\ exists error,
           errors (db w') = (errors (db w) ++ [error])%list
           /\ Error.job error = Job.id j).
Proof.
  intros Hm. destruct w as [s history m t telemetry]. simpl in Hm. subst m.
  unfold record, Error_objects_create.
  cbv beta iota delta [bind world now setattr lift query self write ret raise].
  cbn [fst snd db committed managed ticks stats jobs errors groups].
  destruct (Job.id j) as [i|] eqn:Hid.
  2:{ intros H. injection H as <- <- <-. split; [reflexivity|].
      intros He. discriminate He. }
  cbv beta iota.
  cbn [fst snd db committed managed ticks stats jobs errors groups].
  match goal with
  | |- context [Job_save clock (?x, ?y)] =>
      destruct (Job_save clock (x, y)) as [r1 [j1 w1]] eqn:Hsave
  end.
  apply Job_save_cases in Hsave.
  destruct Hsave as [(msg & -> & -> & ->) | (-> & Hs & Hw)].
  - intros H. injection H as <- <- <-. split; [reflexivity|].
    intros He. discriminate He.
  - intros H. injection H as <- <- <-. split.
    + rewrite (commit_rule _ _ _ Hw). reflexivity.
    + intros _. split; [exact Hs|]. split; [apply (row_stored _ _ _ Hw)|].
      eexists. split; [rewrite (errors_kept _ _ _ Hw); reflexivity | reflexivity].
Qed.

(** The [except] block always raises, and commits either nothing or the
    whole failure. *)
Lemma execute_except_cases (command : string) (exception : Exception)
    (j j' : Job.t) (w w' : World) (r : Result json) :
  managed w = false ->
  execute_except clock pow repr_exception format_exc command exception (j, w)
  = (r, (j', w')) ->
  (exists e, r = Raise e)
  /\ (nothing_committed w w' \/ failure_committed j j' w w').
Proof.
  intros Hm. destruct w as [s history m t telemetry]. simpl in Hm. subst m.
  unfold execute_except.
  cbv beta iota delta [bind world now setattr lift query self].
  cbn [fst snd db committed managed ticks stats].
  destruct (timedelta_of_seconds _) as [delay|e0].
  2:{ intros H. injection H as <- <- <-.
      split; [now eexists | left; split; reflexivity]. }
  cbv beta iota.
  replace (Job.priority (Job.set_started None j)) with (Job.priority j)
    by reflexivity.
  destruct (Job.priority j) as [p|] eqn:Hp.
  2:{ cbv beta iota delta [raise]. intros H. injection H as <- <- <-.
      split; [now eexists | left; split; reflexivity]. }
  cbv beta iota delta [ret]. unfold commit_on_success.
  cbn [fst snd db committed managed ticks stats].
  match goal with
  | |- context [record _ _ _ _ (?x, ?y)] =>
      destruct (record clock repr_exception format_exc exception (x, y))
        as [r1 [j1 w1]] eqn:Hrecord
  end.
  apply record_in_block in Hrecord; [|reflexivity].
  destruct Hrecord as [Hcommitted Hreturn].
  cbn [committed db] in Hcommitted, Hreturn.
  destruct r1 as [[]|e1].
  - cbn [_stats raise fst snd]. intros H. injection H as <- <- <-.
    split; [now eexists|]. right.
    destruct (Hreturn eq_refl) as (Hsaved & Hin & error & Herrors & Hjob).
    exists error, p. eexists.
    cbn [db committed]. rewrite Hcommitted.
    split; [reflexivity|]. split; [exact Herrors|]. split; [exact Hjob|].
    split; [exact Hin|].
    split; [now apply (f_equal Job.started) in Hsaved|].
    split; [apply (f_equal Job.scheduled) in Hsaved; exact Hsaved|].
    split; [exact Hp|].
    now apply (f_equal Job.priority) in Hsaved.
  - intros H. injection H as <- <- <-.
    split; [now eexists|]. left. split; [reflexivity | exact Hcommitted].
Qed.

(** C3.  Whenever [execute()] raises, called outside a transaction block,
    it has committed either nothing at all, or exactly one state that
    holds together the new error of the job and the row of the job with
    [started] cleared, [scheduled] set and the priority one less: no
    committed state has the rescheduled job without its error. *)
Theorem execute_records_a_failure_atomically
    (j j' : Job.t) (w w' : World) (e : Exception) :
  managed w = false ->
  Job_execute clock pow repr_exception format_exc Function
              object_at_end_of_path non_unicode_kwarg_keys call (j, w)
  = (Raise e, (j', w')) ->
  nothing_committed w w' \/ failure_committed j j' w w'.
Proof.
  intros Hm. destruct w as [s history m t telemetry]. simpl in Hm. subst m.
  unfold Job_execute, try_except.
  unfold bind at 1. unfold self at 1. cbn [fst snd].
  unfold bind at 1. unfold lift at 1.
  destruct (object_at_end_of_path (Job.name j)) as [function|e0].
  - unfold commit_on_success.
    cbn [fst snd db committed managed ticks stats].
    match goal with
    | |- context [execute_transaction _ _ _ ?c ?f ?a ?k (?x, ?y)] =>
        destruct (execute_transaction clock Function call c f a k (x, y))
          as [r1 [j1 w1]] eqn:Hbody
    end.
    apply execute_transaction_in_block in Hbody; [|reflexivity].
    destruct Hbody as [Hcommitted Hraise]. cbn [committed] in Hcommitted.
    destruct r1 as [v|e1]; [intros H; discriminate H|].
    destruct (Hraise e1 eq_refl) as [Hid Hpriority].
    intros H. apply execute_except_cases in H; [|reflexivity].
    destruct H as [_ [[Hdb Hc] | H]].
    + left. split; [exact Hdb|]. cbn [committed] in *. now rewrite Hc.
    + right. destruct H as (error & p & t' & Hc & Herr & Hjob & Hin & Hs & Hsch & Hp & Hp').
      exists error, p, t'. cbn [db committed] in *.
      rewrite Hc, Hcommitted, Herr, Hjob, Hid, <- Hpriority, Hp.
      repeat split; assumption.
  - intros H. apply execute_except_cases in H; [|reflexivity].
    destruct H as [_ H]. exact H.
Qed.

End ExecuteProperties.

Lemma execute_commits_a_successful_run_witness :
  exists j' w',
    Demo.Job_execute (Demo.echo_job, Demo.echo_world)
    = (Return (JList [JInt 1]), (j', w'))
    /\ Job.started j' = Some (Demo.clock (ticks Demo.echo_world))
    /\ Job.executed j' = Some (Demo.clock (S (ticks Demo.echo_world)))
    /\ Job.result j' = Some (dumps (JList [JInt 1]))
    /\ Job.id j' = Job.id Demo.echo_job
    /\ In j' (jobs (db w'))
    /\ errors (db w') = errors (db Demo.echo_world)
    /\ count (job_errors j' (db w'))
       = count (job_errors Demo.echo_job (db Demo.echo_world))
    /\ committed w' = db w' :: committed Demo.echo_world.
Proof.
  apply (execute_commits_a_successful_run Demo.clock Demo.pow
           Demo.repr_exception Demo.format_exc Demo.Function
           Demo.object_at_end_of_path Demo.non_unicode_kwarg_keys Demo.call
           Demo.echo_job 1 Demo.echo_world "tasks.echo" (JList [JInt 1])).
  - vm_compute. left. reflexivity.
  - reflexivity.
  - reflexivity.
  - reflexivity.
  - reflexivity.
Defined.

Lemma execute_reschedules_a_failed_run_witness :
  exists j' w' error,
    Demo.Job_execute (Demo.failing_job, Demo.failing_world)
    = (Raise (PyException "ValueError" "boom"), (j', w'))
    /\ Job.started j' = None
    /\ Job.priority j' = Some (5 - 1)
    /\ Job.scheduled j'
       = Some (Demo.clock (S (ticks Demo.failing_world)) + 60 * us_per_second)
    /\ Job.id j' = Job.id Demo.failing_job
    /\ In j' (jobs (db w'))
    /\ errors (db w') = (errors (db Demo.failing_world) ++ [error])%list
    /\ Error.job error = Job.id Demo.failing_job
    /\ Error.exception error
       = Demo.repr_exception (PyException "ValueError" "boom")
    /\ Error.traceback error
       = Demo.format_exc (PyException "ValueError" "boom").
Proof.
  apply (execute_reschedules_a_failed_run Demo.clock Demo.pow
           Demo.repr_exception Demo.format_exc Demo.Function
           Demo.object_at_end_of_path Demo.non_unicode_kwarg_keys Demo.call
           Demo.failing_job 1 5 Demo.failing_world "tasks.fail"
           (PyException "ValueError" "boom") (60 * us_per_second)).
  - vm_compute. left. reflexivity.
  - reflexivity.
  - reflexivity.
  - reflexivity.
  - reflexivity.
  - vm_compute. reflexivity.
Defined.

Lemma execute_records_a_failure_atomically_witness :
  nothing_committed Demo.failing_world
    (Demo.world_after Demo.Job_execute Demo.failing_job Demo.failing_world)
  \/ failure_committed Demo.failing_job
       (Demo.self_after Demo.Job_execute Demo.failing_job Demo.failing_world)
       Demo.failing_world
       (Demo.world_after Demo.Job_execute Demo.failing_job Demo.failing_world).
Proof.
  apply (execute_records_a_failure_atomically Demo.clock Demo.pow
           Demo.repr_exception Demo.format_exc Demo.Function
           Demo.object_at_end_of_path Demo.non_unicode_kwarg_keys Demo.call
           Demo.failing_job _ Demo.failing_world _
           (PyException "ValueError" "boom")).
  - reflexivity.
  - vm_compute. reflexivity.
Defined.

(** The run above commits the failure: the job and its error together. *)
Example the_failed_run_commits_job_and_error :
  let w' := Demo.world_after Demo.Job_execute Demo.failing_job Demo.failing_world in
  committed w' = db w' :: committed Demo.failing_world
  /\ count (errors (db w')) = 1
  /\ map Job.priority (jobs (db w')) = [Some 4]
  /\ map Job.started (jobs (db w')) = [None]
  /\ map Job.scheduled (jobs (db w'))
     = [Some (Demo.start + 2 * us_per_second + 60 * us_per_second)].
Proof. vm_compute. repeat split. Qed.

(** A job with a key that is not a member of its group, whose group has an
    executed member: its operation fails, the save inside [record()] is
    refused, and the error row written before it is rolled back with it. *)
Example a_refused_save_rolls_the_error_back :
  let j := Job.set_id (Some 9) (Demo.job "tasks.fail" [] [] 5 (Some 1)) in
  let w := Demo.at_tick Demo.one_done 7 in
  exists message,
    fst (Demo.Job_execute (j, w)) = Raise (ValidationError message)
    /\ nothing_committed w (Demo.world_after Demo.Job_execute j w).
Proof. cbv zeta. eexists. vm_compute. repeat split. Qed.

(** The run behind C1: the job of [tasks.fail] saved with priority 5 on the
    empty queue, then [deschedule(tasks.fail)]; the job is still pending. *)
Example the_descheduled_job_is_still_pending :
  let w1 := Demo.failing_world in
  let w2 := snd (Demo.deschedule "tasks.fail" None None w1) in
  map Job.identity (jobs (db w1)) = [sha1_hexdigest "tasks.fail()"]
  /\ map Job.executed (jobs (db w2)) = [None]
  /\ jobs (db w2) = jobs (db w1).
Proof. vm_compute. repeat split. Qed.

(* ================================================================== *)
(** * Further properties of the code *)

(** ** Completion and progress of a group *)

Lemma terminal_iff (j : Job.t) :
  terminal j = true <-> Job.executed j <> None \/ Job.cancelled j <> None.
Proof.
  unfold terminal. destruct (Job.executed j), (Job.cancelled j); simpl; split;
    intros H; try reflexivity; try discriminate;
    try (left; discriminate); try (right; discriminate).
  destruct H as [H|H]; now elim H.
Qed.

Lemma unexecuted_terminal (j : Job.t) : unexecuted j = negb (terminal j).
Proof.
  unfold unexecuted, terminal.
  now destruct (Job.executed j), (Job.cancelled j).
Qed.

Lemma count_zero_iff {A : Type} (l : list A) : (count l =? 0) = true <-> l = [].
Proof.
  unfold count. destruct l; simpl; split; intros H; try reflexivity;
    try discriminate.
Qed.

Lemma count_pos_iff {A : Type} (l : list A) : (0 <? count l) = true <-> l <> [].
Proof.
  unfold count. destruct l; simpl; split; intros H; try discriminate;
    try contradiction; try reflexivity.
Qed.

Lemma filter_nil_iff {A : Type} (p : A -> bool) (l : list A) :
  filter p l = [] <-> forall x, In x l -> p x = false.
Proof.
  split; [|apply filter_none].
  intros H x Hx. destruct (p x) eqn:Hp; [|reflexivity].
  assert (In x (filter p l)) as Hin by (apply filter_In; now split).
  rewrite H in Hin. contradiction.
Qed.

Lemma Group_has_completed_spec (g : Group.t) (exclude : option Job.t) (s : Store) :
  Group_has_completed g exclude s = true
  <-> group_jobs (Group.id g) s <> []
      /\ forall j, In j (group_jobs (Group.id g) s) ->
                   match exclude with
                   | Some x => pk_eqb (Job.id j) (Job.id x) = true
                   | None => False
                   end
                   \/ Job.executed j <> None \/ Job.cancelled j <> None.
Proof.
  unfold Group_has_completed.
  rewrite andb_true_iff, count_pos_iff, count_zero_iff, filter_nil_iff.
  apply and_iff_compat_l.
  destruct exclude as [x|].
  - split; intros H j Hj.
    + destruct (pk_eqb (Job.id j) (Job.id x)) eqn:Hpk; [now left | right].
      apply terminal_iff.
      assert (unexecuted j = false) as Hu.
      { apply H. apply filter_In. split; [exact Hj | now rewrite Hpk]. }
      rewrite unexecuted_terminal in Hu. now apply negb_false_iff in Hu.
    + apply filter_In in Hj. destruct Hj as [Hj Hpk].
      apply negb_true_iff in Hpk.
      destruct (H j Hj) as [Heq | Ht]; [congruence|].
      apply terminal_iff in Ht. rewrite unexecuted_terminal, Ht. reflexivity.
  - split; intros H j Hj.
    + right. apply terminal_iff. specialize (H j Hj).
      rewrite unexecuted_terminal in H. now apply negb_false_iff in H.
    + destruct (H j Hj) as [[] | Ht].
      apply terminal_iff in Ht. rewrite unexecuted_terminal, Ht. reflexivity.
Qed.

Lemma latest_spec {A : Type} (field : A -> option datetime) (rows : list A) :
  rows <> [] ->
  (forall r, In r rows -> field r <> None) ->
  exists r a,
    latest field rows = Some r /\ In r rows /\ field r = Some a
    /\ forall r' b, In r' rows -> field r' = Some b -> b <= a.
Proof.
  induction rows as [|x rows IH]; [contradiction|].
  intros _ Hall. simpl.
  destruct rows as [|y rows'].
  - simpl. destruct (field x) as [a|] eqn:Hx.
    + exists x, a. repeat split; [now left | exact Hx |].
      intros r' b [<-|[]] Hb. rewrite Hx in Hb. injection Hb as <-. lia.
    + exfalso. apply (Hall x); [now left | exact Hx].
  - destruct IH as (r & a & Hl & Hin & Hr & Hmax); [discriminate | |].
    { intros r Hr. apply Hall. now right. }
    rewrite Hl, Hr.
    destruct (field x) as [ax|] eqn:Hx.
    2:{ exfalso. apply (Hall x); [now left | exact Hx]. }
    destruct (a <=? ax) eqn:Hle.
    + apply Z.leb_le in Hle. exists x, ax.
      repeat split; [now left | exact Hx |].
      intros r' b [<-|Hr'] Hb.
      * rewrite Hx in Hb. injection Hb as <-. lia.
      * specialize (Hmax r' b Hr' Hb). lia.
    + apply Z.leb_gt in Hle. exists r, a.
      repeat split; [now right | exact Hr |].
      intros r' b [<-|Hr'] Hb.
      * rewrite Hx in Hb. injection Hb as <-. lia.
      * exact (Hmax r' b Hr' Hb).
Qed.

Lemma Group_latest_executed_job_spec (g : Group.t) (s : Store) :
  (Group_latest_executed_job g s = None
   <-> forall j, In j (group_jobs (Group.id g) s) -> Job.executed j = None)
  /\ forall j, Group_latest_executed_job g s = Some j ->
       In j (group_jobs (Group.id g) s)
       /\ exists t, Job.executed j = Some t
            /\ forall j' t', In j' (group_jobs (Group.id g) s) ->
                             Job.executed j' = Some t' -> t' <= t.
Proof.
  unfold Group_latest_executed_job.
  set (members := group_jobs (Group.id g) s).
  set (done := filter (fun j => negb (isnull (Job.executed j))) members).
  assert (Hdone : forall j, In j done <-> In j members /\ Job.executed j <> None).
  { intros j. unfold done. rewrite filter_In.
    apply and_iff_compat_l. destruct (Job.executed j); simpl; split;
      intros H; try reflexivity; try discriminate; contradiction. }
  destruct done as [|d done'] eqn:Hd.
  - simpl. split.
    + split; [|reflexivity]. intros _ j Hj.
      destruct (Job.executed j) eqn:He; [|reflexivity].
      exfalso. apply (proj2 (Hdone j)). split; [exact Hj | congruence].
    + intros j H. discriminate H.
  - replace (count (d :: done') =? 0) with false
      by (symmetry; apply Z.eqb_neq; unfold count; simpl; lia).
    destruct (latest_spec Job.executed (d :: done')) as (r & a & Hl & Hin & Hr & Hmax).
    { discriminate. }
    { intros r Hr. apply (Hdone r). exact Hr. }
    rewrite Hl. split.
    + split; [discriminate|]. intros H. exfalso.
      apply Hdone in Hin. destruct Hin as [Hin Hne]. apply Hne, H, Hin.
    + intros j Hj. injection Hj as <-.
      split; [apply Hdone; exact Hin|].
      exists a. split; [exact Hr|].
      intros j' t' Hj' Ht'. apply (Hmax j' t'); [|exact Ht'].
      apply Hdone. split; [exact Hj' | congruence].
Qed.

(** [has_completed(exclude)] holds exactly when the group has a member and
    every member other than the excluded job is executed or cancelled; the
    excluded job still counts as a member. *)
Theorem has_completed_iff (g : Group.t) (exclude : option Job.t) (s : Store) :
  Group_has_completed g exclude s = true
  <-> group_jobs (Group.id g) s <> []
      /\ forall j, In j (group_jobs (Group.id g) s) ->
                   match exclude with
                   | Some x => pk_eqb (Job.id j) (Job.id x) = true
                   | None => False
                   end
                   \/ Job.executed j <> None \/ Job.cancelled j <> None.
Proof. apply Group_has_completed_spec. Qed.

(** [latest_executed_job()] returns nothing exactly when no member of the
    group was executed; otherwise it returns a member whose [executed] time
    is the greatest among the members. *)
Theorem latest_executed_job_is_the_latest (g : Group.t) (s : Store) :
  (Group_latest_executed_job g s = None
   <-> forall j, In j (group_jobs (Group.id g) s) -> Job.executed j = None)
  /\ forall j, Group_latest_executed_job g s = Some j ->
       In j (group_jobs (Group.id g) s)
       /\ exists t, Job.executed j = Some t
            /\ forall j' t', In j' (group_jobs (Group.id g) s) ->
                             Job.executed j' = Some t' -> t' <= t.
Proof. apply Group_latest_executed_job_spec. Qed.

(** [estimate_execution_duration()] returns three [None]s, reads no clock
    and changes nothing when the group has no member, or when none of its
    members is executed or cancelled. *)
Theorem estimate_is_unknown_without_progress
    (clock : nat -> datetime) (g : Group.t) (w : World) :
  (group_jobs (Group.id g) (db w) = []
   \/ forall j, In j (group_jobs (Group.id g) (db w)) ->
                Job.executed j = None /\ Job.cancelled j = None) ->
  Group_estimate_execution_duration clock g w = (Return (None, None, None), w).
Proof.
  intros H.
  unfold Group_estimate_execution_duration, bind, query, ret.
  cbv beta iota zeta. cbn [db].
  set (members := group_jobs (Group.id g) (db w)) in *.
  destruct H as [H|H].
  - rewrite H. reflexivity.
  - unfold Count.
    rewrite (filter_none (fun r => negb (isnull (Job.executed r))) members).
    2:{ intros j Hj. destruct (H j Hj) as [-> _]. reflexivity. }
    rewrite (filter_none (fun r => negb (isnull (Job.cancelled r))) members).
    2:{ intros j Hj. destruct (H j Hj) as [_ ->]. reflexivity. }
    destruct (0 <? count members); reflexivity.
Qed.

Lemma estimate_is_unknown_without_progress_witness :
  Group_estimate_execution_duration Demo.clock Demo.the_group
    (Demo.at_tick (mkStore [Demo.member 1 None None; Demo.member 2 None None]
                           [] [Demo.the_group]) 9)
  = (Return (None, None, None),
     Demo.at_tick (mkStore [Demo.member 1 None None; Demo.member 2 None None]
                           [] [Demo.the_group]) 9).
Proof.
  apply (estimate_is_unknown_without_progress Demo.clock Demo.the_group).
  right. intros j Hj. vm_compute in Hj.
  destruct Hj as [<-|[<-|[]]]; split; reflexivity.
Defined.

Lemma Count_filter_all {A B : Type} (column : A -> option B) (rows : list A) :
  0 <= Count column rows.
Proof. unfold Count, count. lia. Qed.

(** Once every member of a group is executed or cancelled, and one at least
    is executed, [estimate_execution_duration()] returns the time from the
    creation of the group to the latest execution as the total and as the
    time consumed, and 0 as the remaining time; it reads no clock. *)
Theorem estimate_of_a_completed_group
    (clock : nat -> datetime) (g : Group.t) (w : World) (j : Job.t)
    (created executed : datetime) :
  (forall r, In r (group_jobs (Group.id g) (db w)) ->
             Job.executed r <> None \/ Job.cancelled r <> None) ->
  In j (group_jobs (Group.id g) (db w)) ->
  Job.executed j = Some executed ->
  (forall r t, In r (group_jobs (Group.id g) (db w)) ->
               Job.executed r = Some t -> t <= executed) ->
  Group.created g = Some created ->
  Group_estimate_execution_duration clock g w
  = (Return (Some (executed - created), Some 0, Some (executed - created)), w).
Proof.
  intros Hall Hj He Hmax Hc.
  assert (Hcompleted : Group_has_completed g None (db w) = true).
  { apply Group_has_completed_spec. split.
    - intros Hnil. rewrite Hnil in Hj. contradiction.
    - intros r Hr. right. now apply Hall. }
  destruct (Group_latest_executed_job g (db w)) as [l|] eqn:Hl.
  2:{ pose proof (proj1 (proj1 (Group_latest_executed_job_spec g (db w))) Hl j Hj)
        as Hnone.
      rewrite Hnone in He. discriminate. }
  destruct (proj2 (Group_latest_executed_job_spec g (db w)) l Hl)
    as (Hlin & t & Ht & Htmax).
  assert (t = executed) as ->.
  { specialize (Htmax j executed Hj He). specialize (Hmax l t Hlin Ht). lia. }
  unfold Group_estimate_execution_duration, bind, query, ret, lift.
  cbv beta iota zeta. cbn [db]. rewrite Hcompleted, Hl.
  set (members := group_jobs (Group.id g) (db w)) in *.
  assert (Hpos : (0 <? count members) = true).
  { apply count_pos_iff. intros Hnil. rewrite Hnil in Hj. contradiction. }
  rewrite Hpos.
  assert (Hdone : (Count Job.executed members + Count Job.cancelled members =? 0)
                  = false).
  { apply Z.eqb_neq.
    assert (0 < Count Job.executed members); [|pose proof (Count_filter_all Job.cancelled members); lia].
    unfold Count. apply Z.ltb_lt. rewrite count_filter_pos.
    apply existsb_exists. exists j. split; [exact Hj | now rewrite He]. }
  rewrite Hdone. cbn [negb]. rewrite Ht, Hc. reflexivity.
Qed.

Lemma estimate_of_a_completed_group_witness :
  Group_estimate_execution_duration Demo.clock Demo.the_group
    (Demo.at_tick
       (mkStore [Demo.member 1 (Some (Demo.start + 30 * us_per_second)) None;
                 Demo.member 2 None (Some (Demo.start + 90 * us_per_second));
                 Demo.member 3 (Some (Demo.start + 70 * us_per_second)) None]
                [] [Demo.the_group]) 200)
  = (Return (Some (Demo.start + 70 * us_per_second - Demo.start), Some 0,
             Some (Demo.start + 70 * us_per_second - Demo.start)),
     Demo.at_tick
       (mkStore [Demo.member 1 (Some (Demo.start + 30 * us_per_second)) None;
                 Demo.member 2 None (Some (Demo.start + 90 * us_per_second));
                 Demo.member 3 (Some (Demo.start + 70 * us_per_second)) None]
                [] [Demo.the_group]) 200).
Proof.
  apply (estimate_of_a_completed_group Demo.clock Demo.the_group _
           (Demo.member 3 (Some (Demo.start + 70 * us_per_second)) None)).
  - intros r Hr. vm_compute in Hr.
    destruct Hr as [<-|[<-|[<-|[]]]];
      [left | right | left]; discriminate.
  - vm_compute. right. right. left. reflexivity.
  - reflexivity.
  - intros r t Hr Ht. vm_compute in Hr.
    destruct Hr as [<-|[<-|[<-|[]]]]; vm_compute in Ht;
      try discriminate Ht; injection Ht as <-; vm_compute; discriminate.
  - reflexivity.
Defined.

(** ** What every call keeps *)

(** A relation between the world before and after that is a preorder, does
    not look at the clock or the telemetry, holds of the four places where
    the code writes and passes through a transaction block, holds of every
    call. *)
Section Keeping.

Variable clock : nat -> datetime.
Variable pow : float -> float -> float.
Variable repr_exception : Exception -> string.
Variable format_exc : Exception -> string.
Variable Function : Type.
Variable full_name : Function -> string.
Variable object_at_end_of_path : string -> Result Function.
Variable non_unicode_kwarg_keys : dict -> dict.
Variable call : Function -> list json -> dict -> Result json.

Variable R : World -> World -> Prop.
Hypothesis R_refl : forall w, R w w.
Hypothesis R_trans : forall w1 w2 w3, R w1 w2 -> R w2 w3 -> R w1 w3.
Hypothesis R_clock :
  forall w n telemetry,
    R w (mkWorld (db w) (committed w) (managed w) n telemetry).
Hypothesis R_Job_save : keeps_method R (Job_save clock).
Hypothesis R_Model_save_Group : keeps_method R (Model_save_Group clock).
Hypothesis R_Error_objects_create :
  forall job exception traceback,
    keeps_world R (Error_objects_create clock job exception traceback).
Hypothesis R_deschedule :
  forall function args kwargs,
    keeps_world R (deschedule clock Function full_name function args kwargs).
Hypothesis R_commit_on_success :
  forall (T A : Type) (body : Method T A),
    keeps_method R body -> keeps_method R (commit_on_success body).

Lemma keeps_ret {T A : Type} (a : A) : keeps_method (T := T) R (ret a).
Proof. intros obj w. apply R_refl. Qed.

Lemma keeps_raise {T A : Type} (e : Exception) :
  keeps_method (T := T) (A := A) R (raise e).
Proof. intros obj w. apply R_refl. Qed.

Lemma keeps_lift {T A : Type} (r : Result A) : keeps_method (T := T) R (lift r).
Proof. intros obj w. apply R_refl. Qed.

Lemma keeps_self {T : Type} : keeps_method (T := T) R self.
Proof. intros obj w. apply R_refl. Qed.

Lemma keeps_setattr {T : Type} (update : T -> T) : keeps_method R (setattr update).
Proof. intros obj w. apply R_refl. Qed.

Lemma keeps_bind {T A B : Type} (m : Method T A) (k : A -> Method T B) :
  keeps_method R m -> (forall a, keeps_method R (k a)) ->
  keeps_method R (bind m k).
Proof.
  intros Hm Hk obj w. unfold bind. specialize (Hm obj w).
  destruct (m (obj, w)) as [[a|e] [obj' w']]; simpl in *.
  - eapply R_trans; [exact Hm | apply Hk].
  - exact Hm.
Qed.

Lemma keeps_try_except {T A : Type} (body : Method T A)
    (handler : Exception -> Method T A) :
  keeps_method R body -> (forall e, keeps_method R (handler e)) ->
  keeps_method R (try_except body handler).
Proof.
  intros Hm Hk obj w. unfold try_except. specialize (Hm obj w).
  destruct (body (obj, w)) as [[a|e] [obj' w']]; simpl in *.
  - exact Hm.
  - eapply R_trans; [exact Hm | apply Hk].
Qed.

Lemma keeps_in_world {T A : Type} (m : M World A) :
  keeps_world R m -> keeps_method (T := T) R (world m).
Proof.
  intros Hm obj w. unfold world. specialize (Hm w). simpl.
  destruct (m w) as [r w']. exact Hm.
Qed.

Lemma keeps_world_bind {A B : Type} (m : M World A) (k : A -> M World B) :
  keeps_world R m -> (forall a, keeps_world R (k a)) -> keeps_world R (bind m k).
Proof.
  intros Hm Hk w. unfold bind. specialize (Hm w).
  destruct (m w) as [[a|e] w']; simpl in *.
  - eapply R_trans; [exact Hm | apply Hk].
  - exact Hm.
Qed.

Lemma keeps_world_try_except {A : Type} (body : M World A)
    (handler : Exception -> M World A) :
  keeps_world R body -> (forall e, keeps_world R (handler e)) ->
  keeps_world R (try_except body handler).
Proof.
  intros Hm Hk w. unfold try_except. specialize (Hm w).
  destruct (body w) as [[a|e] w']; simpl in *.
  - exact Hm.
  - eapply R_trans; [exact Hm | apply Hk].
Qed.

Lemma keeps_world_ret {A : Type} (a : A) : keeps_world R (ret a).
Proof. intros w. apply R_refl. Qed.

Lemma keeps_world_raise {A : Type} (e : Exception) :
  keeps_world (A := A) R (raise e).
Proof. intros w. apply R_refl. Qed.

Lemma keeps_query {A : Type} (q : Store -> A) : keeps_world R (query q).
Proof. intros w. apply R_refl. Qed.

Lemma keeps_now : keeps_world R (now clock).
Proof. intros w. apply R_clock. Qed.

Lemma keeps_stats (command : string) (success : bool) :
  keeps_world R (_stats command success).
Proof. intros w. apply R_clock. Qed.

Lemma keeps_execute_transaction command function args kwargs :
  keeps_method R
    (execute_transaction clock Function call command function args kwargs).
Proof.
  unfold execute_transaction.
  repeat first
    [ apply R_Job_save
    | apply keeps_in_world
    | apply keeps_now | apply keeps_stats | apply keeps_setattr
    | apply keeps_lift | apply keeps_ret
    | apply keeps_bind; [|intros ?] ].
Qed.

Lemma keeps_record exception :
  keeps_method R (record clock repr_exception format_exc exception).
Proof.
  unfold record.
  repeat first
    [ apply R_Job_save
    | apply keeps_in_world
    | apply keeps_self | apply R_Error_objects_create
    | apply keeps_bind; [|intros ?] ].
Qed.

Lemma keeps_execute_except command exception :
  keeps_method R
    (execute_except clock pow repr_exception format_exc command exception).
Proof.
  unfold execute_except.
  repeat first
    [ apply keeps_record
    | apply keeps_in_world
    | apply R_commit_on_success
    | apply keeps_now | apply keeps_stats | apply keeps_setattr
    | apply keeps_query | apply keeps_self
    | apply keeps_lift | apply keeps_ret | apply keeps_raise
    | match goal with
      | |- keeps_method _ (match ?x with _ => _ end) => destruct x
      end
    | apply keeps_bind; [|intros ?] ].
Qed.

Lemma keeps_Job_execute :
  keeps_method R
    (Job_execute clock pow repr_exception format_exc Function
                 object_at_end_of_path non_unicode_kwarg_keys call).
Proof.
  unfold Job_execute.
  apply keeps_bind; [apply keeps_self | intros j].
  apply keeps_try_except; [|intros e; apply keeps_execute_except].
  cbv zeta. apply keeps_bind; [apply keeps_lift | intros function].
  apply R_commit_on_success, keeps_execute_transaction.
Qed.

Lemma keeps_save_final (f : Job.t) : keeps_method R (save_final clock f).
Proof.
  intros g w. unfold save_final.
  pose proof (R_Job_save (Job.set_group (Group.id g) f) w) as H.
  destruct (Job_save clock (Job.set_group (Group.id g) f, w)) as [r [f' w']].
  exact H.
Qed.

Lemma keeps_Group_save : keeps_method R (Group_save clock).
Proof.
  unfold Group_save.
  repeat first
    [ apply R_Model_save_Group | apply keeps_save_final
    | apply keeps_in_world
    | apply keeps_query | apply keeps_self | apply keeps_raise | apply keeps_ret
    | match goal with
      | |- keeps_method _ (match ?x with _ => _ end) => destruct x
      | |- keeps_method _ (if ?x then _ else _) => destruct x
      end
    | apply keeps_bind; [|intros ?] ].
Qed.

Lemma keeps_Group_on_completion job :
  keeps_method R (Group_on_completion clock job).
Proof.
  unfold Group_on_completion.
  apply keeps_bind; [apply keeps_setattr | intros _; apply keeps_Group_save].
Qed.

Lemma keeps_Group_objects_create g :
  keeps_world R (Group_objects_create clock g).
Proof.
  intros w. unfold Group_objects_create.
  pose proof (keeps_Group_save g w) as H.
  destruct (Group_save clock (g, w)) as [[u|e] [g' w']]; exact H.
Qed.

Lemma keeps_latest_group_by_reference reference :
  keeps_world R (Group_latest_group_by_reference clock reference).
Proof.
  unfold Group_latest_group_by_reference.
  apply keeps_world_try_except.
  - apply keeps_world_bind; [apply keeps_query | intros found].
    destruct found as [group|]; [|apply keeps_world_raise].
    apply keeps_world_bind; [apply keeps_query | intros completed].
    destruct completed; [apply keeps_Group_objects_create | apply keeps_world_ret].
  - intros e. destruct e; try apply keeps_world_raise.
    apply keeps_Group_objects_create.
Qed.

Lemma keeps_schedule function args kwargs run_after meta :
  keeps_world R
    (schedule clock Function full_name function args kwargs run_after meta).
Proof.
  intros w. unfold schedule.
  match goal with
  | |- context [Job_save clock (?j, w)] =>
      pose proof (R_Job_save j w) as H;
      destruct (Job_save clock (j, w)) as [[u|e] [j' w']]; exact H
  end.
Qed.

(** Every call is in the relation. *)
Lemma every_operation_keeps (w w' : World) :
  operation clock pow repr_exception format_exc Function full_name
            object_at_end_of_path non_unicode_kwarg_keys call w w' ->
  R w w'.
Proof.
  intros H. destruct H.
  - apply keeps_Group_save.
  - apply keeps_Group_on_completion.
  - apply keeps_latest_group_by_reference.
  - apply R_Job_save.
  - apply keeps_Job_execute.
  - apply keeps_schedule.
  - apply R_deschedule.
Qed.

(** Every reachable world is related to the initial one. *)
Lemma every_reachable_world_keeps (w : World) :
  reachable clock pow repr_exception format_exc Function full_name
            object_at_end_of_path non_unicode_kwarg_keys call w ->
  R initial_world w.
Proof.
  intros H. induction H.
  - apply R_refl.
  - eapply R_trans; [exact IHreachable | apply keeps_Group_save].
  - eapply R_trans; [exact IHreachable | apply keeps_Group_on_completion].
  - eapply R_trans; [exact IHreachable | apply keeps_latest_group_by_reference].
  - eapply R_trans; [exact IHreachable | apply R_Job_save].
  - eapply R_trans; [exact IHreachable | apply keeps_Job_execute].
  - eapply R_trans; [exact IHreachable | apply keeps_schedule].
  - eapply R_trans; [exact IHreachable | apply R_deschedule].
Qed.

End Keeping.

(** ** The tables under the base save *)

Lemma fresh_id_is_new {A : Type} (pk : A -> option Z) (rows : list A) :
  ~ In (Some (fresh_id pk rows)) (map pk rows).
Proof.
  assert (H : forall k, In (Some k) (map pk rows) -> k < fresh_id pk rows).
  { unfold fresh_id. induction rows as [|r rows IH]; [contradiction|].
    cbn [map fold_right In].
    set (m := fold_right _ 0 rows) in *.
    intros k [Hk|Hk].
    - rewrite Hk. lia.
    - specialize (IH k Hk). destruct (pk r); lia. }
  intros Hin. specialize (H _ Hin). lia.
Qed.

Lemma existsb_pk_in {A : Type} (pk : A -> option Z) (k : option Z) (rows : list A) :
  existsb (fun r => pk_eqb (pk r) k) rows = true <-> In k (map pk rows).
Proof.
  rewrite existsb_exists, in_map_iff. split; intros (r & H1 & H2).
  - exists r. split; [|exact H1].
    destruct (pk r), k; simpl in H2; try discriminate; [|reflexivity].
    apply Z.eqb_eq in H2. now subst.
  - exists r. split; [exact H2|]. rewrite H1. apply pk_eqb_refl.
Qed.

Lemma pk_eqb_eq (a b : option Z) : pk_eqb a b = true <-> a = b.
Proof.
  destruct a, b; simpl; split; intros H; try discriminate; try reflexivity.
  - apply Z.eqb_eq in H. now subst.
  - injection H as ->. apply Z.eqb_refl.
Qed.

Lemma replace_row_keys {A : Type} (pk : A -> option Z) (row : A) (rows : list A) :
  map pk (replace_row pk row rows) = map pk rows.
Proof.
  unfold replace_row. induction rows as [|r rows IH]; simpl; [reflexivity|].
  rewrite IH. f_equal.
  destruct (pk_eqb (pk r) (pk row)) eqn:H; [|reflexivity].
  apply pk_eqb_eq in H. now rewrite H.
Qed.

Lemma replace_row_rows {A : Type} (pk : A -> option Z) (row x : A) (rows : list A) :
  In x (replace_row pk row rows) -> x = row \/ In x rows.
Proof.
  unfold replace_row. rewrite in_map_iff. intros (r & Hr & Hin).
  destruct (pk_eqb (pk r) (pk row)); [left | right]; now subst.
Qed.

Lemma row_written_keys {A : Type} (pk : A -> option Z) (rows rows' : list A)
    (row : A) (k : option Z) :
  row_written pk rows row rows' -> In k (map pk rows) -> In k (map pk rows').
Proof.
  intros [Hex Hne | i Hi Hnew] Hk.
  - now rewrite replace_row_keys.
  - rewrite map_app. apply in_or_app. now left.
Qed.

Lemma row_written_keyed {A : Type} (pk : A -> option Z) (rows rows' : list A)
    (row : A) :
  row_written pk rows row rows' -> keyed pk rows -> keyed pk rows'.
Proof.
  intros [Hex Hne | i Hi Hnew] [Hnodup Hsome].
  - unfold keyed. now rewrite replace_row_keys.
  - unfold keyed. rewrite map_app. simpl. rewrite Hi. split.
    + apply NoDup_app; [exact Hnodup | repeat constructor; intros [] | ].
      intros k Hk [<-|[]]. now apply Hnew.
    + intros Hin. apply in_app_or in Hin. destruct Hin as [Hin|[Hin|[]]];
        [now apply Hsome | discriminate].
Qed.

Lemma row_written_rows {A : Type} (pk : A -> option Z) (rows rows' : list A)
    (row x : A) :
  row_written pk rows row rows' -> In x rows' -> x = row \/ In x rows.
Proof.
  intros [Hex Hne | i Hi Hnew] Hx.
  - now apply replace_row_rows in Hx.
  - apply in_app_or in Hx. destruct Hx as [Hx|[<-|[]]]; [now right | now left].
Qed.

Lemma row_written_row {A : Type} (pk : A -> option Z) (rows rows' : list A)
    (row : A) :
  row_written pk rows row rows' -> In row rows'.
Proof.
  intros [Hex Hne | i Hi Hnew].
  - now apply In_replace_row.
  - apply in_or_app. right. now left.
Qed.

Lemma row_written_length {A : Type} (pk : A -> option Z) (rows rows' : list A)
    (row : A) :
  row_written pk rows row rows' ->
  (In (pk row) (map pk rows) /\ List.length rows' = List.length rows)
  \/ (~ In (pk row) (map pk rows) /\ rows' = (rows ++ [row])%list).
Proof.
  intros [Hex Hne | i Hi Hnew].
  - left. split; [now apply existsb_pk_in|].
    unfold replace_row. apply length_map.
  - right. rewrite Hi. now split.
Qed.

Section Tables.

Variable clock : nat -> datetime.

(** The base save of a job returns, writes the row of the instance into the
    jobs table and touches no other table. *)
Lemma Model_save_Job_table (j : Job.t) (w : World) :
  exists j' w',
    Model_save_Job clock (j, w) = (Return tt, (j', w'))
    /\ j' = Job.set_id (Job.id j') (Job.set_added (Job.added j') j)
    /\ row_written Job.id (jobs (db w)) j' (jobs (db w'))
    /\ (Job.id j <> None -> Job.id j' = Job.id j)
    /\ errors (db w') = errors (db w)
    /\ groups (db w') = groups (db w).
Proof.
  unfold Model_save_Job, bind, self, world, query. simpl.
  destruct (negb (isnull (Job.id j))
            && existsb (fun r => pk_eqb (Job.id r) (Job.id j)) (jobs (db w)))
    eqn:Hex; simpl.
  - eexists _, _. split; [reflexivity|]. split; [now destruct j|].
    apply andb_prop in Hex. destruct Hex as [Hid Hex].
    split; [|repeat split].
    apply row_updated; [exact Hex|]. now destruct (Job.id j).
  - destruct (Job.id j) as [i|] eqn:Hid; simpl.
    + eexists _, _. split; [reflexivity|]. split; [now destruct j|].
      split; [|repeat split].
      apply (row_inserted _ _ _ i); [reflexivity|].
      simpl in Hex. intros Hin. apply existsb_pk_in in Hin. congruence.
    + eexists _, _. split; [reflexivity|]. split; [now destruct j|].
      split; [|split; [intros H; now elim H | split; reflexivity]].
      apply (row_inserted _ _ _ (fresh_id Job.id (jobs (db w)))); [reflexivity|].
      apply fresh_id_is_new.
Qed.

(** [Job.save] either refuses and changes nothing, or writes the row of the
    instance, with its identity recomputed, into the jobs table. *)
Lemma Job_save_table (j : Job.t) (w : World) :
  (exists message,
     Job_save clock (j, w) = (Raise (ValidationError message), (j, w)))
  \/ exists j' w',
       Job_save clock (j, w) = (Return tt, (j', w'))
       /\ saved_as j j'
       /\ row_written Job.id (jobs (db w)) j' (jobs (db w'))
       /\ (Job.id j <> None -> Job.id j' = Job.id j)
       /\ job_written j' w w'.
Proof.
  destruct (refused j (db w)) eqn:Hr.
  - left. now apply Job_save_refuses.
  - right.
    destruct (Job_save_accepts clock j w Hr) as (j' & w' & Hsave & Hsaved & Hw).
    exists j', w'. split; [exact Hsave|]. split; [exact Hsaved|].
    destruct (Model_save_Job_table
                (Job.set_identity (sha1_hexdigest (Job_unicode j)) j) w)
      as (j1 & w1 & H1 & _ & Htable & Hid & _).
    assert (Job_save clock (j, w) = (Return tt, (j1, w1))) as H2.
    { rewrite <- H1. clear - Hr.
      unfold Job_save, refused, is_member, has_terminal_member in *.
      unfold bind at 1. unfold self at 1. simpl.
      destruct (Job.group j) as [g|]; simpl; [|reflexivity].
      unfold bind, world, query. simpl.
      destruct (existsb (fun r => pk_eqb (Job.id r) (Job.id j))
                        (group_jobs (Some g) (db w))); simpl; [reflexivity|].
      rewrite count_filter_pos. simpl in Hr. rewrite Hr. reflexivity. }
    rewrite Hsave in H2. injection H2 as -> ->.
    split; [exact Htable|]. split; [exact Hid | exact Hw].
Qed.

Lemma Group_row_id (g : Group.t) : Group.id (Group_row g) = Group.id g.
Proof.
  unfold Group_row. destruct (Group.final g) as [f|]; [|reflexivity].
  now destruct (isnull (Job.id f)).
Qed.

Lemma Group_row_without_final (g : Group.t) :
  Group.final g = None -> Group_row g = g.
Proof. unfold Group_row. now intros ->. Qed.

(** The base save of a group: the same on the groups table. *)
Lemma Model_save_Group_table (g : Group.t) (w : World) :
  exists g' w',
    Model_save_Group clock (g, w) = (Return tt, (g', w'))
    /\ g' = Group.set_id (Group.id g') (Group.set_created (Group.created g') g)
    /\ row_written Group.id (groups (db w)) (Group_row g') (groups (db w'))
    /\ jobs (db w') = jobs (db w)
    /\ errors (db w') = errors (db w)
    /\ committed w' = (if managed w then committed w else db w' :: committed w)
    /\ managed w' = managed w.
Proof.
  unfold Model_save_Group, bind, self, world, query. simpl.
  destruct (negb (isnull (Group.id g))
            && existsb (fun r => pk_eqb (Group.id r) (Group.id g)) (groups (db w)))
    eqn:Hex; simpl.
  - eexists _, _. split; [reflexivity|]. split; [now destruct g|].
    apply andb_prop in Hex. destruct Hex as [Hid Hex].
    split; [|repeat split].
    apply row_updated; rewrite Group_row_id; [exact Hex|].
    now destruct (Group.id g).
  - destruct (Group.id g) as [i|] eqn:Hid; simpl.
    + eexists _, _. split; [reflexivity|]. split; [now destruct g|].
      split; [|repeat split].
      apply (row_inserted _ _ _ i); [now rewrite Group_row_id|].
      simpl in Hex. intros Hin. apply existsb_pk_in in Hin. congruence.
    + eexists _, _. split; [reflexivity|]. split; [now destruct g|].
      split; [|repeat split].
      apply (row_inserted _ _ _ (fresh_id Group.id (groups (db w))));
        [now rewrite Group_row_id|].
      apply fresh_id_is_new.
Qed.

End Tables.

(** ** Relations every call keeps *)

Lemma commit_on_success_on_db (Q : Store -> Store -> Prop) :
  (forall s, Q s s) ->
  forall (T A : Type) (body : Method T A),
    keeps_method (on_db Q) body -> keeps_method (on_db Q) (commit_on_success body).
Proof.
  intros Qrefl T A body H obj w. unfold commit_on_success.
  specialize (H obj (mkWorld (db w) (committed w) true (ticks w) (stats w))).
  destruct (body _) as [[a|e] [obj' w']]; unfold on_db in *; simpl in *.
  - exact H.
  - apply Qrefl.
Qed.

Lemma deschedule_table (clock : nat -> datetime) (Function : Type)
    (full_name : Function -> string) (function : Function)
    (args : option (list json)) (kwargs : option dict) (w : World) :
  exists text t,
    db (snd (deschedule clock Function full_name function args kwargs w))
    = mkStore (map (fun r => if String.eqb (Job.identity r) text
                             then Job.set_executed (Some t) r else r)
                   (jobs (db w)))
              (errors (db w)) (groups (db w)).
Proof. eexists _, _. reflexivity. Qed.

Lemma map_mark_keys (mark : Job.t -> bool) (t : datetime) (rows : list Job.t) :
  map Job.id (map (fun r => if mark r then Job.set_executed (Some t) r else r) rows)
  = map Job.id rows.
Proof.
  rewrite map_map. apply map_ext. intros r. now destruct (mark r).
Qed.

(** The world [Error.objects.create] leaves: the clock read once and, for a
    job with a key, the error appended under a new key. *)
Lemma Error_objects_create_world (clock : nat -> datetime) (job : Job.t)
    (exception traceback : string) (w : World) :
  snd (Error_objects_create clock job exception traceback w)
  = mkWorld (db w) (committed w) (managed w) (S (ticks w)) (stats w)
  \/ snd (Error_objects_create clock job exception traceback w)
     = (let e := Error.mk (Some (fresh_id Error.id (errors (db w)))) (Job.id job)
                          (Some (clock (ticks w))) exception traceback in
        let s := mkStore (jobs (db w)) (errors (db w) ++ [e]) (groups (db w)) in
        mkWorld s (if managed w then committed w else s :: committed w)
                (managed w) (S (ticks w)) (stats w)).
Proof.
  unfold Error_objects_create, bind, now, raise, query, write, ret. simpl.
  destruct (Job.id job); [right | left]; reflexivity.
Qed.

Section Kept.

Variable clock : nat -> datetime.
Variable pow : float -> float -> float.
Variable repr_exception : Exception -> string.
Variable format_exc : Exception -> string.
Variable Function : Type.
Variable full_name : Function -> string.
Variable object_at_end_of_path : string -> Result Function.
Variable non_unicode_kwarg_keys : dict -> dict.
Variable call : Function -> list json -> dict -> Result json.

Let operation :=
  operation clock pow repr_exception format_exc Function full_name
            object_at_end_of_path non_unicode_kwarg_keys call.
Let reachable :=
  reachable clock pow repr_exception format_exc Function full_name
            object_at_end_of_path non_unicode_kwarg_keys call.

(** *** The error log only grows *)

Lemma errors_appended_by_every_call (w w' : World) :
  operation w w' -> errors_appended w w'.
Proof.
  apply (every_operation_keeps clock pow repr_exception format_exc Function
           full_name object_at_end_of_path non_unicode_kwarg_keys call
           errors_appended).
  - intros w0. exists []. now rewrite app_nil_r.
  - intros w1 w2 w3 [l1 H1] [l2 H2]. exists (l1 ++ l2)%list.
    now rewrite H2, H1, app_assoc.
  - intros w0 n telemetry. exists []. simpl. now rewrite app_nil_r.
  - intros j w0.
    destruct (Job_save_table clock j w0) as [[m H] | (j' & w1 & H & _ & _ & _ & Hw)];
      rewrite H; simpl; exists []; rewrite app_nil_r;
      [reflexivity | apply (errors_kept _ _ _ Hw)].
  - intros g w0.
    destruct (Model_save_Group_table clock g w0)
      as (g' & w1 & H & _ & _ & _ & He & _).
    rewrite H. simpl. exists []. now rewrite app_nil_r.
  - intros job exception traceback w0.
    destruct (Error_objects_create_world clock job exception traceback w0)
      as [H | H]; rewrite H.
    + exists []. simpl. now rewrite app_nil_r.
    + eexists. reflexivity.
  - intros function args kwargs w0. exists []. simpl. now rewrite app_nil_r.
  - apply (commit_on_success_on_db
             (fun s s' => exists new, errors s' = (errors s ++ new)%list)).
    intros s. exists []. now rewrite app_nil_r.
Qed.

(** *** No row is deleted *)

Lemma rows_kept_by_every_call (w w' : World) :
  operation w w' -> rows_kept w w'.
Proof.
  apply (every_operation_keeps clock pow repr_exception format_exc Function
           full_name object_at_end_of_path non_unicode_kwarg_keys call
           rows_kept).
  - intros w0. split; auto.
  - intros w1 w2 w3 [H1 H1'] [H2 H2']. split; auto.
  - intros w0 n telemetry. split; auto.
  - intros j w0.
    destruct (Job_save_table clock j w0)
      as [[m H] | (j' & w1 & H & _ & Ht & _ & Hw)]; rewrite H; simpl.
    + split; auto.
    + split; [intros k; apply (row_written_keys _ _ _ _ _ Ht)|].
      rewrite (groups_kept _ _ _ Hw). auto.
  - intros g w0.
    destruct (Model_save_Group_table clock g w0)
      as (g' & w1 & H & _ & Ht & Hj & _).
    rewrite H. simpl. split; [rewrite Hj; auto|].
    intros k. apply (row_written_keys _ _ _ _ _ Ht).
  - intros job exception traceback w0.
    destruct (Error_objects_create_world clock job exception traceback w0)
      as [H | H]; rewrite H; split; simpl; auto.
  - intros function args kwargs w0. split; simpl; [|auto].
    intros k. now rewrite map_mark_keys.
  - apply (commit_on_success_on_db
             (fun s s' =>
                (forall k, In k (map Job.id (jobs s)) -> In k (map Job.id (jobs s')))
                /\ (forall k, In k (map Group.id (groups s))
                              -> In k (map Group.id (groups s'))))).
    intros s. split; auto.
Qed.

(** *** Keys stay distinct *)

Lemma well_keyed_kept_by_every_call (w w' : World) :
  operation w w' -> well_keyed (db w) -> well_keyed (db w').
Proof.
  apply (every_operation_keeps clock pow repr_exception format_exc Function
           full_name object_at_end_of_path non_unicode_kwarg_keys call
           (on_db (fun s s' => well_keyed s -> well_keyed s'))).
  - intros w0. unfold on_db. auto.
  - intros w1 w2 w3 H1 H2. unfold on_db in *. auto.
  - intros w0 n telemetry. unfold on_db. auto.
  - intros j w0. unfold on_db.
    destruct (Job_save_table clock j w0)
      as [[m H] | (j' & w1 & H & _ & Ht & _ & Hw)]; rewrite H; simpl; [auto|].
    intros (Hj & He & Hg). split; [exact (row_written_keyed _ _ _ _ Ht Hj)|].
    rewrite (errors_kept _ _ _ Hw), (groups_kept _ _ _ Hw). now split.
  - intros g w0. unfold on_db.
    destruct (Model_save_Group_table clock g w0)
      as (g' & w1 & H & _ & Ht & Hj & He & _).
    rewrite H. simpl. intros (Kj & Ke & Kg). unfold well_keyed. rewrite Hj, He.
    split; [exact Kj|]. split; [exact Ke | exact (row_written_keyed _ _ _ _ Ht Kg)].
  - intros job exception traceback w0. unfold on_db.
    destruct (Error_objects_create_world clock job exception traceback w0)
      as [H | H]; rewrite H; simpl; [auto|].
    intros (Kj & Ke & Kg). split; [exact Kj|]. split; [|exact Kg].
    simpl.
    apply (row_written_keyed Error.id (errors (db w0)) _
             (Error.mk (Some (fresh_id Error.id (errors (db w0)))) (Job.id job)
                       (Some (clock (ticks w0))) exception traceback));
      [|exact Ke].
    apply (row_inserted _ _ _ (fresh_id Error.id (errors (db w0))));
      [reflexivity | apply fresh_id_is_new].
  - intros function args kwargs w0. unfold on_db. simpl.
    intros (Kj & Ke & Kg). split; [|now split].
    unfold keyed in *. simpl. now rewrite map_mark_keys.
  - apply (commit_on_success_on_db (fun s s' => well_keyed s -> well_keyed s')).
    auto.
Qed.

(** *** The stored identity is the digest of the stored job *)

Lemma saved_as_identity (j j' : Job.t) :
  saved_as j j' -> Job.identity j' = sha1_hexdigest (Job_unicode j').
Proof.
  intros H. unfold saved_as in H.
  pose proof (f_equal Job.identity H) as Hi.
  pose proof (f_equal Job.name H) as Hn.
  pose proof (f_equal Job.args H) as Ha.
  pose proof (f_equal Job.kwargs H) as Hk.
  simpl in Hi, Hn, Ha, Hk. rewrite Hi. f_equal.
  symmetry. now apply Job_unicode_ext.
Qed.

Lemma identities_kept_by_every_call (w w' : World) :
  operation w w' -> identities_match (db w) -> identities_match (db w').
Proof.
  apply (every_operation_keeps clock pow repr_exception format_exc Function
           full_name object_at_end_of_path non_unicode_kwarg_keys call
           (on_db (fun s s' => identities_match s -> identities_match s'))).
  - intros w0. unfold on_db. auto.
  - intros w1 w2 w3 H1 H2. unfold on_db in *. auto.
  - intros w0 n telemetry. unfold on_db. auto.
  - intros j w0. unfold on_db.
    destruct (Job_save_table clock j w0)
      as [[m H] | (j' & w1 & H & Hs & Ht & _ & Hw)]; rewrite H; simpl; [auto|].
    intros Hall r Hr.
    destruct (row_written_rows _ _ _ _ _ Ht Hr) as [-> | Hold];
      [now apply (saved_as_identity j) | now apply Hall].
  - intros g w0. unfold on_db.
    destruct (Model_save_Group_table clock g w0)
      as (g' & w1 & H & _ & _ & Hj & _).
    rewrite H. simpl. intros Hall r Hr. rewrite Hj in Hr. now apply Hall.
  - intros job exception traceback w0. unfold on_db.
    destruct (Error_objects_create_world clock job exception traceback w0)
      as [H | H]; rewrite H; auto.
  - intros function args kwargs w0. unfold on_db. simpl.
    intros Hall r Hr. simpl in Hr. apply in_map_iff in Hr.
    destruct Hr as (r0 & <- & Hr0). specialize (Hall r0 Hr0).
    destruct (String.eqb _ _); exact Hall.
  - apply (commit_on_success_on_db
             (fun s s' => identities_match s -> identities_match s')).
    auto.
Qed.

End Kept.

(** ** Transactions *)

Lemma transactional_refl (w : World) : transactional w w.
Proof. split; [reflexivity | split; [reflexivity | exact (fun H => H)]]. Qed.

Lemma transactional_trans (w1 w2 w3 : World) :
  transactional w1 w2 -> transactional w2 w3 -> transactional w1 w3.
Proof.
  intros (M1 & C1 & S1) (M2 & C2 & S2). split; [congruence|]. split; [|auto].
  intros H. rewrite C2, C1; congruence.
Qed.

(** A world reached by one write under Django's commit rule. *)
Lemma written_is_transactional (w w' : World) :
  managed w' = managed w ->
  committed w' = (if managed w then committed w else db w' :: committed w) ->
  transactional w w'.
Proof.
  intros Hm Hc. split; [exact Hm|]. split.
  - intros H. now rewrite Hc, H.
  - intros [H _]. split; [congruence|]. rewrite Hc, H. now eexists.
Qed.

Lemma commit_on_success_is_transactional (T A : Type) (body : Method T A) :
  keeps_method transactional body ->
  keeps_method transactional (commit_on_success body).
Proof.
  intros H obj w. unfold commit_on_success.
  specialize (H obj (mkWorld (db w) (committed w) true (ticks w) (stats w))).
  destruct (body _) as [[a|e] [obj' w']]; simpl in *;
    destruct H as (Hm & Hc & _); simpl in *; specialize (Hc eq_refl).
  - apply written_is_transactional; simpl; [reflexivity|].
    rewrite Hc. reflexivity.
  - split; [reflexivity|]. split; simpl; [auto|].
    intros [Hmw [h Hh]]. split; [exact Hmw|]. simpl. rewrite Hc. now exists h.
Qed.

Section Transactions.

Variable clock : nat -> datetime.
Variable pow : float -> float -> float.
Variable repr_exception : Exception -> string.
Variable format_exc : Exception -> string.
Variable Function : Type.
Variable full_name : Function -> string.
Variable object_at_end_of_path : string -> Result Function.
Variable non_unicode_kwarg_keys : dict -> dict.
Variable call : Function -> list json -> dict -> Result json.

Lemma transactional_kept_by_every_call (w w' : World) :
  operation clock pow repr_exception format_exc Function full_name
            object_at_end_of_path non_unicode_kwarg_keys call w w' ->
  transactional w w'.
Proof.
  apply (every_operation_keeps clock pow repr_exception format_exc Function
           full_name object_at_end_of_path non_unicode_kwarg_keys call
           transactional).
  - apply transactional_refl.
  - apply transactional_trans.
  - intros w0 n telemetry. split; [reflexivity|]. split; [reflexivity|].
    intros [Hm Hc]. split; assumption.
  - intros j w0.
    destruct (Job_save_table clock j w0)
      as [[m H] | (j' & w1 & H & _ & _ & _ & Hw)]; rewrite H; simpl.
    + apply transactional_refl.
    + apply written_is_transactional;
        [apply (managed_kept _ _ _ Hw) | apply (commit_rule _ _ _ Hw)].
  - intros g w0.
    destruct (Model_save_Group_table clock g w0)
      as (g' & w1 & H & _ & _ & _ & _ & Hc & Hm).
    rewrite H. simpl. now apply written_is_transactional.
  - intros job exception traceback w0.
    destruct (Error_objects_create_world clock job exception traceback w0)
      as [H | H]; rewrite H.
    + split; [reflexivity|]. split; [reflexivity|].
      intros [Hm Hc]. split; assumption.
    + apply written_is_transactional; reflexivity.
  - intros function args kwargs w0.
    apply written_is_transactional; reflexivity.
  - apply commit_on_success_is_transactional.
Qed.

(** Induction over the calls that lead to a reachable world. *)
Lemma reachable_induction (I : World -> Prop) :
  I initial_world ->
  (forall w w',
     operation clock pow repr_exception format_exc Function full_name
               object_at_end_of_path non_unicode_kwarg_keys call w w' ->
     I w -> I w') ->
  forall w,
    reachable clock pow repr_exception format_exc Function full_name
              object_at_end_of_path non_unicode_kwarg_keys call w ->
    I w.
Proof.
  intros H0 Hstep w H. induction H; [exact H0 | | | | | | |];
    (eapply Hstep; [|exact IHreachable]); constructor.
Qed.

End Transactions.

Lemma initial_world_well_keyed : well_keyed (db initial_world).
Proof. repeat split; simpl; auto using NoDup_nil. Qed.

Lemma initial_world_settled : settled initial_world.
Proof. split; [reflexivity | now eexists]. Qed.

Lemma failing_run_is_a_call :
  operation Demo.clock Demo.pow Demo.repr_exception Demo.format_exc
            Demo.Function Demo.full_name Demo.object_at_end_of_path
            Demo.non_unicode_kwarg_keys Demo.call
            Demo.failing_world
            (Demo.world_after Demo.Job_execute Demo.failing_job Demo.failing_world).
Proof. apply call_Job_execute. Qed.

(** Whatever a call of the models or of the facade does, it leaves the
    errors recorded before in place and in order, and adds new ones at the
    end only: the error log is append-only. *)
Theorem every_call_appends_to_the_error_log
    (clock : nat -> datetime) (pow : float -> float -> float)
    (repr_exception format_exc : Exception -> string) (Function : Type)
    (full_name : Function -> string)
    (object_at_end_of_path : string -> Result Function)
    (non_unicode_kwarg_keys : dict -> dict)
    (call : Function -> list json -> dict -> Result json) (w w' : World) :
  operation clock pow repr_exception format_exc Function full_name
            object_at_end_of_path non_unicode_kwarg_keys call w w' ->
  errors_appended w w'.
Proof. apply errors_appended_by_every_call. Qed.

Lemma every_call_appends_to_the_error_log_witness :
  errors_appended Demo.failing_world
    (Demo.world_after Demo.Job_execute Demo.failing_job Demo.failing_world).
Proof.
  apply (every_call_appends_to_the_error_log _ _ _ _ _ _ _ _ _ _ _
           failing_run_is_a_call).
Defined.

(** No call of the models or of the facade deletes a job or a group or
    changes its key: every key of the two tables is still there after the
    call. *)
Theorem no_call_deletes_a_job_or_a_group
    (clock : nat -> datetime) (pow : float -> float -> float)
    (repr_exception format_exc : Exception -> string) (Function : Type)
    (full_name : Function -> string)
    (object_at_end_of_path : string -> Result Function)
    (non_unicode_kwarg_keys : dict -> dict)
    (call : Function -> list json -> dict -> Result json) (w w' : World) :
  operation clock pow repr_exception format_exc Function full_name
            object_at_end_of_path non_unicode_kwarg_keys call w w' ->
  rows_kept w w'.
Proof. apply rows_kept_by_every_call. Qed.

Lemma no_call_deletes_a_job_or_a_group_witness :
  rows_kept Demo.failing_world
    (Demo.world_after Demo.Job_execute Demo.failing_job Demo.failing_world).
Proof.
  apply (no_call_deletes_a_job_or_a_group _ _ _ _ _ _ _ _ _ _ _
           failing_run_is_a_call).
Defined.

(** In every world reached from the empty queue, every job, error and
    group has a key and no two rows of a table share one. *)
Theorem reachable_tables_have_distinct_keys
    (clock : nat -> datetime) (pow : float -> float -> float)
    (repr_exception format_exc : Exception -> string) (Function : Type)
    (full_name : Function -> string)
    (object_at_end_of_path : string -> Result Function)
    (non_unicode_kwarg_keys : dict -> dict)
    (call : Function -> list json -> dict -> Result json) (w : World) :
  reachable clock pow repr_exception format_exc Function full_name
            object_at_end_of_path non_unicode_kwarg_keys call w ->
  well_keyed (db w).
Proof.
  apply (reachable_induction clock pow repr_exception format_exc Function
           full_name object_at_end_of_path non_unicode_kwarg_keys call
           (fun w => well_keyed (db w))).
  - apply initial_world_well_keyed.
  - apply well_keyed_kept_by_every_call.
Qed.

Lemma reachable_tables_have_distinct_keys_witness :
  well_keyed (db Demo.two_groups_4).
Proof.
  apply (reachable_tables_have_distinct_keys _ _ _ _ _ _ _ _ _ _
           two_groups_reachable).
Defined.

Lemma reachable_identities (clock : nat -> datetime)
    (pow : float -> float -> float)
    (repr_exception format_exc : Exception -> string) (Function : Type)
    (full_name : Function -> string)
    (object_at_end_of_path : string -> Result Function)
    (non_unicode_kwarg_keys : dict -> dict)
    (call : Function -> list json -> dict -> Result json) (w : World) :
  reachable clock pow repr_exception format_exc Function full_name
            object_at_end_of_path non_unicode_kwarg_keys call w ->
  identities_match (db w).
Proof.
  apply (reachable_induction clock pow repr_exception format_exc Function
           full_name object_at_end_of_path non_unicode_kwarg_keys call
           (fun w => identities_match (db w))).
  - intros r [].
  - apply identities_kept_by_every_call.
Qed.

(** In every world reached from the empty queue, the identity of every
    stored job is the SHA-1 digest of the rendering of its current name,
    positional arguments and keyword arguments. *)
Theorem reachable_identities_are_digests
    (clock : nat -> datetime) (pow : float -> float -> float)
    (repr_exception format_exc : Exception -> string) (Function : Type)
    (full_name : Function -> string)
    (object_at_end_of_path : string -> Result Function)
    (non_unicode_kwarg_keys : dict -> dict)
    (call : Function -> list json -> dict -> Result json) (w : World) :
  reachable clock pow repr_exception format_exc Function full_name
            object_at_end_of_path non_unicode_kwarg_keys call w ->
  identities_match (db w).
Proof. apply reachable_identities. Qed.

Lemma reachable_identities_are_digests_witness :
  identities_match (db Demo.two_groups_4).
Proof.
  apply (reachable_identities_are_digests _ _ _ _ _ _ _ _ _ _
           two_groups_reachable).
Defined.

(** In every world reached from the empty queue by complete calls, no
    transaction block is open and the database is the state committed last:
    no call leaves a write uncommitted, and none leaves a write of a block
    it rolled back. *)
Theorem reachable_worlds_are_settled
    (clock : nat -> datetime) (pow : float -> float -> float)
    (repr_exception format_exc : Exception -> string) (Function : Type)
    (full_name : Function -> string)
    (object_at_end_of_path : string -> Result Function)
    (non_unicode_kwarg_keys : dict -> dict)
    (call : Function -> list json -> dict -> Result json) (w : World) :
  reachable clock pow repr_exception format_exc Function full_name
            object_at_end_of_path non_unicode_kwarg_keys call w ->
  settled w.
Proof.
  apply (reachable_induction clock pow repr_exception format_exc Function
           full_name object_at_end_of_path non_unicode_kwarg_keys call settled).
  - apply initial_world_settled.
  - intros w0 w1 Hop. apply (transactional_kept_by_every_call _ _ _ _ _ _ _ _ _ _ _ Hop).
Qed.

Lemma reachable_worlds_are_settled_witness : settled Demo.two_groups_4.
Proof.
  apply (reachable_worlds_are_settled _ _ _ _ _ _ _ _ _ _ two_groups_reachable).
Defined.

(** In every world reached from the empty queue, [deschedule] of any
    function with any arguments leaves the jobs table exactly as it was: no
    stored identity is ever the text it looks up. *)
Theorem deschedule_changes_no_reachable_job
    (clock : nat -> datetime) (pow : float -> float -> float)
    (repr_exception format_exc : Exception -> string) (Function : Type)
    (full_name : Function -> string)
    (object_at_end_of_path : string -> Result Function)
    (non_unicode_kwarg_keys : dict -> dict)
    (call : Function -> list json -> dict -> Result json) (w : World)
    (function : Function) (args : option (list json)) (kwargs : option dict) :
  reachable clock pow repr_exception format_exc Function full_name
            object_at_end_of_path non_unicode_kwarg_keys call w ->
  fst (deschedule clock Function full_name function args kwargs w) = Return tt
  /\ db (snd (deschedule clock Function full_name function args kwargs w)) = db w.
Proof.
  intros H. apply reachable_identities in H.
  split; [reflexivity|]. simpl.
  replace (map _ (jobs (db w))) with (jobs (db w)); [now destruct (db w)|].
  rewrite <- (map_id (jobs (db w))) at 1. apply map_ext_in. intros r Hr.
  rewrite (H r Hr), identity_is_not_unicode. reflexivity.
Qed.

Lemma deschedule_changes_no_reachable_job_witness :
  fst (Demo.deschedule "tasks.echo" (Some [JInt 1]) None Demo.two_groups_4)
  = Return tt
  /\ db (snd (Demo.deschedule "tasks.echo" (Some [JInt 1]) None Demo.two_groups_4))
     = db Demo.two_groups_4.
Proof.
  apply (deschedule_changes_no_reachable_job _ _ _ _ _ _ _ _ _ _ _ _ _
           two_groups_reachable).
Defined.

(** ** More on saving and scheduling a job *)

Lemma length_string_of_list_ascii (l : list ascii) :
  String.length (string_of_list_ascii l) = List.length l.
Proof. induction l as [|c l IH]; simpl; [reflexivity | now rewrite IH]. Qed.

Lemma sha1_hexdigest_length (text : string) :
  String.length (sha1_hexdigest text) = 40%nat.
Proof.
  unfold sha1_hexdigest, SHA1.hexdigest.
  destruct (SHA1.digest _) as [[[[h0 h1] h2] h3] h4].
  rewrite length_string_of_list_ascii, !length_app.
  unfold SHA1.hex32. rewrite !length_map. reflexivity.
Qed.

(** The identity a successful [Job.save] leaves on the instance and in its
    row is 40 lowercase hexadecimal digits, whatever the name and the
    arguments of the job. *)
Theorem Job_save_stores_forty_hexadecimal_digits
    (clock : nat -> datetime) (j j' : Job.t) (w w' : World) :
  Job_save clock (j, w) = (Return tt, (j', w')) ->
  String.length (Job.identity j') = 40%nat
  /\ all_hex (Job.identity j') = true
  /\ In j' (jobs (db w')).
Proof.
  intros H. apply Job_save_returns in H. destruct H as [Hs Hw].
  apply (f_equal Job.identity) in Hs. simpl in Hs. rewrite Hs.
  split; [apply sha1_hexdigest_length|].
  split; [apply sha1_hexdigest_all_hex | apply (row_stored _ _ _ Hw)].
Qed.

Lemma Job_save_stores_forty_hexadecimal_digits_witness :
  String.length (Job.identity Demo.echo_job) = 40%nat
  /\ all_hex (Job.identity Demo.echo_job) = true
  /\ In Demo.echo_job (jobs (db Demo.echo_world)).
Proof.
  apply (Job_save_stores_forty_hexadecimal_digits Demo.clock
           (Demo.job "tasks.echo" [JInt 1] [("b", JInt 2)] 5 None) Demo.echo_job
           initial_world Demo.echo_world).
  vm_compute. reflexivity.
Defined.

Lemma Job_save_is_the_base_save (clock : nat -> datetime) (j : Job.t) (w : World) :
  refused j (db w) = false ->
  Job_save clock (j, w)
  = Model_save_Job clock (Job.set_identity (sha1_hexdigest (Job_unicode j)) j, w).
Proof.
  intros Hok.
  unfold Job_save, refused, is_member, has_terminal_member in *.
  unfold bind at 1. unfold self at 1. simpl.
  destruct (Job.group j) as [g|]; simpl; [|reflexivity].
  unfold bind, world, query. simpl.
  destruct (existsb (fun r => pk_eqb (Job.id r) (Job.id j))
                    (group_jobs (Some g) (db w))); simpl; [reflexivity|].
  rewrite count_filter_pos. simpl in Hok. rewrite Hok. reflexivity.
Qed.

Lemma Job_save_insert (clock : nat -> datetime) (j : Job.t) (w : World) :
  Job.id j = None ->
  refused j (db w) = false ->
  exists j' w',
    Job_save clock (j, w) = (Return tt, (j', w'))
    /\ jobs (db w') = (jobs (db w) ++ [j'])%list
    /\ ~ In (Job.id j') (map Job.id (jobs (db w)))
    /\ Job.id j' <> None
    /\ Job.added j' = Some (clock (ticks w))
    /\ saved_as j j'.
Proof.
  intros Hid Hok.
  destruct (Job_save_accepts clock j w Hok) as (j' & w' & Hsave & Hsaved & Hw).
  exists j', w'. split; [exact Hsave|].
  assert (Hm : Model_save_Job clock
                 (Job.set_identity (sha1_hexdigest (Job_unicode j)) j, w)
               = (Return tt, (j', w'))).
  { rewrite <- Hsave. symmetry. now apply Job_save_is_the_base_save. }
  unfold Model_save_Job, bind, self, world, query in Hm. simpl in Hm.
  rewrite Hid in Hm. simpl in Hm. injection Hm as <- <-. simpl.
  split; [reflexivity|]. split; [apply fresh_id_is_new|].
  split; [discriminate|]. split; [reflexivity | exact Hsaved].
Qed.

(** A job without a key and with a priority that [Job.save] accepts is
    inserted: it goes to the end of the table under a key no row had, with
    [added] set to the clock reading, and every other row stays as it
    was. *)
Theorem Job_save_inserts_a_job_without_a_key
    (clock : nat -> datetime) (j : Job.t) (w : World) :
  Job.id j = None ->
  Job.priority j <> None ->
  refused j (db w) = false ->
  exists j' w',
    Job_save clock (j, w) = (Return tt, (j', w'))
    /\ jobs (db w') = (jobs (db w) ++ [j'])%list
    /\ ~ In (Job.id j') (map Job.id (jobs (db w)))
    /\ Job.id j' <> None
    /\ Job.added j' = Some (clock (ticks w))
    /\ saved_as j j'.
Proof. intros Hid _. now apply Job_save_insert. Qed.

Lemma Job_save_inserts_a_job_without_a_key_witness :
  exists j' w',
    Demo.Job_save (Demo.job "tasks.echo" [JInt 7] [] 0 None, Demo.echo_world)
    = (Return tt, (j', w'))
    /\ jobs (db w') = (jobs (db Demo.echo_world) ++ [j'])%list
    /\ ~ In (Job.id j') (map Job.id (jobs (db Demo.echo_world)))
    /\ Job.id j' <> None
    /\ Job.added j' = Some (Demo.clock (ticks Demo.echo_world))
    /\ saved_as (Demo.job "tasks.echo" [JInt 7] [] 0 None) j'.
Proof.
  apply (Job_save_inserts_a_job_without_a_key Demo.clock
           (Demo.job "tasks.echo" [JInt 7] [] 0 None) Demo.echo_world);
    [reflexivity | discriminate | reflexivity].
Defined.

(** ** More on executing a job *)

Lemma dict_get_set_same (k : string) (v : json) (d : dict) :
  dict_get k (dict_set k v d) = Some v.
Proof.
  induction d as [|[k' v'] d IH]; simpl.
  - now rewrite String.eqb_refl.
  - destruct (String.eqb k' k) eqn:H; simpl.
    + now rewrite String.eqb_refl.
    + now rewrite H.
Qed.

Lemma dict_get_set_other (k k0 : string) (v : json) (d : dict) :
  k0 <> k -> dict_get k0 (dict_set k v d) = dict_get k0 d.
Proof.
  intros Hne. induction d as [|[k' v'] d IH]; simpl.
  - destruct (String.eqb k k0) eqn:H; [|reflexivity].
    apply String.eqb_eq in H. congruence.
  - destruct (String.eqb k' k) eqn:H; simpl.
    + apply String.eqb_eq in H. subst k'.
      destruct (String.eqb k k0) eqn:H0; [|reflexivity].
      apply String.eqb_eq in H0. congruence.
    + destruct (String.eqb k' k0); [reflexivity | exact IH].
Qed.

(** [execute()] calls the operation with the job's positional arguments and
    with keyword arguments in which [priority] and [fairness] hold the
    job's own priority and fairness, also when the stored keyword arguments
    use these names, and every other key is as stored: two operations that
    agree on all such calls give the same run of [execute()]. *)
Theorem execute_passes_priority_and_fairness
    (clock : nat -> datetime) (pow : float -> float -> float)
    (repr_exception format_exc : Exception -> string) (Function : Type)
    (object_at_end_of_path : string -> Result Function)
    (non_unicode_kwarg_keys : dict -> dict)
    (call call' : Function -> list json -> dict -> Result json)
    (j : Job.t) (w : World) :
  (forall function kwargs,
     dict_get "priority" kwargs = Some (json_of_int (Job.priority j)) ->
     dict_get "fairness" kwargs = Some (json_of_int (Job.fairness j)) ->
     (forall k, k <> "priority" -> k <> "fairness" ->
        dict_get k kwargs
        = dict_get k (non_unicode_kwarg_keys (loads (Job.kwargs j)))) ->
     call function (loads (Job.args j)) kwargs
     = call' function (loads (Job.args j)) kwargs) ->
  Job_execute clock pow repr_exception format_exc Function
              object_at_end_of_path non_unicode_kwarg_keys call (j, w)
  = Job_execute clock pow repr_exception format_exc Function
                object_at_end_of_path non_unicode_kwarg_keys call' (j, w).
Proof.
  intros Hagree.
  assert (Hcall : forall function,
            call function (loads (Job.args j))
                 (call_kwargs non_unicode_kwarg_keys j)
            = call' function (loads (Job.args j))
                    (call_kwargs non_unicode_kwarg_keys j)).
  { intros function. apply Hagree; unfold call_kwargs.
    - rewrite dict_get_set_other by discriminate. apply dict_get_set_same.
    - apply dict_get_set_same.
    - intros k Hp Hf. now rewrite !dict_get_set_other. }
  unfold call_kwargs in Hcall.
  assert (Hbody : forall command function s,
            execute_transaction clock Function call command function
              (loads (Job.args j))
              (dict_set "fairness" (json_of_int (Job.fairness j))
                 (dict_set "priority" (json_of_int (Job.priority j))
                    (non_unicode_kwarg_keys (loads (Job.kwargs j))))) s
            = execute_transaction clock Function call' command function
                (loads (Job.args j))
                (dict_set "fairness" (json_of_int (Job.fairness j))
                   (dict_set "priority" (json_of_int (Job.priority j))
                      (non_unicode_kwarg_keys (loads (Job.kwargs j))))) s).
  { intros command function [j0 w0]. unfold execute_transaction.
    cbv beta iota delta [bind world now setattr lift].
    cbn [fst snd]. now rewrite (Hcall function). }
  unfold Job_execute, try_except.
  cbv beta iota zeta delta [bind self lift]. cbn [fst snd].
  destruct (object_at_end_of_path (Job.name j)) as [function|e]; [|reflexivity].
  unfold commit_on_success. now rewrite Hbody.
Qed.

Lemma execute_passes_priority_and_fairness_witness :
  Demo.Job_execute (Demo.echo_job, Demo.echo_world)
  = Job_execute Demo.clock Demo.pow Demo.repr_exception Demo.format_exc
      Demo.Function Demo.object_at_end_of_path Demo.non_unicode_kwarg_keys
      (fun f args kwargs =>
         match dict_get "priority" kwargs with
         | Some (JInt 5) => Demo.call f args kwargs
         | _ => Raise (PyException "KeyError" "priority")
         end)
      (Demo.echo_job, Demo.echo_world).
Proof.
  apply (execute_passes_priority_and_fairness Demo.clock Demo.pow
           Demo.repr_exception Demo.format_exc Demo.Function
           Demo.object_at_end_of_path Demo.non_unicode_kwarg_keys Demo.call
           (fun f args kwargs =>
              match dict_get "priority" kwargs with
              | Some (JInt 5) => Demo.call f args kwargs
              | _ => Raise (PyException "KeyError" "priority")
              end)
           Demo.echo_job Demo.echo_world).
  intros function kwargs Hp _ _. cbv beta. rewrite Hp. reflexivity.
Defined.

Section MoreExecuteProperties.

Variable clock : nat -> datetime.
Variable pow : float -> float -> float.
Variable repr_exception : Exception -> string.
Variable format_exc : Exception -> string.
Variable Function : Type.
Variable object_at_end_of_path : string -> Result Function.
Variable non_unicode_kwarg_keys : dict -> dict.
Variable call : Function -> list json -> dict -> Result json.

(** When the name of a stored job does not resolve, the failure [E] of the
    resolver is handled like the failure of an operation: [execute()]
    raises [E], records one error holding [repr(E)], decrements the
    priority and reschedules the job from the first clock reading;
    [started] is never set. *)
Theorem execute_records_an_unresolved_name
    (j : Job.t) (i p : Z) (w : World) (E : Exception) (delay : timedelta) :
  In j (jobs (db w)) ->
  Job.id j = Some i ->
  Job.priority j = Some p ->
  object_at_end_of_path (Job.name j) = Raise E ->
  backoff pow (1 + count (job_errors j (db w))) = Return delay ->
  exists j' w' error,
    Job_execute clock pow repr_exception format_exc Function
                object_at_end_of_path non_unicode_kwarg_keys call (j, w)
    = (Raise E, (j', w'))
    /\ Job.started j' = None
    /\ Job.executed j' = Job.executed j
    /\ Job.priority j' = Some (p - 1)
    /\ Job.scheduled j' = Some (clock (ticks w) + delay)
    /\ In j' (jobs (db w'))
    /\ errors (db w') = (errors (db w) ++ [error])%list
    /\ Error.job error = Job.id j
    /\ Error.exception error = repr_exception E
    /\ Error.traceback error = format_exc E
    /\ stats w' = (stats w ++ [(Job.name j, false)])%list.
Proof.
  intros Hin Hid Hpriority Hresolve Hdelay.
  destruct w as [s history m t telemetry]. simpl in Hin. cbn [db] in Hdelay.
  unfold Job_execute, try_except.
  unfold bind at 1. unfold self at 1. cbn [fst snd].
  unfold bind at 1. unfold lift at 1. rewrite Hresolve.
  unfold backoff in Hdelay.
  unfold execute_except, commit_on_success, record, Error_objects_create.
  cbn [bind world now setattr lift query self fst snd db committed managed ticks
       stats].
  replace (job_errors (Job.set_started None j) s)
    with (job_errors j s) by reflexivity.
  rewrite Hdelay. cbv beta iota.
  replace (Job.priority (Job.set_started None j))
    with (Job.priority j) by reflexivity.
  rewrite Hpriority.
  cbv beta iota delta [bind ret write world query now setattr self lift].
  cbn [fst snd db committed managed ticks stats jobs errors groups].
  cbn [Job.id Job.set_priority Job.set_scheduled Job.set_started]. rewrite Hid.
  cbv beta iota delta [bind ret write world query now setattr self lift].
  cbn [fst snd db committed managed ticks stats jobs errors groups].
  erewrite Job_save_updates;
    [ | eapply stored_job_is_not_refused; [exact Hin | reflexivity | reflexivity]
      | exact Hid
      | eapply stored_job_exists; [exact Hin | reflexivity] ].
  cbn [_stats raise fst snd db committed managed ticks stats jobs errors groups].
  eexists _, _, _. split; [reflexivity|].
  cbn [db committed jobs errors ticks stats].
  repeat split.
  apply In_replace_row. eapply stored_job_exists; [exact Hin | reflexivity].
Qed.

(** A job whose priority was never set (as [schedule] leaves it) and whose
    operation raises: the [except] block fails on [self.priority - 1], so
    [execute()] raises a [TypeError] in place of the failure of the
    operation, and records and commits nothing. *)
Theorem execute_without_a_priority_records_nothing
    (j : Job.t) (w : World) (function : Function) (E : Exception)
    (delay : timedelta) :
  Job.priority j = None ->
  object_at_end_of_path (Job.name j) = Return function ->
  call function (loads (Job.args j)) (call_kwargs non_unicode_kwarg_keys j)
  = Raise E ->
  backoff pow (1 + count (job_errors j (db w))) = Return delay ->
  exists j' w',
    Job_execute clock pow repr_exception format_exc Function
                object_at_end_of_path non_unicode_kwarg_keys call (j, w)
    = (Raise (TypeError "unsupported operand type(s) for -: 'NoneType' and 'int'"),
       (j', w'))
    /\ nothing_committed w w'
    /\ stats w' = stats w.
Proof.
  intros Hpriority Hresolve Hcall Hdelay.
  destruct w as [s history m t telemetry]. cbn [db] in Hdelay.
  unfold Job_execute, try_except.
  unfold bind at 1. unfold self at 1. cbn [fst snd].
  unfold bind at 1. unfold lift at 1. rewrite Hresolve.
  unfold commit_on_success at 1. unfold execute_transaction.
  unfold call_kwargs in Hcall. unfold backoff in Hdelay.
  cbn [bind world now setattr lift fst snd db committed managed ticks stats].
  rewrite Hcall. cbv beta iota.
  unfold execute_except.
  cbn [bind world now setattr lift query self fst snd db committed managed ticks
       stats].
  replace (job_errors (Job.set_started None (Job.set_started (Some (clock t)) j)) s)
    with (job_errors j s) by reflexivity.
  rewrite Hdelay. cbv beta iota.
  replace (Job.priority (Job.set_started None (Job.set_started (Some (clock t)) j)))
    with (Job.priority j) by reflexivity.
  rewrite Hpriority.
  cbv beta iota delta [bind raise setattr].
  cbn [fst snd].
  eexists _, _. split; [reflexivity|]. split; [split; reflexivity | reflexivity].
Qed.

End MoreExecuteProperties.

Lemma execute_records_an_unresolved_name_witness :
  exists j' w' error,
    Demo.Job_execute
      (Demo.self_after Demo.Job_save (Demo.job "tasks.gone" [] [] 3 None)
                       initial_world,
       Demo.world_after Demo.Job_save (Demo.job "tasks.gone" [] [] 3 None)
                        initial_world)
    = (Raise (PyException "ImportError" "No module named tasks"), (j', w'))
    /\ Job.started j' = None
    /\ Job.executed j' = None
    /\ Job.priority j' = Some (3 - 1)
    /\ Job.scheduled j' = Some (Demo.clock 1 + 60 * us_per_second)
    /\ In j' (jobs (db w'))
    /\ errors (db w') = ([] ++ [error])%list
    /\ Error.job error = Some 1
    /\ Error.exception error
       = Demo.repr_exception (PyException "ImportError" "No module named tasks")
    /\ Error.traceback error
       = Demo.format_exc (PyException "ImportError" "No module named tasks")
    /\ stats w' = ([] ++ [("tasks.gone", false)])%list.
Proof.
  apply (execute_records_an_unresolved_name Demo.clock Demo.pow
           Demo.repr_exception Demo.format_exc Demo.Function
           Demo.object_at_end_of_path Demo.non_unicode_kwarg_keys Demo.call
           (Demo.self_after Demo.Job_save (Demo.job "tasks.gone" [] [] 3 None)
                            initial_world)
           1 3
           (Demo.world_after Demo.Job_save (Demo.job "tasks.gone" [] [] 3 None)
                             initial_world)
           (PyException "ImportError" "No module named tasks")
           (60 * us_per_second)).
  - vm_compute. left. reflexivity.
  - reflexivity.
  - reflexivity.
  - reflexivity.
  - vm_compute. reflexivity.
Defined.

Lemma execute_without_a_priority_records_nothing_witness :
  exists j' w',
    Demo.Job_execute
      (Job.new "tasks.fail" (dumps []) (dumps []) (Some (dumps [])) None,
       initial_world)
    = (Raise (TypeError "unsupported operand type(s) for -: 'NoneType' and 'int'"),
       (j', w'))
    /\ nothing_committed initial_world w'
    /\ stats w' = stats initial_world.
Proof.
  apply (execute_without_a_priority_records_nothing Demo.clock Demo.pow
           Demo.repr_exception Demo.format_exc Demo.Function
           Demo.object_at_end_of_path Demo.non_unicode_kwarg_keys Demo.call
           (Job.new "tasks.fail" (dumps []) (dumps []) (Some (dumps [])) None)
           initial_world "tasks.fail"
           (PyException "ValueError" "boom") (60 * us_per_second)).
  - reflexivity.
  - reflexivity.
  - reflexivity.
  - vm_compute. reflexivity.
Defined.

(** ** More on groups *)

(** No job that is neither executed nor cancelled belongs to another group
    of the reference of [g]. *)
Lemma free_reference_count (g : Group.t) (s : Store) :
  (forall j other i,
     In j (jobs s) -> Job.group j = Some i ->
     In other (groups s) -> Group.id other = Some i ->
     Group.reference other = Group.reference g ->
     Job.executed j = None -> Job.cancelled j = None ->
     Group.id g = Some i) ->
  (0 <? count
          (filter (fun j => negb (pk_eqb (Job.group j) (Group.id g)))
             (filter unexecuted
                (filter (group__reference s (Group.reference g)) (jobs s)))))
  = false.
Proof.
  intros Hfree. rewrite count_filter_pos.
  apply not_true_is_false. intros H.
  apply existsb_exists in H. destruct H as (j & Hj & Hother).
  apply filter_In in Hj. destruct Hj as [Hj Hopen].
  apply filter_In in Hj. destruct Hj as [Hj Href].
  unfold group__reference in Href.
  destruct (Job.group j) as [i|] eqn:Hgroup; [|discriminate].
  apply existsb_exists in Href. destruct Href as (other & Ho & Hmatch).
  apply andb_prop in Hmatch. destruct Hmatch as [Hid Hr].
  apply pk_eqb_eq in Hid. apply String.eqb_eq in Hr.
  unfold unexecuted in Hopen. apply andb_prop in Hopen.
  destruct Hopen as [He Hc].
  assert (Group.id g = Some i) as Hg.
  { apply (Hfree j other i); auto.
    - now destruct (Job.executed j).
    - now destruct (Job.cancelled j). }
  rewrite Hg in Hother. simpl in Hother. rewrite Z.eqb_refl in Hother.
  discriminate.
Qed.

Section GroupProperties.

Variable clock : nat -> datetime.

(** [Group.save] step by step. *)
Lemma Group_save_steps (g : Group.t) (w : World) :
  Group_save clock (g, w)
  = if 0 <? count
              (filter (fun j => negb (pk_eqb (Job.group j) (Group.id g)))
                 (filter unexecuted
                    (filter (group__reference (db w) (Group.reference g))
                            (jobs (db w)))))
    then (Raise (ValidationError ("Group reference [" ++ Group.reference g
                                  ++ "] still has unexecuted jobs.")),
          (g, w))
    else
      match Model_save_Group clock (g, w) with
      | (Return _, (g', w')) =>
          match Group.final g' with
          | Some f =>
              if negb (pk_eqb (Job.group f) (Group.id g'))
              then save_final clock f (g', w')
              else (Return tt, (g', w'))
          | None => (Return tt, (g', w'))
          end
      | (Raise e, s) => (Raise e, s)
      end.
Proof.
  unfold Group_save. unfold bind at 1. unfold self at 1. cbn [fst snd].
  unfold bind at 1. unfold world at 1, query at 1. cbn [fst snd].
  destruct (0 <? count _); [unfold raise; destruct w; reflexivity|].
  unfold bind at 1.
  destruct (Model_save_Group clock (g, w)) as [[u|e] [g' w']]; [|reflexivity].
  unfold bind at 1. unfold self at 1. cbn [fst snd].
  destruct (Group.final g') as [f|]; [|reflexivity].
  destruct (negb _); reflexivity.
Qed.

Lemma Group_save_free (g : Group.t) (w : World) :
  (forall j other i,
     In j (jobs (db w)) -> Job.group j = Some i ->
     In other (groups (db w)) -> Group.id other = Some i ->
     Group.reference other = Group.reference g ->
     Job.executed j = None -> Job.cancelled j = None ->
     Group.id g = Some i) ->
  Group.final g = None ->
  exists g' w',
    Group_save clock (g, w) = (Return tt, (g', w'))
    /\ g' = Group.set_id (Group.id g') (Group.set_created (Group.created g') g)
    /\ row_written Group.id (groups (db w)) g' (groups (db w'))
    /\ jobs (db w') = jobs (db w)
    /\ errors (db w') = errors (db w).
Proof.
  intros Hfree Hfinal.
  rewrite Group_save_steps, (free_reference_count g (db w) Hfree).
  destruct (Model_save_Group_table clock g w)
    as (g' & w' & H & Hg' & Ht & Hj & He & _).
  rewrite H. exists g', w'.
  assert (Group.final g' = None) as Hf by (rewrite Hg'; exact Hfinal).
  rewrite (Group_row_without_final g' Hf) in Ht.
  rewrite Hf. now repeat split.
Qed.

Lemma Group_save_without_final (g g' : Group.t) (w w' : World) :
  Group.final g = None ->
  Group_save clock (g, w) = (Return tt, (g', w')) ->
  Group.reference g' = Group.reference g
  /\ Group.description g' = Group.description g
  /\ In g' (groups (db w')).
Proof.
  intros Hfinal. rewrite Group_save_steps.
  destruct (0 <? count _); [discriminate|].
  destruct (Model_save_Group_table clock g w)
    as (g1 & w1 & H & Hg1 & Ht & _).
  rewrite H.
  assert (Group.final g1 = None) as Hf by (rewrite Hg1; exact Hfinal).
  rewrite (Group_row_without_final g1 Hf) in Ht.
  rewrite Hf. intros E. injection E as <- <-.
  split; [now rewrite Hg1|]. split; [now rewrite Hg1|].
  apply (row_written_row _ _ _ _ Ht).
Qed.

Lemma Group_save_raises_validation (g g' : Group.t) (w w' : World) (e : Exception) :
  Group.final g = None ->
  Group_save clock (g, w) = (Raise e, (g', w')) ->
  exists message, e = ValidationError message.
Proof.
  intros Hfinal. rewrite Group_save_steps.
  destruct (0 <? count _); [intros E; injection E as <- _ _; now eexists|].
  destruct (Model_save_Group_table clock g w)
    as (g1 & w1 & H & Hg1 & _).
  rewrite H.
  assert (Group.final g1 = None) as Hf by (rewrite Hg1; exact Hfinal).
  rewrite Hf. discriminate.
Qed.


(** Saving a group that has its key and its row is an UPDATE of that row. *)
Lemma Model_save_Group_updates (g : Group.t) (i : Z) (w : World) :
  Group.id g = Some i ->
  In (Some i) (map Group.id (groups (db w))) ->
  let s' := mkStore (jobs (db w)) (errors (db w))
                    (replace_row Group.id (Group_row g) (groups (db w))) in
  Model_save_Group clock (g, w)
  = (Return tt,
     (g, mkWorld s' (if managed w then committed w else s' :: committed w)
                 (managed w) (ticks w) (stats w))).
Proof.
  intros Hid Hin. cbv zeta.
  unfold Model_save_Group, bind, self, world, query. simpl.
  rewrite Hid. simpl.
  replace (existsb _ _) with true; [reflexivity|].
  symmetry. now apply existsb_pk_in.
Qed.

Lemma Group_on_completion_steps (job : Job.t) (g : Group.t) (i : Z) (w : World) :
  (forall j other k,
     In j (jobs (db w)) -> Job.group j = Some k ->
     In other (groups (db w)) -> Group.id other = Some k ->
     Group.reference other = Group.reference g ->
     Job.executed j = None -> Job.cancelled j = None ->
     k = i) ->
  Group.id g = Some i ->
  In (Some i) (map Group.id (groups (db w))) ->
  Job.group job <> Some i ->
  let g1 := Group.set_final (Some job) g in
  let s1 := mkStore (jobs (db w)) (errors (db w))
                    (replace_row Group.id (Group_row g1) (groups (db w))) in
  let w1 := mkWorld s1 (if managed w then committed w else s1 :: committed w)
                    (managed w) (ticks w) (stats w) in
  Group_on_completion clock job (g, w) = save_final clock job (g1, w1).
Proof.
  intros Hfree Hid Hin Hgroup. cbv zeta.
  unfold Group_on_completion. unfold bind at 1. unfold setattr at 1.
  cbn [fst snd].
  rewrite Group_save_steps.
  rewrite (free_reference_count (Group.set_final (Some job) g) (db w)).
  2:{ intros j other k H1 H2 H3 H4 H5 H6 H7. simpl. rewrite Hid. f_equal.
      symmetry. exact (Hfree j other k H1 H2 H3 H4 H5 H6 H7). }
  rewrite (Model_save_Group_updates (Group.set_final (Some job) g) i w Hid Hin).
  cbn [Group.final Group.set_final Group.id]. rewrite Hid.
  replace (pk_eqb (Job.group job) (Some i)) with false; [reflexivity|].
  symmetry. apply not_true_is_false. intros H. apply pk_eqb_eq in H. contradiction.
Qed.

End GroupProperties.

(** A group without a final job is saved when no job that is neither
    executed nor cancelled belongs to another group of its reference: its
    row is updated in place, or added at the end under a new key; the jobs
    and the errors are untouched. *)
Theorem Group_save_accepts_a_free_reference
    (clock : nat -> datetime) (g : Group.t) (w : World) :
  (forall j other i,
     In j (jobs (db w)) -> Job.group j = Some i ->
     In other (groups (db w)) -> Group.id other = Some i ->
     Group.reference other = Group.reference g ->
     Job.executed j = None -> Job.cancelled j = None ->
     Group.id g = Some i) ->
  Group.final g = None ->
  exists g' w',
    Group_save clock (g, w) = (Return tt, (g', w'))
    /\ g' = Group.set_id (Group.id g') (Group.set_created (Group.created g') g)
    /\ row_written Group.id (groups (db w)) g' (groups (db w'))
    /\ jobs (db w') = jobs (db w)
    /\ errors (db w') = errors (db w).
Proof. apply Group_save_free. Qed.

Lemma Group_save_accepts_a_free_reference_witness :
  exists g' w',
    Group_save Demo.clock (Group.new "S" None, Demo.two_groups_3)
    = (Return tt, (g', w'))
    /\ g' = Group.set_id (Group.id g')
              (Group.set_created (Group.created g') (Group.new "S" None))
    /\ row_written Group.id (groups (db Demo.two_groups_3)) g' (groups (db w'))
    /\ jobs (db w') = jobs (db Demo.two_groups_3)
    /\ errors (db w') = errors (db Demo.two_groups_3).
Proof.
  apply (Group_save_accepts_a_free_reference Demo.clock (Group.new "S" None)
           Demo.two_groups_3); [|reflexivity].
  intros j other i _ _ Hother _ Href _ _. exfalso.
  vm_compute in Hother.
  destruct Hother as [<-|[<-|[]]]; vm_compute in Href; discriminate Href.
Defined.

Lemma final_id_Group_row (g : Group.t) : final_id (Group_row g) = final_id g.
Proof.
  unfold Group_row, final_id. destruct (Group.final g) as [f|] eqn:Hf;
    [|now rewrite Hf].
  destruct (Job.id f) eqn:Hid; simpl; [now rewrite Hf|reflexivity].
Qed.

Lemma row_written_key_set {A : Type} (pk : A -> option Z) (rows rows' : list A)
    (row : A) :
  row_written pk rows row rows' -> pk row <> None.
Proof. intros [Hex Hne | k Hk Hnew]; [exact Hne | now rewrite Hk]. Qed.

(** The row [on_completion(job)] writes for the group of key [i]. *)
Lemma on_completion_row (job : Job.t) (g : Group.t) (i : Z) (rows : list Group.t) :
  Group.id g = Some i ->
  In (Some i) (map Group.id rows) ->
  let row := Group_row (Group.set_final (Some job) g) in
  In row (replace_row Group.id row rows)
  /\ Group.id row = Some i
  /\ final_id row = Job.id job
  /\ Group.reference row = Group.reference g.
Proof.
  intros Hid Hin row.
  assert (Group.id row = Some i) as Hrow.
  { unfold row. now rewrite Group_row_id. }
  split; [|split; [exact Hrow|split]].
  - apply In_replace_row. apply existsb_pk_in. now rewrite Hrow.
  - unfold row. now rewrite final_id_Group_row.
  - unfold row, Group_row. simpl. now destruct (isnull (Job.id job)).
Qed.

(** [on_completion(job)] on a stored group, with a job of another or of no
    group that has a priority and may join: the job is saved as a member of
    the group, and the row of the group holds as its final job the key the
    job had when it was passed: null for a job that had not been saved,
    although the job has a key afterwards. *)
Theorem on_completion_makes_the_job_a_member
    (clock : nat -> datetime) (job : Job.t) (g : Group.t) (i : Z) (w : World) :
  (forall j other k,
     In j (jobs (db w)) -> Job.group j = Some k ->
     In other (groups (db w)) -> Group.id other = Some k ->
     Group.reference other = Group.reference g ->
     Job.executed j = None -> Job.cancelled j = None ->
     k = i) ->
  Group.id g = Some i ->
  In (Some i) (map Group.id (groups (db w))) ->
  Job.group job <> Some i ->
  Job.priority job <> None ->
  refused (Job.set_group (Some i) job) (db w) = false ->
  exists g' job' w' row,
    Group_on_completion clock job (g, w) = (Return tt, (g', w'))
    /\ Group.id g' = Some i
    /\ Group.final g' = Some job'
    /\ Job.group job' = Some i
    /\ Job.id job' <> None
    /\ In job' (jobs (db w'))
    /\ groups (db w') = replace_row Group.id row (groups (db w))
    /\ In row (groups (db w'))
    /\ Group.id row = Some i
    /\ final_id row = Job.id job
    /\ Group.reference row = Group.reference g.
Proof.
  intros Hfree Hid Hin Hgroup _ Hok.
  rewrite (Group_on_completion_steps clock job g i w Hfree Hid Hin Hgroup).
  unfold save_final. cbn [Group.id Group.set_final]. rewrite Hid.
  match goal with
  | |- context [Job_save clock (?x, ?y)] =>
      destruct (Job_save_accepts clock x y Hok) as (job' & w' & H & Hs & Hw);
      destruct (Job_save_table clock x y)
        as [[m Hm] | (j1 & w1 & H1 & _ & Ht & _ & _)];
        [rewrite H in Hm; discriminate Hm
        |rewrite H in H1; injection H1 as <- <-]
  end.
  rewrite H. exists (Group.set_final (Some job') (Group.set_final (Some job) g)).
  exists job', w', (Group_row (Group.set_final (Some job) g)).
  destruct (on_completion_row job g i (groups (db w)) Hid Hin)
    as (Hrow & Hkey & Hfinal & Href).
  split; [reflexivity|]. split; [exact Hid|].
  split; [reflexivity|].
  split; [now apply (f_equal Job.group) in Hs|].
  split; [exact (row_written_key_set _ _ _ _ Ht)|].
  split; [apply (row_stored _ _ _ Hw)|].
  rewrite (groups_kept _ _ _ Hw). cbn [db groups].
  split; [reflexivity|]. split; [exact Hrow|].
  split; [exact Hkey|]. split; [exact Hfinal | exact Href].
Qed.

(** [on_completion(job)] on a stored group, with a job that may not join
    (the group has a member that is executed or cancelled): the call raises
    the validation failure of [Job.save], but only after the row of the
    group was written with the key of the job as its final job; that write
    stays, and is committed when no transaction block is open, while the
    jobs table is as it was. *)
Theorem on_completion_saves_the_group_before_it_fails
    (clock : nat -> datetime) (job : Job.t) (g : Group.t) (i : Z) (w : World) :
  (forall j other k,
     In j (jobs (db w)) -> Job.group j = Some k ->
     In other (groups (db w)) -> Group.id other = Some k ->
     Group.reference other = Group.reference g ->
     Job.executed j = None -> Job.cancelled j = None ->
     k = i) ->
  Group.id g = Some i ->
  In (Some i) (map Group.id (groups (db w))) ->
  Job.group job <> Some i ->
  refused (Job.set_group (Some i) job) (db w) = true ->
  exists message g' w' row,
    Group_on_completion clock job (g, w)
    = (Raise (ValidationError message), (g', w'))
    /\ jobs (db w') = jobs (db w)
    /\ groups (db w') = replace_row Group.id row (groups (db w))
    /\ In row (groups (db w'))
    /\ Group.id row = Some i
    /\ final_id row = Job.id job
    /\ Group.reference row = Group.reference g
    /\ (managed w = false -> committed w' = db w' :: committed w).
Proof.
  intros Hfree Hid Hin Hgroup Hno.
  rewrite (Group_on_completion_steps clock job g i w Hfree Hid Hin Hgroup).
  unfold save_final. cbn [Group.id Group.set_final]. rewrite Hid.
  match goal with
  | |- context [Job_save clock (?x, ?y)] =>
      destruct (Job_save_refuses clock x y Hno) as (message & H)
  end.
  rewrite H.
  exists message. eexists _, _, (Group_row (Group.set_final (Some job) g)).
  destruct (on_completion_row job g i (groups (db w)) Hid Hin)
    as (Hrow & Hkey & Hfinal & Href).
  split; [reflexivity|].
  cbn [db jobs groups committed].
  split; [reflexivity|]. split; [reflexivity|]. split; [exact Hrow|].
  split; [exact Hkey|]. split; [exact Hfinal|]. split; [exact Href|].
  intros ->. reflexivity.
Qed.

Lemma on_completion_makes_the_job_a_member_witness :
  exists g' job' w' row,
    Group_on_completion Demo.clock (Runs.stored_outsider Runs.pending_group)
      (Demo.the_group, Runs.with_outsider Runs.pending_group)
    = (Return tt, (g', w'))
    /\ Group.id g' = Some 1
    /\ Group.final g' = Some job'
    /\ Job.group job' = Some 1
    /\ Job.id job' <> None
    /\ In job' (jobs (db w'))
    /\ groups (db w')
       = replace_row Group.id row
           (groups (db (Runs.with_outsider Runs.pending_group)))
    /\ In row (groups (db w'))
    /\ Group.id row = Some 1
    /\ final_id row = Job.id (Runs.stored_outsider Runs.pending_group)
    /\ Group.reference row = Group.reference Demo.the_group.
Proof.
  apply (on_completion_makes_the_job_a_member Demo.clock
           (Runs.stored_outsider Runs.pending_group) Demo.the_group 1
           (Runs.with_outsider Runs.pending_group)).
  - intros j other k Hj Hg _ _ _ _ _. vm_compute in Hj.
    destruct Hj as [<-|[<-|[]]]; vm_compute in Hg;
      [now injection Hg as <- | discriminate Hg].
  - reflexivity.
  - vm_compute. left. reflexivity.
  - discriminate.
  - discriminate.
  - vm_compute. reflexivity.
Defined.

Lemma on_completion_saves_the_group_before_it_fails_witness :
  exists message g' w' row,
    Group_on_completion Demo.clock (Runs.stored_outsider Runs.started_group)
      (Demo.the_group, Runs.with_outsider Runs.started_group)
    = (Raise (ValidationError message), (g', w'))
    /\ jobs (db w') = jobs (db (Runs.with_outsider Runs.started_group))
    /\ groups (db w')
       = replace_row Group.id row
           (groups (db (Runs.with_outsider Runs.started_group)))
    /\ In row (groups (db w'))
    /\ Group.id row = Some 1
    /\ final_id row = Job.id (Runs.stored_outsider Runs.started_group)
    /\ Group.reference row = Group.reference Demo.the_group
    /\ (managed (Runs.with_outsider Runs.started_group) = false ->
        committed w' = db w' :: committed (Runs.with_outsider Runs.started_group)).
Proof.
  apply (on_completion_saves_the_group_before_it_fails Demo.clock
           (Runs.stored_outsider Runs.started_group) Demo.the_group 1
           (Runs.with_outsider Runs.started_group)).
  - intros j other k Hj Hg _ _ _ _ _. vm_compute in Hj.
    destruct Hj as [<-|[<-|[<-|[]]]]; vm_compute in Hg;
      [now injection Hg as <- | now injection Hg as <- | discriminate Hg].
  - reflexivity.
  - vm_compute. left. reflexivity.
  - discriminate.
  - vm_compute. reflexivity.
Defined.

(** The two runs side by side: for the job saved before, the row of the
    group holds its key; for the same job passed unsaved, the job is saved
    into the group under key 2 and the row of the group holds no final
    job. *)
Example on_completion_of_a_saved_and_of_an_unsaved_job :
  let saved :=
    Demo.world_after (Group_on_completion Demo.clock
                        (Runs.stored_outsider Runs.pending_group))
                     Demo.the_group (Runs.with_outsider Runs.pending_group) in
  let unsaved :=
    Demo.world_after (Group_on_completion Demo.clock Runs.outsider)
                     Demo.the_group Runs.pending_group in
  map final_id (groups (db saved)) = [Some 2]
  /\ map Job.group (jobs (db saved)) = [Some 1; Some 1]
  /\ map final_id (groups (db unsaved)) = [None]
  /\ map Job.id (jobs (db unsaved)) = [Some 1; Some 2]
  /\ map Job.group (jobs (db unsaved)) = [Some 1; Some 1].
Proof. vm_compute. repeat split. Qed.

(** ** The current group of a reference *)

Section LatestGroup.

Variable clock : nat -> datetime.

Lemma Group_objects_create_returns (g g' : Group.t) (w w' : World) :
  Group.final g = None ->
  Group_objects_create clock g w = (Return g', w') ->
  Group.reference g' = Group.reference g
  /\ Group.description g' = Group.description g
  /\ In g' (groups (db w')).
Proof.
  intros Hfinal. unfold Group_objects_create.
  destruct (Group_save clock (g, w)) as [[u|e] [g1 w1]] eqn:H; [|discriminate].
  intros E. injection E as <- <-. destruct u.
  exact (Group_save_without_final clock g g1 w w1 Hfinal H).
Qed.

Lemma Group_objects_create_raises (g : Group.t) (w w' : World) (e : Exception) :
  Group.final g = None ->
  Group_objects_create clock g w = (Raise e, w') ->
  exists message, e = ValidationError message.
Proof.
  intros Hfinal. unfold Group_objects_create.
  destruct (Group_save clock (g, w)) as [[u|e0] [g1 w1]] eqn:H; [discriminate|].
  intros E. injection E as <- <-.
  exact (Group_save_raises_validation clock g g1 w w1 e0 Hfinal H).
Qed.

Lemma latest_is_a_row {A : Type} (field : A -> option datetime) (rows : list A)
    (r : A) :
  latest field rows = Some r -> In r rows.
Proof.
  revert r. induction rows as [|x rows IH]; simpl; [discriminate|].
  intros r. destruct (latest field rows) as [r'|].
  - specialize (IH r' eq_refl).
    destruct (field x), (field r'); try destruct (_ <=? _);
      intros E; injection E as <-; auto.
  - intros E. injection E as <-. now left.
Qed.

Lemma latest_group_returns (reference : string) (g : Group.t) (w w' : World) :
  Group_latest_group_by_reference clock reference w = (Return g, w') ->
  Group.reference g = reference /\ In g (groups (db w')).
Proof.
  unfold Group_latest_group_by_reference, try_except.
  unfold bind at 1. unfold query at 1.
  destruct (latest Group.created _) as [group|] eqn:Hfound.
  - apply latest_is_a_row in Hfound. apply filter_In in Hfound.
    destruct Hfound as [Hin Href]. apply String.eqb_eq in Href.
    unfold bind at 1. unfold query at 1.
    destruct (Group_has_completed group None (db w)).
    + destruct (Group_objects_create clock _ w) as [[g1|e] w1] eqn:Hc.
      * intros E. injection E as <- <-.
        apply Group_objects_create_returns in Hc; [|reflexivity].
        destruct Hc as (Hr & _ & Hi). now split.
      * apply Group_objects_create_raises in Hc; [|reflexivity].
        destruct Hc as [m ->]. discriminate.
    + unfold ret. intros E. injection E as <- <-. now split.
  - unfold raise.
    destruct (Group_objects_create clock _ w) as [[g1|e] w1] eqn:Hc;
      [|discriminate].
    intros E. injection E as <- <-.
    apply Group_objects_create_returns in Hc; [|reflexivity].
    destruct Hc as (Hr & _ & Hi). now split.
Qed.

Lemma latest_none {A : Type} (field : A -> option datetime) (rows : list A) :
  latest field rows = None <-> rows = [].
Proof.
  split; [|now intros ->].
  destruct rows as [|x rows]; [reflexivity|]. simpl.
  destruct (latest field rows) as [r'|]; [|discriminate].
  destruct (field x), (field r'); try destruct (_ <=? _); discriminate.
Qed.

Lemma latest_group_creates (reference : string) (w : World) :
  (forall r, In r (groups (db w)) -> Group.reference r <> reference) ->
  let g := Group.mk (Some (fresh_id Group.id (groups (db w)))) reference None
                    (Some (clock (ticks w))) None in
  exists w',
    Group_latest_group_by_reference clock reference w = (Return g, w')
    /\ groups (db w') = (groups (db w) ++ [g])%list
    /\ jobs (db w') = jobs (db w)
    /\ errors (db w') = errors (db w).
Proof.
  intros Hnone. cbv zeta.
  assert (Hfilter : filter (fun r => String.eqb (Group.reference r) reference)
                           (groups (db w)) = []).
  { apply filter_none. intros r Hr. apply String.eqb_neq. now apply Hnone. }
  unfold Group_latest_group_by_reference, try_except.
  unfold bind at 1. unfold query at 1. rewrite Hfilter. cbn [latest].
  unfold raise, Group_objects_create.
  rewrite Group_save_steps.
  rewrite free_reference_count.
  2:{ intros j other i _ _ Hother _ Href _ _. exfalso.
      now apply (Hnone other Hother). }
  unfold Model_save_Group, bind, self, world, query, now, setattr, ret, write.
  simpl. eexists. split; [reflexivity|]. simpl. repeat split.
Qed.

End LatestGroup.

(** Whenever [latest_group_by_reference(reference)] returns, the group it
    returns has that reference and is a row of the groups table. *)
Theorem latest_group_by_reference_returns_a_stored_group
    (clock : nat -> datetime) (reference : string) (g : Group.t) (w w' : World) :
  Group_latest_group_by_reference clock reference w = (Return g, w') ->
  Group.reference g = reference /\ In g (groups (db w')).
Proof. apply latest_group_returns. Qed.

Lemma latest_group_by_reference_returns_a_stored_group_witness :
  Group.reference Demo.the_group = "R"
  /\ In Demo.the_group (groups (db (Demo.at_tick Demo.half_done 3))).
Proof.
  apply (latest_group_by_reference_returns_a_stored_group Demo.clock "R"
           Demo.the_group (Demo.at_tick Demo.half_done 3)
           (Demo.at_tick Demo.half_done 3)).
  vm_compute. reflexivity.
Defined.

(** When no group has the reference, [latest_group_by_reference] creates
    one: a group with that reference, no description and no final job,
    created at the clock reading, is added at the end of the groups table
    under a new key and returned; jobs and errors are untouched. *)
Theorem latest_group_by_reference_creates_the_first_group
    (clock : nat -> datetime) (reference : string) (w : World) :
  (forall r, In r (groups (db w)) -> Group.reference r <> reference) ->
  let g := Group.mk (Some (fresh_id Group.id (groups (db w)))) reference None
                    (Some (clock (ticks w))) None in
  exists w',
    Group_latest_group_by_reference clock reference w = (Return g, w')
    /\ groups (db w') = (groups (db w) ++ [g])%list
    /\ jobs (db w') = jobs (db w)
    /\ errors (db w') = errors (db w).
Proof. apply latest_group_creates. Qed.

Lemma latest_group_by_reference_creates_the_first_group_witness :
  exists w',
    Group_latest_group_by_reference Demo.clock "S" (Demo.at_tick Demo.half_done 3)
    = (Return (Group.mk (Some 2) "S" None (Some (Demo.clock 3)) None), w')
    /\ groups (db w')
       = (groups (db (Demo.at_tick Demo.half_done 3))
          ++ [Group.mk (Some 2) "S" None (Some (Demo.clock 3)) None])%list
    /\ jobs (db w') = jobs (db (Demo.at_tick Demo.half_done 3))
    /\ errors (db w') = errors (db (Demo.at_tick Demo.half_done 3)).
Proof.
  apply (latest_group_by_reference_creates_the_first_group Demo.clock "S"
           (Demo.at_tick Demo.half_done 3)).
  intros r Hr. vm_compute in Hr. destruct Hr as [<-|[]]. discriminate.
Defined.

(** ** Saving twice *)

Lemma replace_row_same {A : Type} (pk : A -> option Z) (row : A) (rows : list A) :
  (forall r, In r rows -> pk r = pk row -> r = row) ->
  replace_row pk row rows = rows.
Proof.
  intros H. unfold replace_row. rewrite <- (map_id rows) at 2.
  apply map_ext_in. intros r Hr.
  destruct (pk_eqb (pk r) (pk row)) eqn:E; [|reflexivity].
  symmetry. apply H; [exact Hr | now apply pk_eqb_eq].
Qed.

Lemma row_written_only_row {A : Type} (pk : A -> option Z) (rows rows' : list A)
    (row r : A) :
  row_written pk rows row rows' -> In r rows' -> pk r = pk row -> r = row.
Proof.
  intros [Hex Hne | k Hk Hnew] Hr Hpk.
  - unfold replace_row in Hr. apply in_map_iff in Hr.
    destruct Hr as (r0 & Hr0 & Hin0).
    destruct (pk_eqb (pk r0) (pk row)) eqn:E; [now subst|].
    subst r0. rewrite Hpk, pk_eqb_refl in E. discriminate.
  - apply in_app_or in Hr. destruct Hr as [Hr|[<-|[]]]; [|reflexivity].
    exfalso. apply Hnew. rewrite <- Hk, <- Hpk. now apply in_map.
Qed.

Lemma row_written_has_key {A : Type} (pk : A -> option Z) (rows rows' : list A)
    (row : A) :
  row_written pk rows row rows' -> exists k, pk row = Some k.
Proof.
  intros [Hex Hne | k Hk Hnew]; [|now exists k].
  destruct (pk row) as [k|]; [now exists k | contradiction].
Qed.

Lemma Job_save_again (clock : nat -> datetime) (j j' : Job.t) (w w' : World) :
  Job_save clock (j, w) = (Return tt, (j', w')) ->
  exists w'',
    Job_save clock (j', w') = (Return tt, (j', w''))
    /\ db w'' = db w' /\ ticks w'' = ticks w'.
Proof.
  intros H.
  destruct (Job_save_table clock j w)
    as [[m Hm] | (j1 & w1 & H1 & Hs & Ht & _ & Hw)]; [congruence|].
  rewrite H1 in H. injection H as -> ->.
  destruct (row_written_has_key _ _ _ _ Ht) as [k Hk].
  pose proof (row_written_row _ _ _ _ Ht) as Hin.
  pose proof (saved_as_identity j j' Hs) as Hidentity.
  assert (Hsame : Job.set_identity (sha1_hexdigest (Job_unicode j')) j' = j').
  { rewrite <- Hidentity. now destruct j'. }
  pose proof (Job_save_updates clock j' k w'
                (stored_job_is_not_refused j' j' (db w') Hin eq_refl eq_refl)
                Hk (stored_job_exists j' j' _ Hin eq_refl)) as Hu.
  cbv zeta in Hu. rewrite Hsame in Hu. rewrite Hu.
  eexists. split; [reflexivity|]. cbn [db ticks]. split; [|reflexivity].
  rewrite replace_row_same; [now destruct (db w')|].
  intros r Hr Hpk. exact (row_written_only_row _ _ _ _ _ Ht Hr Hpk).
Qed.

(** Saving an instance again right after a successful [Job.save] changes
    nothing: the second save returns, reads no clock, leaves the instance
    as it is and the three tables exactly as they were. *)
Theorem Job_save_twice_is_Job_save_once
    (clock : nat -> datetime) (j j' : Job.t) (w w' : World) :
  Job_save clock (j, w) = (Return tt, (j', w')) ->
  exists w'',
    Job_save clock (j', w') = (Return tt, (j', w''))
    /\ db w'' = db w' /\ ticks w'' = ticks w'.
Proof. apply Job_save_again. Qed.

Lemma Job_save_twice_is_Job_save_once_witness :
  exists w'',
    Job_save Demo.clock (Demo.echo_job, Demo.echo_world)
    = (Return tt, (Demo.echo_job, w''))
    /\ db w'' = db Demo.echo_world /\ ticks w'' = ticks Demo.echo_world.
Proof.
  apply (Job_save_twice_is_Job_save_once Demo.clock
           (Demo.job "tasks.echo" [JInt 1] [("b", JInt 2)] 5 None)
           Demo.echo_job initial_world Demo.echo_world).
  vm_compute. reflexivity.
Defined.

(** ** The estimate and whole days *)

Lemma timedelta_seconds_plus_days (d k : Z) :
  timedelta_seconds (d + k * (86400 * us_per_second)) = timedelta_seconds d.
Proof.
  unfold timedelta_seconds, us_per_second.
  replace (d + k * (86400 * 1000000)) with (d + (k * 86400) * 1000000) by lia.
  rewrite Z.div_add by lia. rewrite Z.add_mod by lia.
  rewrite Z.mod_mul by lia. rewrite Z.add_0_r. apply Z.mod_mod. lia.
Qed.

(** While a group is not completed, the estimated total depends on the time
    since its creation through the seconds field only: on a clock that is
    [k] whole days ahead, [estimate_execution_duration()] returns the same
    estimated total, a time consumed [k] days longer and a remaining time
    [k] days shorter. *)
Theorem estimate_is_the_same_whole_days_later
    (clock : nat -> datetime) (g : Group.t) (w w' : World) (k : Z)
    (estimated remaining consumed : timedelta) :
  Group_has_completed g None (db w) = false ->
  Group_estimate_execution_duration clock g w
  = (Return (Some estimated, Some remaining, Some consumed), w') ->
  Group_estimate_execution_duration
    (fun n => clock n + k * (86400 * us_per_second)) g w
  = (Return (Some estimated,
             Some (remaining - k * (86400 * us_per_second)),
             Some (consumed + k * (86400 * us_per_second))), w').
Proof.
  intros Hopen.
  unfold Group_estimate_execution_duration, bind, query, ret, lift, now.
  cbv beta iota zeta. cbn [db]. rewrite Hopen. cbn [negb].
  destruct (0 <? count _); [|discriminate].
  destruct (_ =? 0); [discriminate|].
  unfold datetime_sub. destruct (Group.created g) as [c|]; [|discriminate].
  cbv beta iota.
  replace (clock (ticks w) + k * (86400 * us_per_second) - c)
    with (clock (ticks w) - c + k * (86400 * us_per_second)) by lia.
  rewrite timedelta_seconds_plus_days.
  destruct (timedelta_of_seconds _) as [e|]; [|discriminate].
  intros E. injection E as <- <- <- <-.
  replace (e - (clock (ticks w) - c + k * (86400 * us_per_second)))
    with (e - (clock (ticks w) - c) - k * (86400 * us_per_second)) by lia.
  reflexivity.
Qed.

Lemma estimate_is_the_same_whole_days_later_witness :
  Group_estimate_execution_duration
    (fun n => Demo.clock n + 3 * (86400 * us_per_second)) Demo.the_group
    (Demo.at_tick Demo.half_done 100)
  = (Return (Some (200 * us_per_second),
             Some (100 * us_per_second - 3 * (86400 * us_per_second)),
             Some (100 * us_per_second + 3 * (86400 * us_per_second))),
     Demo.at_tick Demo.half_done 101).
Proof.
  apply (estimate_is_the_same_whole_days_later Demo.clock Demo.the_group
           (Demo.at_tick Demo.half_done 100) (Demo.at_tick Demo.half_done 101) 3
           (200 * us_per_second) (100 * us_per_second) (100 * us_per_second)).
  - vm_compute. reflexivity.
  - vm_compute. reflexivity.
Defined.

Lemma latest_group_supersedes (clock : nat -> datetime) (reference : string)
    (group : Group.t) (w : World) :
  latest Group.created
    (filter (fun r => String.eqb (Group.reference r) reference) (groups (db w)))
  = Some group ->
  Group_has_completed group None (db w) = true ->
  (forall j other i,
     In j (jobs (db w)) -> Job.group j = Some i ->
     In other (groups (db w)) -> Group.id other = Some i ->
     Group.reference other = reference ->
     Job.executed j <> None \/ Job.cancelled j <> None) ->
  let g := Group.mk (Some (fresh_id Group.id (groups (db w)))) reference
                    (Group.description group) (Some (clock (ticks w))) None in
  exists w',
    Group_latest_group_by_reference clock reference w = (Return g, w')
    /\ groups (db w') = (groups (db w) ++ [g])%list
    /\ Group.id g <> Group.id group
    /\ jobs (db w') = jobs (db w).
Proof.
  intros Hfound Hdone Hall. cbv zeta.
  pose proof (latest_is_a_row _ _ _ Hfound) as Hrow.
  apply filter_In in Hrow. destruct Hrow as [Hin _].
  unfold Group_latest_group_by_reference, try_except.
  unfold bind at 1. unfold query at 1. rewrite Hfound.
  unfold bind at 1. unfold query at 1. rewrite Hdone.
  unfold Group_objects_create.
  rewrite Group_save_steps.
  rewrite free_reference_count.
  2:{ intros j other i H1 H2 H3 H4 H5 H6 H7. exfalso.
      destruct (Hall j other i H1 H2 H3 H4 H5) as [H|H]; contradiction. }
  unfold Model_save_Group, bind, self, world, query, now, setattr, ret, write.
  simpl. eexists. split; [reflexivity|]. simpl.
  split; [reflexivity|]. split; [|reflexivity].
  intros E. apply (fresh_id_is_new Group.id (groups (db w))).
  rewrite E. now apply in_map.
Qed.

(** When the latest group of a reference is completed, and every job of
    every group of that reference is executed or cancelled,
    [latest_group_by_reference] starts a new generation: it adds and
    returns a new group with the same reference and the description of the
    completed one, under a key different from its key. *)
Theorem latest_group_by_reference_supersedes_a_completed_group
    (clock : nat -> datetime) (reference : string) (group : Group.t) (w : World) :
  latest Group.created
    (filter (fun r => String.eqb (Group.reference r) reference) (groups (db w)))
  = Some group ->
  Group_has_completed group None (db w) = true ->
  (forall j other i,
     In j (jobs (db w)) -> Job.group j = Some i ->
     In other (groups (db w)) -> Group.id other = Some i ->
     Group.reference other = reference ->
     Job.executed j <> None \/ Job.cancelled j <> None) ->
  let g := Group.mk (Some (fresh_id Group.id (groups (db w)))) reference
                    (Group.description group) (Some (clock (ticks w))) None in
  exists w',
    Group_latest_group_by_reference clock reference w = (Return g, w')
    /\ groups (db w') = (groups (db w) ++ [g])%list
    /\ Group.id g <> Group.id group
    /\ jobs (db w') = jobs (db w).
Proof. apply latest_group_supersedes. Qed.

Lemma latest_group_by_reference_supersedes_a_completed_group_witness :
  exists w',
    Group_latest_group_by_reference Demo.clock "R"
      (Demo.at_tick Demo.all_cancelled 40)
    = (Return (Group.mk (Some 2) "R" None (Some (Demo.clock 40)) None), w')
    /\ groups (db w')
       = (groups (db (Demo.at_tick Demo.all_cancelled 40))
          ++ [Group.mk (Some 2) "R" None (Some (Demo.clock 40)) None])%list
    /\ Group.id (Group.mk (Some 2) "R" None (Some (Demo.clock 40)) None)
       <> Group.id Demo.the_group
    /\ jobs (db w') = jobs (db (Demo.at_tick Demo.all_cancelled 40)).
Proof.
  apply (latest_group_by_reference_supersedes_a_completed_group Demo.clock "R"
           Demo.the_group (Demo.at_tick Demo.all_cancelled 40)).
  - vm_compute. reflexivity.
  - vm_compute. reflexivity.
  - intros j other i Hj _ _ _ _. vm_compute in Hj.
    destruct Hj as [<-|[<-|[]]]; right; discriminate.
Defined.

(** ** The health of the queue after a run *)

Lemma replace_row_absent {A : Type} (pk : A -> option Z) (row : A) (rows : list A) :
  ~ In (pk row) (map pk rows) -> replace_row pk row rows = rows.
Proof.
  intros H. apply replace_row_same. intros r Hr Hpk. exfalso. apply H.
  rewrite <- Hpk. now apply in_map.
Qed.

(** Replacing the row of a key in a table with distinct keys moves the
    count of the rows that satisfy [p] by the one row alone. *)
Lemma count_filter_replace_row {A : Type} (pk : A -> option Z) (p : A -> bool)
    (old new : A) (rows : list A) :
  NoDup (map pk rows) ->
  In old rows ->
  pk new = pk old ->
  count (filter p (replace_row pk new rows)) + (if p old then 1 else 0)
  = count (filter p rows) + (if p new then 1 else 0).
Proof.
  intros Hnodup Hin Hpk. induction rows as [|r rows IH]; [contradiction|].
  simpl in Hnodup. apply NoDup_cons_iff in Hnodup. destruct Hnodup as [Hhead Htail].
  destruct Hin as [->|Hin].
  - unfold replace_row. cbn [map]. fold (replace_row pk new rows).
    rewrite Hpk, pk_eqb_refl.
    rewrite replace_row_absent by (now rewrite Hpk).
    cbn [filter]. unfold count.
    destruct (p old), (p new); cbn [List.length]; lia.
  - assert (pk r <> pk old) as Hne.
    { intros E. apply Hhead. rewrite E. now apply in_map. }
    unfold replace_row. cbn [map]. fold (replace_row pk new rows).
    replace (pk_eqb (pk r) (pk new)) with false.
    2:{ symmetry. apply not_true_is_false. intros E. apply pk_eqb_eq in E.
        congruence. }
    specialize (IH Htail Hin). cbn [filter]. unfold count in *.
    destruct (p r); cbn [List.length]; lia.
Qed.

Lemma length_replace_row {A : Type} (pk : A -> option Z) (row : A) (rows : list A) :
  count (replace_row pk row rows) = count rows.
Proof. unfold count, replace_row. now rewrite length_map. Qed.

Section HealthAfterARun.

Variable clock : nat -> datetime.
Variable pow : float -> float -> float.
Variable repr_exception : Exception -> string.
Variable format_exc : Exception -> string.
Variable Function : Type.
Variable object_at_end_of_path : string -> Result Function.
Variable non_unicode_kwarg_keys : dict -> dict.
Variable call : Function -> list json -> dict -> Result json.

(** The tables after a successful run of a stored job. *)
Lemma execute_success_tables
    (j : Job.t) (i : Z) (w : World) (function : Function) (V : json) :
  In j (jobs (db w)) ->
  Job.id j = Some i ->
  object_at_end_of_path (Job.name j) = Return function ->
  call function (loads (Job.args j)) (call_kwargs non_unicode_kwarg_keys j)
  = Return V ->
  exists j' w',
    Job_execute clock pow repr_exception format_exc Function
                object_at_end_of_path non_unicode_kwarg_keys call (j, w)
    = (Return V, (j', w'))
    /\ Job.id j' = Job.id j
    /\ Job.executed j' = Some (clock (S (ticks w)))
    /\ jobs (db w') = replace_row Job.id j' (jobs (db w))
    /\ errors (db w') = errors (db w)
    /\ groups (db w') = groups (db w).
Proof.
  intros Hin Hid Hresolve Hcall.
  destruct w as [s history m t telemetry]. simpl in Hin.
  unfold Job_execute, try_except.
  unfold bind at 1. unfold self at 1. cbn [fst snd].
  unfold bind at 1. unfold lift at 1. rewrite Hresolve.
  unfold commit_on_success, execute_transaction.
  unfold call_kwargs in Hcall.
  cbn [bind world now setattr lift fst snd db committed managed ticks stats].
  rewrite Hcall. cbv beta iota delta [bind].
  erewrite Job_save_updates;
    [ | eapply stored_job_is_not_refused; [exact Hin | reflexivity | reflexivity]
      | exact Hid
      | eapply stored_job_exists; [exact Hin | reflexivity] ].
  cbn [bind world _stats ret fst snd db committed managed ticks stats].
  eexists _, _. split; [reflexivity|].
  cbn [db committed jobs errors groups ticks]. repeat split; try exact Hid.
Qed.

(** The tables after a failed run of a stored job. *)
Lemma execute_failure_tables
    (j : Job.t) (i p : Z) (w : World) (function : Function) (E : Exception)
    (delay : timedelta) :
  In j (jobs (db w)) ->
  Job.id j = Some i ->
  Job.priority j = Some p ->
  object_at_end_of_path (Job.name j) = Return function ->
  call function (loads (Job.args j)) (call_kwargs non_unicode_kwarg_keys j)
  = Raise E ->
  backoff pow (1 + count (job_errors j (db w))) = Return delay ->
  exists j' w' error,
    Job_execute clock pow repr_exception format_exc Function
                object_at_end_of_path non_unicode_kwarg_keys call (j, w)
    = (Raise E, (j', w'))
    /\ Job.id j' = Job.id j
    /\ Job.executed j' = Job.executed j
    /\ jobs (db w') = replace_row Job.id j' (jobs (db w))
    /\ errors (db w') = (errors (db w) ++ [error])%list
    /\ groups (db w') = groups (db w).
Proof.
  intros Hin Hid Hpriority Hresolve Hcall Hdelay.
  destruct w as [s history m t telemetry]. simpl in Hin. cbn [db] in Hdelay.
  unfold Job_execute, try_except.
  unfold bind at 1. unfold self at 1. cbn [fst snd].
  unfold bind at 1. unfold lift at 1. rewrite Hresolve.
  unfold commit_on_success at 1. unfold execute_transaction.
  unfold call_kwargs in Hcall. unfold backoff in Hdelay.
  cbn [bind world now setattr lift fst snd db committed managed ticks stats].
  rewrite Hcall. cbv beta iota.
  unfold execute_except, commit_on_success, record, Error_objects_create.
  cbn [bind world now setattr lift query self fst snd db committed managed ticks
       stats].
  replace (job_errors (Job.set_started None (Job.set_started (Some (clock t)) j)) s)
    with (job_errors j s) by reflexivity.
  rewrite Hdelay. cbv beta iota.
  replace (Job.priority (Job.set_started None (Job.set_started (Some (clock t)) j)))
    with (Job.priority j) by reflexivity.
  rewrite Hpriority.
  cbv beta iota delta [bind ret write world query now setattr self lift].
  cbn [fst snd db committed managed ticks stats jobs errors groups].
  cbn [Job.id Job.set_priority Job.set_scheduled Job.set_started]. rewrite Hid.
  cbv beta iota delta [bind ret write world query now setattr self lift].
  cbn [fst snd db committed managed ticks stats jobs errors groups].
  erewrite Job_save_updates;
    [ | eapply stored_job_is_not_refused; [exact Hin | reflexivity | reflexivity]
      | exact Hid
      | eapply stored_job_exists; [exact Hin | reflexivity] ].
  cbn [_stats raise fst snd db committed managed ticks stats jobs errors groups].
  eexists _, _, _. split; [reflexivity|].
  cbn [db committed jobs errors groups ticks]. repeat split; try exact Hid.
Qed.

(** After the successful run of a stored job that was not executed yet, in
    a table with distinct keys, [health()] reports the same number of jobs
    and of errors and one unexecuted job less. *)
Theorem health_after_a_successful_run
    (j : Job.t) (i : Z) (w : World) (function : Function) (V : json) :
  NoDup (map Job.id (jobs (db w))) ->
  In j (jobs (db w)) ->
  Job.id j = Some i ->
  Job.executed j = None ->
  object_at_end_of_path (Job.name j) = Return function ->
  call function (loads (Job.args j)) (call_kwargs non_unicode_kwarg_keys j)
  = Return V ->
  exists j' w',
    Job_execute clock pow repr_exception format_exc Function
                object_at_end_of_path non_unicode_kwarg_keys call (j, w)
    = (Return V, (j', w'))
    /\ fst (health w')
       = Return
           (JObject
              [("queue",
                JObject
                  [("length", JInt (count (jobs (db w))));
                   ("executed",
                    JInt (count (filter (fun r => isnull (Job.executed r))
                                        (jobs (db w))) - 1))]);
               ("errors", JObject [("number", JInt (count (errors (db w))))])]).
Proof.
  intros Hnodup Hin Hid Hpending Hresolve Hcall.
  destruct (execute_success_tables j i w function V Hin Hid Hresolve Hcall)
    as (j' & w' & H & Hid' & Hexecuted & Hjobs & Herrors & _).
  exists j', w'. split; [exact H|].
  unfold health, bind, query, ret. simpl. rewrite Hjobs, Herrors.
  rewrite length_replace_row.
  pose proof (count_filter_replace_row Job.id (fun r => isnull (Job.executed r))
                j j' (jobs (db w)) Hnodup Hin Hid') as Hcount.
  cbv beta in Hcount. rewrite Hpending, Hexecuted in Hcount.
  cbn [isnull] in Hcount.
  replace (count (filter (fun r => isnull (Job.executed r))
                         (replace_row Job.id j' (jobs (db w)))))
    with (count (filter (fun r => isnull (Job.executed r)) (jobs (db w))) - 1)
    by lia.
  reflexivity.
Qed.

(** After the failed run of a stored job, in a table with distinct keys,
    [health()] reports the same number of jobs, the same number of
    unexecuted jobs and one error more. *)
Theorem health_after_a_failed_run
    (j : Job.t) (i p : Z) (w : World) (function : Function) (E : Exception)
    (delay : timedelta) :
  NoDup (map Job.id (jobs (db w))) ->
  In j (jobs (db w)) ->
  Job.id j = Some i ->
  Job.priority j = Some p ->
  object_at_end_of_path (Job.name j) = Return function ->
  call function (loads (Job.args j)) (call_kwargs non_unicode_kwarg_keys j)
  = Raise E ->
  backoff pow (1 + count (job_errors j (db w))) = Return delay ->
  exists j' w',
    Job_execute clock pow repr_exception format_exc Function
                object_at_end_of_path non_unicode_kwarg_keys call (j, w)
    = (Raise E, (j', w'))
    /\ fst (health w')
       = Return
           (JObject
              [("queue",
                JObject
                  [("length", JInt (count (jobs (db w))));
                   ("executed",
                    JInt (count (filter (fun r => isnull (Job.executed r))
                                        (jobs (db w)))))]);
               ("errors",
                JObject [("number", JInt (count (errors (db w)) + 1))])]).
Proof.
  intros Hnodup Hin Hid Hpriority Hresolve Hcall Hdelay.
  destruct (execute_failure_tables j i p w function E delay Hin Hid Hpriority
              Hresolve Hcall Hdelay)
    as (j' & w' & error & H & Hid' & Hexecuted & Hjobs & Herrors & _).
  exists j', w'. split; [exact H|].
  unfold health, bind, query, ret. simpl. rewrite Hjobs, Herrors.
  rewrite length_replace_row.
  pose proof (count_filter_replace_row Job.id (fun r => isnull (Job.executed r))
                j j' (jobs (db w)) Hnodup Hin Hid') as Hcount.
  cbv beta in Hcount. rewrite Hexecuted in Hcount.
  replace (count (filter (fun r => isnull (Job.executed r))
                         (replace_row Job.id j' (jobs (db w)))))
    with (count (filter (fun r => isnull (Job.executed r)) (jobs (db w))))
    by (destruct (isnull (Job.executed j)); lia).
  replace (count (errors (db w) ++ [error])%list)
    with (count (errors (db w)) + 1)
    by (unfold count; rewrite length_app; cbn [List.length]; lia).
  reflexivity.
Qed.

End HealthAfterARun.

Lemma health_after_a_successful_run_witness :
  exists j' w',
    Demo.Job_execute (Demo.echo_job, Demo.echo_world)
    = (Return (JList [JInt 1]), (j', w'))
    /\ fst (health w')
       = Return
           (JObject
              [("queue",
                JObject
                  [("length", JInt (count (jobs (db Demo.echo_world))));
                   ("executed",
                    JInt (count (filter (fun r => isnull (Job.executed r))
                                        (jobs (db Demo.echo_world))) - 1))]);
               ("errors",
                JObject [("number", JInt (count (errors (db Demo.echo_world))))])]).
Proof.
  apply (health_after_a_successful_run Demo.clock Demo.pow Demo.repr_exception
           Demo.format_exc Demo.Function Demo.object_at_end_of_path
           Demo.non_unicode_kwarg_keys Demo.call
           Demo.echo_job 1 Demo.echo_world "tasks.echo" (JList [JInt 1])).
  - vm_compute. repeat constructor. intros [].
  - vm_compute. left. reflexivity.
  - reflexivity.
  - reflexivity.
  - reflexivity.
  - reflexivity.
Defined.

Lemma health_after_a_failed_run_witness :
  exists j' w',
    Demo.Job_execute (Demo.failing_job, Demo.failing_world)
    = (Raise (PyException "ValueError" "boom"), (j', w'))
    /\ fst (health w')
       = Return
           (JObject
              [("queue",
                JObject
                  [("length", JInt (count (jobs (db Demo.failing_world))));
                   ("executed",
                    JInt (count (filter (fun r => isnull (Job.executed r))
                                        (jobs (db Demo.failing_world)))))]);
               ("errors",
                JObject
                  [("number", JInt (count (errors (db Demo.failing_world)) + 1))])]).
Proof.
  apply (health_after_a_failed_run Demo.clock Demo.pow Demo.repr_exception
           Demo.format_exc Demo.Function Demo.object_at_end_of_path
           Demo.non_unicode_kwarg_keys Demo.call
           Demo.failing_job 1 5 Demo.failing_world "tasks.fail"
           (PyException "ValueError" "boom") (60 * us_per_second)).
  - vm_compute. repeat constructor. intros [].
  - vm_compute. left. reflexivity.
  - reflexivity.
  - reflexivity.
  - reflexivity.
  - reflexivity.
  - vm_compute. reflexivity.
Defined.
